(** * Attack Flow parser: a shallow embedding of [attack-flow-parser.js]

    The development follows the class [AttackFlowParser]: format detection,
    the two extraction passes (STIX bundle and Attack Flow Builder), graph
    construction with edge resolution through conditions and operators, and
    the read-only queries ([getActionSequence], [getTactics],
    [getFlowMetadata], [getTechniqueCounts], [getDetailedStats]).  It then
    follows what the views compute from a parser before they draw: the
    grouping, spacing and duration helpers of the timeline, the data of the
    treemap, the groups and cells of the matrix, and the CSV export of the
    tactic table.

    Modelling conventions.
    - The document handed to the constructor is [null] or a value with its
      [type], [schema] and [objects] members ([RawData]).  The [objects]
      member is absent or falsy, a truthy value that is no array, or an
      array; an element of the array is [null] or an object ([Objects]).
    - An object of the document is a record [Obj] holding every member the
      parser reads; an absent member is [None], [VUndef] or [NoRefs].
      Identifiers and references are strings, and [undefined] is [None].
    - A list of references is absent or falsy, a truthy value that is no
      array, or an array of references ([RefList]); [forEach] on the second
      throws.  An entry of [kill_chain_phases] is the phase name it carries,
      or [None] when it carries no string to split.
    - A descriptive member (name, technique identifier, confidence, ...) is
      [undefined], [null], a string, a plain object or the empty array
      ([value]); a plain object has no [toString] member of its own.
    - An error is a format error, thrown by [detectFormat] with [new Error],
      or a type error, thrown by the engine; the text of a type error is
      fixed here, one text per cause.
    - The plain-object table [this.objects] is a [gmap string Obj] (property
      keys are strings, so an [undefined] key becomes the string
      [undefined]).  A name that the table lacks and [Object.prototype] has
      finds a member of the prototype, which has no [type] member and is
      skipped like a missing object; no object of a document is identified
      by [__proto__], whose assignment would replace the prototype of the
      table.
    - The table [this.tacticMap] is read with its inherited members: the
      tactic name of a node is a string or a member of [Object.prototype]
      ([TacticName]).
    - [Map] and [Set] are keyed by [option string] (a [Map] can hold the key
      [undefined]).
    - Nodes of the graph are mutable and shared between the [nodes] array and
      [nodeMap]; the store is the list of nodes and [nodeMap.get] yields a
      position in it.
    - A [Map] or [Set] whose keys are values of descriptive members is the
      list of its entries in insertion order; two keys are the same when they
      are the same string (objects and arrays are compared by reference, and
      no two members of a document share one).
    - Numbers are whole numbers ([nat], and [Z] where a difference can be
      negative); [NaN] is given separately where it can arise.
    - What a view writes to the page is left out; a view function is modelled
      up to the data it hands to the drawing code.
    - Strings are ASCII: [toUpperCase] and [toLowerCase] are the case
      conversions of ASCII letters.
    - Recursion that the source does not bound is modelled with fuel; the
      result [None] means that the recursion did not finish within the fuel
      (in JavaScript: until the call stack overflows).  A function that can
      throw returns a [result]. *)

From Stdlib Require Import String Ascii ZArith DecimalString.
From stdpp Require Import base option list gmap strings.

Set Warnings "-clear-no-such-hyp".

Open Scope string_scope.

(** ** JavaScript values of descriptive members *)

(** Values stored in the descriptive members (name, technique_id, ...):
    [undefined] (the member is absent), [null], a string, a plain object, or
    the empty array. *)
Inductive value : Type :=
  | VUndef
  | VNull
  | VText (s : string)
  | VObj (fields : list (string * string))
  | VEmptyArr.

(** Raw values of a builder property list: [[key, value]] pairs whose value
    is [null], a string, or a nested list of pairs. *)
Inductive PropVal : Type :=
  | PNull
  | PText (s : string)
  | PNested (items : list (string * string)).

Definition key := option string.

(** JavaScript truthiness. *)
Definition truthy (v : value) : bool :=
  match v with
  | VUndef => false
  | VNull => false
  | VText s => negb (String.eqb s "")
  | VObj _ => true
  | VEmptyArr => true
  end.

Definition truthy_key (k : key) : bool :=
  match k with
  | Some s => negb (String.eqb s "")
  | None => false
  end.

(** [a || b] on identifiers. *)
Definition key_or (a b : key) : key := if truthy_key a then a else b.

(** [a || b] on values. *)
Definition value_or (a b : value) : value := if truthy a then a else b.

(** Property-key coercion of [obj[k]] for an identifier that may be absent. *)
Definition prop_key (k : key) : string :=
  match k with
  | Some s => s
  | None => "undefined"
  end.

(** ** Errors *)

Inductive error : Type :=
  | FormatError (msg : string)
  | TypeError (msg : string).

Inductive result (A : Type) : Type :=
  | Ok (a : A)
  | Err (e : error).
Arguments Ok {A} a.
Arguments Err {A} e.

(** ** Objects of a document *)

(** A list of references ([effect_refs], [on_true_refs], [on_false_refs],
    [start_refs]): absent (or another falsy value), a truthy value that is
    no array, or an array of references. *)
Inductive RefList : Type :=
  | NoRefs
  | NotRefs
  | Refs (refs : list string).

(** The references of a list that holds some. *)
Definition refs_of (l : RefList) : list string :=
  match l with
  | Refs refs => refs
  | _ => []
  end.

Record Obj : Type := mkObj {
  o_type : key;
  o_id : key;
  o_instance : key;
  o_name : value;
  o_description : value;
  o_scope : value;
  o_created : value;
  o_modified : value;
  o_author : value;
  o_external_references : value;
  o_technique_id : value;
  o_technique_ref : value;
  o_tactic_id : value;
  o_tactic_ref : value;
  o_confidence : value;
  o_execution_start : value;
  o_execution_end : value;
  o_ttp : value;
  o_stix_type : value;
  o_kill_chain_phases : option (list (option string));
  o_effect_refs : RefList;
  o_on_true_refs : RefList;
  o_on_false_refs : RefList;
  o_start_refs : RefList;
  o_source_ref : key;
  o_target_ref : key;
  o_properties : option (list (string * PropVal));
  o_source : key;
  o_target : key
}.

(** The [objects] member of a document: absent (or another falsy value), a
    truthy value that is no array, or an array.  An element of the array is
    [null] ([None]) or an object; an element that is a number, a string, a
    boolean or an array has none of the members the parser reads, and is the
    object all of whose members are absent. *)
Inductive Objects : Type :=
  | NoObjects
  | NotArray
  | Array (elems : list (option Obj)).

(** The parsed JSON document handed to the constructor: [null], or a value
    with its [type], [schema] and [objects] members (a number, a string, a
    boolean or an array has none of them).  [schema] is read for its
    truthiness only. *)
Inductive RawData : Type :=
  | Null
  | Data (type schema : key) (objects : Objects).

Definition d_type (data : RawData) : key :=
  match data with
  | Null => None
  | Data type _ _ => type
  end.

Definition d_schema (data : RawData) : key :=
  match data with
  | Null => None
  | Data _ schema _ => schema
  end.

Definition d_objects (data : RawData) : Objects :=
  match data with
  | Null => NoObjects
  | Data _ _ objects => objects
  end.

(** The array whose elements are the objects [objs]. *)
Definition array (objs : list Obj) : Objects := Array (Some <$> objs).

Inductive Format : Type := AttackFlowFormat | AfbFormat.

#[global] Instance Format_eq_dec : EqDecision Format.
Proof. solve_decision. Defined.

(** ** The graph *)

(** What [tactic_name] holds: a string, or the value that
    [this.tacticMap[id]] finds on [Object.prototype] when [id] is the name
    [m] of one of its members (a function; the prototype itself for
    [__proto__]).  Two such values are the same exactly when the names
    are. *)
Inductive TacticName : Type :=
  | TName (s : string)
  | TMember (m : string).

#[global] Instance TacticName_eq_dec : EqDecision TacticName.
Proof. solve_decision. Defined.

#[global] Instance TacticName_countable : Countable TacticName.
Proof.
  apply (inj_countable'
           (λ t, match t with TName s => inl s | TMember m => inr m end)
           (λ x, match x with inl s => TName s | inr m => TMember m end)).
  by intros [].
Defined.

(** Truthiness of a tactic name: a function or an object is truthy. *)
Definition truthy_name (t : TacticName) : bool :=
  match t with
  | TName s => negb (String.eqb s "")
  | TMember _ => true
  end.

Record Node : Type := mkNode {
  n_id : key;
  n_type : string;
  n_technique_id : value;
  n_technique_ref : value;
  n_tactic_id : value;
  n_tactic_ref : value;
  n_tactic_name : TacticName;
  n_name : value;
  n_description : value;
  n_created : value;
  n_modified : value;
  n_confidence : value;
  n_execution_start : value;
  n_execution_end : value;
  n_ttp : value;
  n_sequence : nat;
  n_children : list key;
  n_stix_type : value;
  n_kill_chain_phases : option (list (option string))
}.

Record Edge : Type := mkEdge {
  e_source : key;
  e_target : key
}.

Record Graph : Type := mkGraph {
  g_nodes : list Node;
  g_edges : list Edge
}.

(** ** The tactic table *)

(** [this.tacticMap], in insertion order ([Object.entries] order). *)
Definition tacticMap : list (string * string) :=
  [ ("TA0043", "Reconnaissance");
    ("TA0042", "Resource Development");
    ("TA0001", "Initial Access");
    ("TA0002", "Execution");
    ("TA0003", "Persistence");
    ("TA0004", "Privilege Escalation");
    ("TA0005", "Defense Evasion");
    ("TA0006", "Credential Access");
    ("TA0007", "Discovery");
    ("TA0008", "Lateral Movement");
    ("TA0009", "Collection");
    ("TA0011", "Command and Control");
    ("TA0010", "Exfiltration");
    ("TA0040", "Impact");
    ("TA0027", "Initial Access");
    ("TA0041", "Execution");
    ("TA0028", "Persistence");
    ("TA0029", "Privilege Escalation");
    ("TA0030", "Defense Evasion");
    ("TA0031", "Credential Access");
    ("TA0032", "Discovery");
    ("TA0033", "Lateral Movement");
    ("TA0035", "Collection");
    ("TA0037", "Command and Control");
    ("TA0036", "Exfiltration");
    ("TA0034", "Impact");
    ("TA0108", "Initial Access");
    ("TA0104", "Execution");
    ("TA0110", "Persistence");
    ("TA0111", "Privilege Escalation");
    ("TA0103", "Evasion");
    ("TA0102", "Discovery");
    ("TA0109", "Lateral Movement");
    ("TA0100", "Collection");
    ("TA0101", "Command and Control");
    ("TA0107", "Inhibit Response Function");
    ("TA0106", "Impair Process Control");
    ("TA0105", "Impact") ].

Fixpoint assoc (k : string) (l : list (string * string)) : option string :=
  match l with
  | [] => None
  | (k', v) :: l' => if String.eqb k' k then Some v else assoc k l'
  end.

(** [String(v)]: the text a value converts to, as the name of a property
    and in a template literal. *)
Definition string_of_value (v : value) : string :=
  match v with
  | VUndef => "undefined"
  | VNull => "null"
  | VText s => s
  | VObj _ => "[object Object]"
  | VEmptyArr => ""
  end.

(** The names every plain object inherits from [Object.prototype]. *)
Definition inherited_names : list string :=
  [ "constructor"; "hasOwnProperty"; "isPrototypeOf"; "propertyIsEnumerable";
    "toLocaleString"; "toString"; "valueOf"; "__proto__";
    "__defineGetter__"; "__defineSetter__"; "__lookupGetter__";
    "__lookupSetter__" ].

Definition inherited (k : string) : bool := bool_decide (k ∈ inherited_names).

(** [this.tacticMap[v]]: the entry of the table under the name [v] converts
    to, or, for a name the table does not have, the member that the table
    inherits under that name. *)
Definition tacticMap_get (v : value) : option TacticName :=
  let k := string_of_value v in
  match assoc k tacticMap with
  | Some tname => Some (TName tname)
  | None => if inherited k then Some (TMember k) else None
  end.

(** ** String helpers *)

Definition upper_ascii (c : ascii) : ascii :=
  let n := nat_of_ascii c in
  if (97 <=? n)%nat && (n <=? 122)%nat then ascii_of_nat (n - 32) else c.

Definition lower_ascii (c : ascii) : ascii :=
  let n := nat_of_ascii c in
  if (65 <=? n)%nat && (n <=? 90)%nat then ascii_of_nat (n + 32) else c.

Fixpoint toLowerCase (s : string) : string :=
  match s with
  | EmptyString => EmptyString
  | String c s' => String (lower_ascii c) (toLowerCase s')
  end.

(** [s.split(c)] for a one-character separator. *)
Fixpoint split_on (c : ascii) (s : string) : list string :=
  match s with
  | EmptyString => [EmptyString]
  | String a s' =>
      if Ascii.eqb a c then EmptyString :: split_on c s'
      else match split_on c s' with
           | w :: ws => String a w :: ws
           | [] => [String a EmptyString]
           end
  end.

(** [w.charAt(0).toUpperCase() + w.slice(1)] *)
Definition capitalize (w : string) : string :=
  match w with
  | EmptyString => EmptyString
  | String c w' => String (upper_ascii c) w'
  end.

(** [l.join(sep)] *)
Fixpoint join (sep : string) (l : list string) : string :=
  match l with
  | [] => EmptyString
  | [w] => w
  | w :: l' => w ++ sep ++ join sep l'
  end.

(** [phaseName.split('-').map(capitalize).join(' ')] *)
Definition titleCase (phaseName : string) : string :=
  join " " (map capitalize (split_on "-"%char phaseName)).

(** The loop over [Object.entries(this.tacticMap)]: the first entry whose
    name matches case-insensitively. *)
Fixpoint find_tactic_id (name : string) (l : list (string * string))
  : option string :=
  match l with
  | [] => None
  | (tid, tname) :: l' =>
      if String.eqb (toLowerCase tname) (toLowerCase name) then Some tid
      else find_tactic_id name l'
  end.

(** ** detectFormat *)

Definition has_type (t : string) (o : Obj) : bool :=
  bool_decide (o_type o = Some t).

Definition has_tag (t : string) (o : Obj) : bool :=
  bool_decide (o_id o = Some t).

Definition msg_not_attack_flow : string :=
  "STIX bundle does not contain Attack Flow objects (attack-flow or attack-action). Please use an Attack Flow file.".

Definition msg_unknown_format : string :=
  "Unknown format: Expected Attack Flow STIX bundle or AFB format".

Definition msg_null_member : string :=
  "Cannot read properties of null".

Definition msg_some : string := "data.objects.some is not a function".

Definition msg_forEach : string :=
  "this.rawData.objects.forEach is not a function".

Definition msg_find : string :=
  "this.rawData.objects.find is not a function".

(** Truthiness of [data.objects]. *)
Definition truthy_objects (objects : Objects) : bool :=
  match objects with
  | NoObjects => false
  | NotArray | Array _ => true
  end.

(** [elems.some(obj => obj.type === t)]: the elements are read up to the
    first one of type [t]; reading the type of [null] throws. *)
Fixpoint some_has_type (t : string) (elems : list (option Obj)) : result bool :=
  match elems with
  | [] => Ok false
  | None :: _ => Err (TypeError msg_null_member)
  | Some obj :: elems' =>
      if has_type t obj then Ok true else some_has_type t elems'
  end.

Definition detectFormat (data : RawData) : result Format :=
  match data with
  | Null => Err (TypeError msg_null_member)
  | Data type schema objects =>
      if bool_decide (type = Some "bundle") && truthy_objects objects then
        match objects with
        | Array elems =>
            match some_has_type "attack-flow" elems with
            | Ok hasAttackFlow =>
                match some_has_type "attack-action" elems with
                | Ok hasAttackAction =>
                    if hasAttackFlow || hasAttackAction then Ok AttackFlowFormat
                    else Err (FormatError msg_not_attack_flow)
                | Err e => Err e
                end
            | Err e => Err e
            end
        | _ => Err (TypeError msg_some)
        end
      else if truthy_key schema && truthy_objects objects then Ok AfbFormat
      else Err (FormatError msg_unknown_format)
  end.

(** ** getProperty *)

(** [obj[k] = v] on a plain object kept as a list of members in insertion
    order. *)
Fixpoint obj_set (k v : string) (l : list (string * string))
  : list (string * string) :=
  match l with
  | [] => [(k, v)]
  | (k', v') :: l' =>
      if String.eqb k' k then (k, v) :: l' else (k', v') :: obj_set k v l'
  end.

Fixpoint find_prop (k : string) (l : list (string * PropVal))
  : option PropVal :=
  match l with
  | [] => None
  | (k', v) :: l' => if String.eqb k' k then Some v else find_prop k l'
  end.

(** [obj[nestedProp[0]] = nestedProp[1]] for a string [nestedProp[1]]:
    the assignment of a string to [__proto__] stores nothing. *)
Definition nested_set (obj : list (string * string))
    (nestedProp : string * string) : list (string * string) :=
  if String.eqb (fst nestedProp) "__proto__" then obj
  else obj_set (fst nestedProp) (snd nestedProp) obj.

Definition getProperty (properties : option (list (string * PropVal)))
    (k : string) : value :=
  match properties with
  | None => VNull
  | Some props =>
      match find_prop k props with
      | None => VNull
      | Some PNull => VNull
      | Some (PText s) => VText s
      | Some (PNested []) => VEmptyArr
      | Some (PNested items) => VObj (fold_left nested_set items [])
      end
  end.

(** ** The parser state *)

Record Parser : Type := mkParser {
  format : Format;
  objects : gmap string Obj;
  attackFlow : option Obj;
  actions : list Obj;
  relationships : list Obj;
  assets : list Obj;
  conditions : list Obj;
  operators : list Obj;
  graph : Graph
}.

(** The state set up by the constructor before [parse()] runs. *)
Definition init_parser (f : Format) : Parser :=
  mkParser f ∅ None [] [] [] [] [] (mkGraph [] []).

Definition set_object (k : key) (o : Obj) (p : Parser) : Parser :=
  mkParser (format p) (<[prop_key k := o]> (objects p)) (attackFlow p)
           (actions p) (relationships p) (assets p) (conditions p)
           (operators p) (graph p).

Definition set_attackFlow (o : Obj) (p : Parser) : Parser :=
  mkParser (format p) (objects p) (Some o) (actions p) (relationships p)
           (assets p) (conditions p) (operators p) (graph p).

Definition push_action (o : Obj) (p : Parser) : Parser :=
  mkParser (format p) (objects p) (attackFlow p) (actions p ++ [o])
           (relationships p) (assets p) (conditions p) (operators p)
           (graph p).

Definition push_relationship (o : Obj) (p : Parser) : Parser :=
  mkParser (format p) (objects p) (attackFlow p) (actions p)
           (relationships p ++ [o]) (assets p) (conditions p) (operators p)
           (graph p).

Definition push_asset (o : Obj) (p : Parser) : Parser :=
  mkParser (format p) (objects p) (attackFlow p) (actions p)
           (relationships p) (assets p ++ [o]) (conditions p) (operators p)
           (graph p).

Definition push_condition (o : Obj) (p : Parser) : Parser :=
  mkParser (format p) (objects p) (attackFlow p) (actions p)
           (relationships p) (assets p) (conditions p ++ [o]) (operators p)
           (graph p).

Definition push_operator (o : Obj) (p : Parser) : Parser :=
  mkParser (format p) (objects p) (attackFlow p) (actions p)
           (relationships p) (assets p) (conditions p) (operators p ++ [o])
           (graph p).

Definition set_graph (g : Graph) (p : Parser) : Parser :=
  mkParser (format p) (objects p) (attackFlow p) (actions p)
           (relationships p) (assets p) (conditions p) (operators p) g.

(** ** parseAttackFlow *)

(** The objects of an array none of whose elements is [null]. *)
Fixpoint all_objects (elems : list (option Obj)) : option (list Obj) :=
  match elems with
  | [] => Some []
  | None :: _ => None
  | Some obj :: elems' =>
      match all_objects elems' with
      | Some objs => Some (obj :: objs)
      | None => None
      end
  end.

(** Body of the [forEach] that indexes and buckets the objects of a bundle. *)
Definition parseAttackFlow_step (p : Parser) (obj : Obj) : Parser :=
  let p := set_object (o_id obj) obj p in
  if has_type "attack-flow" obj then set_attackFlow obj p
  else if has_type "attack-action" obj then push_action obj p
  else if has_type "relationship" obj then push_relationship obj p
  else if has_type "attack-asset" obj then push_asset obj p
  else if has_type "attack-condition" obj then push_condition obj p
  else if has_type "attack-operator" obj then push_operator obj p
  else p.

(** The [forEach] that indexes and buckets, over the objects of a bundle. *)
Definition parseAttackFlow_pass (objs : list Obj) (p : Parser) : Parser :=
  fold_left parseAttackFlow_step objs p.

(** [parseAttackFlow]: the [forEach] that counts the types reads the type of
    every element, and throws at a [null]; the indexing [forEach] follows. *)
Definition parseAttackFlow (objects : Objects) (p : Parser) : result Parser :=
  match objects with
  | Array elems =>
      match all_objects elems with
      | Some objs => Ok (parseAttackFlow_pass objs p)
      | None => Err (TypeError msg_null_member)
      end
  | _ => Err (TypeError msg_forEach)
  end.

(** ** parseAFB *)

Definition afb_flow (flowObj : Obj) : Obj :=
  let props := o_properties flowObj in
  mkObj None None None
        (getProperty props "name")
        (getProperty props "description")
        (getProperty props "scope")
        (getProperty props "created")
        (getProperty props "modified")
        (getProperty props "author")
        (value_or (getProperty props "external_references") VEmptyArr)
        VUndef VUndef VUndef VUndef VUndef VUndef VUndef VUndef VUndef
        None NoRefs NoRefs NoRefs NoRefs None None None None None.

Definition afb_action (obj : Obj) : Obj :=
  let props := o_properties obj in
  mkObj (Some "attack-action") (o_instance obj) (o_instance obj)
        (getProperty props "name")
        (getProperty props "description")
        VUndef VUndef VUndef VUndef VUndef
        (getProperty props "technique_id")
        (getProperty props "technique_ref")
        (getProperty props "tactic_id")
        (getProperty props "tactic_ref")
        (getProperty props "confidence")
        (getProperty props "execution_start")
        (getProperty props "execution_end")
        (getProperty props "ttp")
        VUndef
        None NoRefs NoRefs NoRefs NoRefs None None None None None.

Definition afb_asset (obj : Obj) : Obj :=
  let props := o_properties obj in
  mkObj (Some "attack-asset") (o_instance obj) None
        (getProperty props "name")
        (getProperty props "description")
        VUndef VUndef VUndef VUndef VUndef
        VUndef VUndef VUndef VUndef VUndef VUndef VUndef VUndef VUndef
        None NoRefs NoRefs NoRefs NoRefs None None None None None.

Definition afb_relationship (obj : Obj) : Obj :=
  mkObj (o_id obj) None None
        VUndef VUndef VUndef VUndef VUndef VUndef VUndef
        VUndef VUndef VUndef VUndef VUndef VUndef VUndef VUndef VUndef
        None NoRefs NoRefs NoRefs NoRefs None None None
        (o_source obj) (o_target obj).

(** First pass: actions and assets. *)
Definition parseAFB_objects_step (p : Parser) (obj : Obj) : Parser :=
  if has_tag "action" obj then
    set_object (o_instance obj) (afb_action obj) (push_action (afb_action obj) p)
  else if has_tag "asset" obj then
    set_object (o_instance obj) (afb_asset obj) (push_asset (afb_asset obj) p)
  else p.

(** Second pass: connectors. *)
Definition parseAFB_lines_step (p : Parser) (obj : Obj) : Parser :=
  if has_tag "dynamic_line" obj || has_tag "line" obj then
    if truthy_key (o_source obj) && truthy_key (o_target obj) then
      push_relationship (afb_relationship obj) p
    else p
  else p.

(** The search for the flow object and the two passes, over the objects of
    a builder document. *)
Definition parseAFB_passes (objs : list Obj) (p : Parser) : Parser :=
  let p := match find (has_tag "flow") objs with
           | Some flowObj => set_attackFlow (afb_flow flowObj) p
           | None => p
           end in
  let p := fold_left parseAFB_objects_step objs p in
  fold_left parseAFB_lines_step objs p.

(** [parseAFB]: [find] is a method of arrays only; [find] reads the tag of
    the elements up to the flow object and the first pass reads the tag of
    every element, so that a [null] element makes one of them throw. *)
Definition parseAFB (objects : Objects) (p : Parser) : result Parser :=
  match objects with
  | Array elems =>
      match all_objects elems with
      | Some objs => Ok (parseAFB_passes objs p)
      | None => Err (TypeError msg_null_member)
      end
  | _ => Err (TypeError msg_find)
  end.

(** ** buildGraph *)

Definition msg_no_phase_name : string :=
  "Cannot read properties of undefined (reading 'split')".

(** Tactic name and identifier of a node, as computed at the head of the
    [forEach] of [buildGraph].  An entry of [kill_chain_phases] is the phase
    name it carries, or [None] when it carries no name to split ([null], or
    an entry without [phase_name]). *)
Definition resolve_tactic (action : Obj) : result (TacticName * value) :=
  let tacticName :=
    default (TName "Unknown") (tacticMap_get (o_tactic_id action)) in
  let tacticId := o_tactic_id action in
  match o_kill_chain_phases action with
  | Some (Some phaseName :: _) =>
      let tacticName := titleCase phaseName in
      Ok (TName tacticName,
          match find_tactic_id tacticName tacticMap with
          | Some tid => VText tid
          | None => tacticId
          end)
  | Some (None :: _) => Err (TypeError msg_no_phase_name)
  | _ => Ok (tacticName, tacticId)
  end.

(** [const node = { ... }] *)
Definition node_of (index : nat) (action : Obj) (tactic : TacticName * value)
  : Node :=
  mkNode (key_or (o_id action) (o_instance action))
         "attack-action"
         (o_technique_id action)
         (o_technique_ref action)
         (snd tactic)
         (o_tactic_ref action)
         (fst tactic)
         (o_name action)
         (o_description action)
         (o_created action)
         (o_modified action)
         (value_or (o_confidence action) (VText "certain"))
         (o_execution_start action)
         (o_execution_end action)
         (o_ttp action)
         index
         []
         (o_stix_type action)
         (o_kill_chain_phases action).

(** Body of the [forEach] over the actions. *)
Definition make_node (index : nat) (action : Obj) : result Node :=
  match resolve_tactic action with
  | Ok tactic => Ok (node_of index action tactic)
  | Err e => Err e
  end.

(** The [forEach] over the actions, from the position [index]: the nodes it
    pushes, unless a body throws. *)
Fixpoint make_nodes (index : nat) (actions : list Obj) : result (list Node) :=
  match actions with
  | [] => Ok []
  | action :: actions' =>
      match make_node index action with
      | Ok node =>
          match make_nodes (S index) actions' with
          | Ok nodes => Ok (node :: nodes)
          | Err e => Err e
          end
      | Err e => Err e
      end
  end.

(** [nodeMap.get(k)]: the position, in the node store, of the node that
    [nodeMap] holds for [k] (the last node inserted under that identifier). *)
Fixpoint nodeMap_index (k : key) (nodes : list Node) : option nat :=
  match nodes with
  | [] => None
  | n :: ns =>
      match nodeMap_index k ns with
      | Some i => Some (S i)
      | None => if bool_decide (n_id n = k) then Some 0 else None
      end
  end.

Definition nodeMap_get (k : key) (nodes : list Node) : option Node :=
  nodeMap_index k nodes ≫= λ i, nodes !! i.

(** [if (!n.children.includes(t)) n.children.push(t)] *)
Definition add_child (t : key) (n : Node) : Node :=
  mkNode (n_id n) (n_type n) (n_technique_id n) (n_technique_ref n)
         (n_tactic_id n) (n_tactic_ref n) (n_tactic_name n) (n_name n)
         (n_description n) (n_created n) (n_modified n) (n_confidence n)
         (n_execution_start n) (n_execution_end n) (n_ttp n) (n_sequence n)
         (if bool_decide (t ∈ n_children n) then n_children n
          else n_children n ++ [t])
         (n_stix_type n) (n_kill_chain_phases n).

(** Push the edge [(s, t)] and record [child] in the children of the node
    stored at position [i]. *)
Definition connect (i : nat) (s t child : key) (g : Graph) : Graph :=
  mkGraph (alter (add_child child) i (g_nodes g))
          (g_edges g ++ [mkEdge s t]).

(** The [attack-action] branch of [followEffectChain]. *)
Definition link_effect (sourceId targetId : key) (g : Graph) : Graph :=
  match nodeMap_index sourceId (g_nodes g),
        nodeMap_index targetId (g_nodes g) with
  | Some i, Some _ => connect i sourceId targetId targetId g
  | _, _ => g
  end.

(** Body of the [forEach] over relationships, for the two references of a
    relationship record. *)
Definition link_relationship (sourceRef targetRef : key) (g : Graph) : Graph :=
  match nodeMap_index sourceRef (g_nodes g),
        nodeMap_index targetRef (g_nodes g) with
  | Some i, Some j =>
      match g_nodes g !! i, g_nodes g !! j with
      | Some source, Some target =>
          connect i (n_id source) (n_id target) (n_id target) g
      | _, _ => g
      end
  | _, _ => g
  end.

(** [l.forEach(f)] for a body that may fail to return. *)
Fixpoint forEachM {A S : Type} (f : A → S → option S) (l : list A) (s : S)
  : option S :=
  match l with
  | [] => Some s
  | a :: l' =>
      match f a s with
      | Some s' => forEachM f l' s'
      | None => None
      end
  end.

(** [l.forEach(f)] for a body that may throw or fail to return. *)
Fixpoint forEachE {A S : Type} (f : A → S → option (result S)) (l : list A)
    (s : S) : option (result S) :=
  match l with
  | [] => Some (Ok s)
  | a :: l' =>
      match f a s with
      | Some (Ok s') => forEachE f l' s'
      | Some (Err e) => Some (Err e)
      | None => None
      end
  end.

Definition msg_refs_forEach : string := "forEach is not a function".

(** [if (refs) refs.forEach(f)]: [forEach] is a method of arrays only. *)
Definition forEachRefs {S : Type} (f : string → S → option (result S))
    (refs : RefList) (s : S) : option (result S) :=
  match refs with
  | NoRefs => Some (Ok s)
  | NotRefs => Some (Err (TypeError msg_refs_forEach))
  | Refs l => forEachE f l s
  end.

(** ** followEffectChain *)

(** [None] when the recursion does not finish within [fuel], [Some (Err e)]
    when it throws [e]. *)
Fixpoint followEffectChain (fuel : nat) (objs : gmap string Obj)
    (sourceId : key) (effectNode : Obj) (g : Graph) : option (result Graph) :=
  match fuel with
  | O => None
  | S fuel' =>
      let follow (ref : string) (g : Graph) : option (result Graph) :=
        match objs !! ref with
        | Some nextNode => followEffectChain fuel' objs sourceId nextNode g
        | None => Some (Ok g)
        end in
      if has_type "attack-condition" effectNode then
        match forEachRefs follow (o_on_true_refs effectNode) g with
        | Some (Ok g') => forEachRefs follow (o_on_false_refs effectNode) g'
        | Some (Err e) => Some (Err e)
        | None => None
        end
      else if has_type "attack-operator" effectNode then
        forEachRefs follow (o_effect_refs effectNode) g
      else if has_type "attack-action" effectNode then
        Some (Ok (link_effect sourceId (o_id effectNode) g))
      else Some (Ok g)
  end.

(** ** buildAttackFlowEdges and buildAFBEdges *)

Definition follow_effect_ref (fuel : nat) (objs : gmap string Obj)
    (sourceId : key) (effectRef : string) (g : Graph) : option (result Graph) :=
  match objs !! effectRef with
  | Some effectNode => followEffectChain fuel objs sourceId effectNode g
  | None => Some (Ok g)
  end.

Definition buildAttackFlowEdges (fuel : nat) (p : Parser) (g : Graph)
  : option (result Graph) :=
  match forEachE (λ action g,
                    forEachRefs
                      (follow_effect_ref fuel (objects p) (o_id action))
                      (o_effect_refs action) g)
                 (actions p) g with
  | Some (Ok g') =>
      Some (Ok (fold_left (λ g rel,
                             link_relationship (o_source_ref rel)
                                               (o_target_ref rel) g)
                          (relationships p) g'))
  | Some (Err e) => Some (Err e)
  | None => None
  end.

Definition buildAFBEdges (p : Parser) (g : Graph) : Graph :=
  fold_left (λ g rel, link_relationship (o_source rel) (o_target rel) g)
            (relationships p) g.

(** [buildGraph]: [None] when edge resolution does not finish within
    [fuel], [Some (Err e)] when the [forEach] over the actions or edge
    resolution throws [e]. *)
Definition buildGraph (fuel : nat) (p : Parser) : option (result Parser) :=
  match make_nodes 0 (actions p) with
  | Ok nodes =>
      let g := mkGraph nodes [] in
      match format p with
      | AttackFlowFormat =>
          match buildAttackFlowEdges fuel p g with
          | Some (Ok g') => Some (Ok (set_graph g' p))
          | Some (Err e) => Some (Err e)
          | None => None
          end
      | AfbFormat => Some (Ok (set_graph (buildAFBEdges p g) p))
      end
  | Err e => Some (Err e)
  end.

(** ** The constructor *)

(** The extraction pass that [parse()] selects by the format, run on the
    state the constructor has set up. *)
Definition extract (f : Format) (objects : Objects) : result Parser :=
  match f with
  | AttackFlowFormat => parseAttackFlow objects (init_parser f)
  | AfbFormat => parseAFB objects (init_parser f)
  end.

(** [new AttackFlowParser(data)]: [None] when edge resolution does not
    finish within [fuel], [Some (Err e)] when the constructor throws [e],
    [Some (Ok p)] when it returns the parser [p]. *)
Definition parse (fuel : nat) (data : RawData) : option (result Parser) :=
  match detectFormat data with
  | Err e => Some (Err e)
  | Ok f =>
      match extract f (d_objects data) with
      | Ok p => buildGraph fuel p
      | Err e => Some (Err e)
      end
  end.

(** ** getActionSequence *)

Record VisitState : Type := mkVisit {
  visited : gset key;
  sequence : list (option Node)
}.

(** The local closure [visit] of [getActionSequence]; [nodes] is the array
    from which its [nodeMap] is built. *)
Fixpoint visit (fuel : nat) (nodes : list Node) (nodeId : key)
    (st : VisitState) : option VisitState :=
  match fuel with
  | O => None
  | S fuel' =>
      if bool_decide (nodeId ∈ visited st) then Some st
      else
        let st1 := mkVisit ({[nodeId]} ∪ visited st) (sequence st) in
        let node := nodeMap_get nodeId nodes in
        let st2 := match node with
                   | Some n => forEachM (visit fuel' nodes) (n_children n) st1
                   | None => Some st1
                   end in
        match st2 with
        | Some st2 => Some (mkVisit (visited st2) (node :: sequence st2))
        | None => None
        end
  end.

(** The traversal from the declared start references. *)
Definition visit_start_refs (fuel : nat) (p : Parser) (st : VisitState)
  : option (result VisitState) :=
  match attackFlow p with
  | Some flow =>
      forEachRefs
        (λ startRef st,
           match objects p !! startRef with
           | Some startNode =>
               if has_type "attack-action" startNode
               then Ok <$> visit fuel (g_nodes (graph p)) (Some startRef) st
               else Some (Ok st)
           | None => Some (Ok st)
           end)
        (o_start_refs flow) st
  | None => Some (Ok st)
  end.

(** The traversal from the nodes without incoming edge. *)
Definition visit_roots (fuel : nat) (p : Parser) (st : VisitState)
  : option VisitState :=
  if bool_decide (format p = AfbFormat) || (length (sequence st) =? 0)%nat then
    let nodesWithIncoming : gset key :=
      list_to_set (e_target <$> g_edges (graph p)) in
    let startNodes :=
      filter (λ n, n_id n ∉ nodesWithIncoming) (g_nodes (graph p)) in
    forEachM (λ node st, visit fuel (g_nodes (graph p)) (n_id node) st)
             startNodes st
  else Some st.

(** The traversal from every node not visited yet. *)
Definition visit_remaining (fuel : nat) (p : Parser) (st : VisitState)
  : option VisitState :=
  forEachM (λ node st,
              if bool_decide (n_id node ∈ visited st) then Some st
              else visit fuel (g_nodes (graph p)) (n_id node) st)
           (g_nodes (graph p)) st.

(** The three traversals, chained, from the empty [visited] set and the
    empty [sequence]. *)
Definition visit_all (fuel : nat) (p : Parser) : option (result VisitState) :=
  match visit_start_refs fuel p (mkVisit ∅ []) with
  | Some (Ok st1) =>
      match visit_roots fuel p st1 with
      | Some st2 => Ok <$> visit_remaining fuel p st2
      | None => None
      end
  | Some (Err e) => Some (Err e)
  | None => None
  end.

(** [sequence.filter(n => n !== undefined)] after the traversals: [None]
    when they do not finish within [fuel], [Some (Err e)] when the loop over
    the start references throws [e]. *)
Definition getActionSequence (fuel : nat) (p : Parser)
  : option (result (list Node)) :=
  match visit_all fuel p with
  | Some (Ok st) => Some (Ok (omap id (sequence st)))
  | Some (Err e) => Some (Err e)
  | None => None
  end.

(** ** getTactics and inferTactic *)

Definition inferTactic_table : list (string * string) :=
  [ ("0", "Initial Access");
    ("1", "Execution");
    ("2", "Persistence");
    ("3", "Privilege Escalation");
    ("4", "Defense Evasion");
    ("5", "Credential Access");
    ("6", "Discovery");
    ("7", "Lateral Movement");
    ("8", "Collection");
    ("9", "Exfiltration") ].

Definition inferTactic (techniqueId : value) : result string :=
  if negb (truthy techniqueId) then Ok "Unknown"
  else match techniqueId with
       | VText s =>
           let firstChar := String.substring 1 1 s in
           Ok (default "Unknown" (assoc firstChar inferTactic_table))
       | _ => Err (TypeError "techniqueId.charAt is not a function")
       end.

(** [tactics.get(k).push(n)], after [tactics.set(k, [])] when [k] is new;
    the [Map] is kept as the list of its entries in insertion order. *)
Fixpoint tactics_push {K : Type} `{EqDecision K} (k : K) (n : Node)
    (m : list (K * list Node)) : list (K * list Node) :=
  match m with
  | [] => [(k, [n])]
  | (k', l) :: m' =>
      if bool_decide (k' = k) then (k', (l ++ [n])%list) :: m'
      else (k', l) :: tactics_push k n m'
  end.

(** [node.tactic_name || this.inferTactic(node.technique_id)] *)
Definition tactic_key (node : Node) : result TacticName :=
  if truthy_name (n_tactic_name node) then Ok (n_tactic_name node)
  else match inferTactic (n_technique_id node) with
       | Ok tactic => Ok (TName tactic)
       | Err e => Err e
       end.

Definition getTactics_step (m : list (TacticName * list Node)) (node : Node)
  : result (list (TacticName * list Node)) :=
  if truthy (n_technique_id node) then
    match tactic_key node with
    | Ok tacticName => Ok (tactics_push tacticName node m)
    | Err e => Err e
    end
  else Ok m.

Fixpoint getTactics_loop (nodes : list Node)
    (m : list (TacticName * list Node))
  : result (list (TacticName * list Node)) :=
  match nodes with
  | [] => Ok m
  | node :: nodes' =>
      match getTactics_step m node with
      | Ok m' => getTactics_loop nodes' m'
      | Err e => Err e
      end
  end.

Definition getTactics (p : Parser) : result (list (TacticName * list Node)) :=
  getTactics_loop (g_nodes (graph p)) [].

(** [tactics.get(k)] *)
Fixpoint tactics_get {K : Type} `{EqDecision K} (k : K)
    (m : list (K * list Node)) : option (list Node) :=
  match m with
  | [] => None
  | (k', l) :: m' => if bool_decide (k' = k) then Some l else tactics_get k m'
  end.

(** ** getFlowMetadata *)

Record FlowMetadata : Type := mkFlowMetadata {
  m_name : value;
  m_description : value;
  m_scope : value;
  m_created : value;
  m_modified : value;
  m_author : value;
  m_externalReferences : value;
  m_format : Format;
  m_actionCount : nat;
  m_relationshipCount : nat
}.

Definition getFlowMetadata (p : Parser) : option FlowMetadata :=
  match attackFlow p with
  | None => None
  | Some flow =>
      Some (mkFlowMetadata (o_name flow) (o_description flow) (o_scope flow)
              (o_created flow) (o_modified flow) (o_author flow)
              (value_or (o_external_references flow) VEmptyArr)
              (format p) (length (actions p)) (length (relationships p)))
  end.

(** ** Sample documents *)

Definition stix_action (id : string) (effect_refs : RefList) : Obj :=
  mkObj (Some "attack-action") (Some id) None
        VUndef VUndef VUndef VUndef VUndef VUndef VUndef
        VUndef VUndef VUndef VUndef VUndef VUndef VUndef VUndef VUndef
        None effect_refs NoRefs NoRefs NoRefs None None None None None.

Definition stix_condition (id : string)
    (on_true_refs on_false_refs : RefList) : Obj :=
  mkObj (Some "attack-condition") (Some id) None
        VUndef VUndef VUndef VUndef VUndef VUndef VUndef
        VUndef VUndef VUndef VUndef VUndef VUndef VUndef VUndef VUndef
        None NoRefs on_true_refs on_false_refs NoRefs None None None None None.

Definition stix_flow (id : string) (start_refs : RefList) : Obj :=
  mkObj (Some "attack-flow") (Some id) None
        (VText "flow") VUndef VUndef VUndef VUndef VUndef VUndef
        VUndef VUndef VUndef VUndef VUndef VUndef VUndef VUndef VUndef
        None NoRefs NoRefs NoRefs start_refs None None None None None.

Definition bundle (objs : list Obj) : RawData :=
  Data (Some "bundle") None (array objs).

(** S --c--> {A (true branch), B (false branch)} *)
Definition branch_doc : RawData :=
  bundle [ stix_flow "f" (Refs ["s"]);
           stix_action "s" (Refs ["c"]);
           stix_condition "c" (Refs ["a"]) (Refs ["b"]);
           stix_action "a" NoRefs;
           stix_action "b" NoRefs ].


(** A --> B --> A *)
Definition loop_doc : RawData :=
  bundle [ stix_action "a" (Refs ["b"]);
           stix_action "b" (Refs ["a"]) ].

Open Scope nat_scope.
Open Scope list_scope.

(** ** Vocabulary: the graph during edge resolution *)

(** A node with its list of children emptied: what [buildGraph] stored
    before edge resolution. *)
Definition strip (n : Node) : Node :=
  mkNode (n_id n) (n_type n) (n_technique_id n) (n_technique_ref n)
         (n_tactic_id n) (n_tactic_ref n) (n_tactic_name n) (n_name n)
         (n_description n) (n_created n) (n_modified n) (n_confidence n)
         (n_execution_start n) (n_execution_end n) (n_ttp n) (n_sequence n)
         [] (n_stix_type n) (n_kill_chain_phases n).

Definition node_ids (g : Graph) : list key := n_id <$> g_nodes g.

(** The tactic of the node of an action, [Unknown] standing in when the
    kill-chain phase of the action makes [buildGraph] throw. *)
Definition tactic_or_unknown (action : Obj) : TacticName * value :=
  match resolve_tactic action with
  | Ok tactic => tactic
  | Err _ => (TName "Unknown", o_tactic_id action)
  end.

(** The node that [buildGraph] pushes for the action at position [index],
    when it pushes one. *)
Definition built_node (index : nat) (action : Obj) : Node :=
  node_of index action (tactic_or_unknown action).

(** The two extraction passes, on the objects of a document. *)
Definition extract_pass (f : Format) (objs : list Obj) : Parser :=
  match f with
  | AttackFlowFormat => parseAttackFlow_pass objs (init_parser f)
  | AfbFormat => parseAFB_passes objs (init_parser f)
  end.

(** Every edge joins two identifiers of the node collection. *)
Definition edges_ok (g : Graph) : Prop :=
  ∀ e, e ∈ g_edges g → e_source e ∈ node_ids g ∧ e_target e ∈ node_ids g.

(** [g'] has the nodes of [g] up to their children, and the edges of [g]
    followed by new ones. *)
Definition grows (g g' : Graph) : Prop :=
  strip <$> g_nodes g' = strip <$> g_nodes g ∧
  ∃ es, g_edges g' = g_edges g ++ es.

Definition step_ok (g g' : Graph) : Prop :=
  grows g g' ∧ (edges_ok g → edges_ok g').

Definition node_key (action : Obj) : key :=
  key_or (o_id action) (o_instance action).

(** ** Vocabulary: documents *)

Definition is_type (t : string) (o : Obj) : Prop := o_type o = Some t.
Definition is_tag (t : string) (o : Obj) : Prop := o_id o = Some t.

#[global] Instance is_type_dec t o : Decision (is_type t o).
Proof. unfold is_type. apply _. Defined.
#[global] Instance is_tag_dec t o : Decision (is_tag t o).
Proof. unfold is_tag. apply _. Defined.

(** A builder connector that carries both of its references. *)
Definition is_line (o : Obj) : Prop :=
  (is_tag "dynamic_line" o ∨ is_tag "line" o) ∧
  truthy_key (o_source o) = true ∧ truthy_key (o_target o) = true.

#[global] Instance is_line_dec o : Decision (is_line o).
Proof. unfold is_line. apply _. Defined.

(** The two shapes the detector accepts at the top level. *)
Definition bundle_shape (d : RawData) : Prop :=
  d_type d = Some "bundle" ∧ ∃ objs, d_objects d = array objs.

Definition builder_shape (d : RawData) : Prop :=
  truthy_key (d_schema d) = true ∧ ∃ objs, d_objects d = array objs.

(** No object of the list is typed [attack-flow] or [attack-action]. *)
Definition no_flow_marker (d : RawData) : Prop :=
  ∀ objs o, d_objects d = array objs → o ∈ objs →
            ¬ is_type "attack-flow" o ∧ ¬ is_type "attack-action" o.

Definition rejected (d : RawData) : Prop :=
  (¬ bundle_shape d ∧ ¬ builder_shape d) ∨ (bundle_shape d ∧ no_flow_marker d).

(** The inputs on which the error is a format error: a value other than
    [null] that has neither the bundle type nor a schema next to a truthy
    [objects] member, and a bundle whose [objects] member is an array of
    objects none of which is typed [attack-flow] or [attack-action]. *)
Definition format_rejected (d : RawData) : Prop :=
  d ≠ Null ∧
  (((d_type d ≠ Some "bundle" ∨ truthy_objects (d_objects d) = false) ∧
    (truthy_key (d_schema d) = false ∨ truthy_objects (d_objects d) = false)) ∨
   (bundle_shape d ∧ no_flow_marker d)).

(** Inputs that have neither accepted shape and on which the constructor
    throws no format error: a bundle whose [objects] member is no array, a
    bundle with a [null] element, and a document with a schema whose
    [objects] member is no array. *)
Definition bundle_without_array : RawData := Data (Some "bundle") None NotArray.

Definition bundle_with_null : RawData :=
  Data (Some "bundle") None (Array [None]).

Definition builder_without_array : RawData :=
  Data None (Some "attack_flow_v2") NotArray.

(** The document-level object of each format, and the objects from which
    action and relationship records are extracted. *)
Definition flow_level (f : Format) (o : Obj) : Prop :=
  match f with
  | AttackFlowFormat => is_type "attack-flow" o
  | AfbFormat => is_tag "flow" o
  end.

Definition action_level (f : Format) (o : Obj) : Prop :=
  match f with
  | AttackFlowFormat => is_type "attack-action" o
  | AfbFormat => is_tag "action" o
  end.

Definition relationship_level (f : Format) (o : Obj) : Prop :=
  match f with
  | AttackFlowFormat => is_type "relationship" o
  | AfbFormat => is_line o
  end.

#[global] Instance flow_level_dec f o : Decision (flow_level f o).
Proof. destruct f; apply _. Defined.
#[global] Instance action_level_dec f o : Decision (action_level f o).
Proof. destruct f; apply _. Defined.
#[global] Instance relationship_level_dec f o :
  Decision (relationship_level f o).
Proof. destruct f; apply _. Defined.

(** The first kill-chain phase of an action, when there is one, carries a
    name. *)
Definition phase_named (a : Obj) : Prop :=
  match o_kill_chain_phases a with
  | Some (None :: _) => False
  | _ => True
  end.

#[global] Instance phase_named_dec a : Decision (phase_named a).
Proof.
  unfold phase_named.
  destruct (o_kill_chain_phases a) as [[|[phase|] phases]|]; apply _.
Defined.

Definition phases_named (objs : list Obj) : Prop :=
  Forall (λ a, is_type "attack-action" a → phase_named a) objs.

#[global] Instance phases_named_dec objs : Decision (phases_named objs).
Proof. unfold phases_named. apply _. Defined.

#[global] Instance RefList_eq_dec : EqDecision RefList.
Proof. solve_decision. Defined.

(** One of the reference lists that edge resolution reads in an object is a
    value other than an array. *)
Definition refs_not_array (o : Obj) : Prop :=
  o_effect_refs o = NotRefs ∨ o_on_true_refs o = NotRefs ∨
  o_on_false_refs o = NotRefs.

#[global] Instance refs_not_array_dec o : Decision (refs_not_array o).
Proof. unfold refs_not_array. apply _. Defined.

(** The reference lists of the objects are arrays where they are present. *)
Definition refs_are_arrays (objs : list Obj) : Prop :=
  Forall (λ o, ¬ refs_not_array o) objs.

#[global] Instance refs_are_arrays_dec objs : Decision (refs_are_arrays objs).
Proof. unfold refs_are_arrays. apply _. Defined.

(** Every [attack-action] object carries a non-empty identifier, and no two
    of them share one. *)
Definition valid_stix_actions (objs : list Obj) : Prop :=
  (∀ o, o ∈ objs → is_type "attack-action" o → truthy_key (o_id o) = true) ∧
  NoDup (o_id <$> filter (is_type "attack-action") objs).

(** The objects of a STIX document carry pairwise distinct, non-empty
    identifiers. *)
Definition wf_ids (objs : list Obj) : Prop :=
  (∀ o, o ∈ objs → truthy_key (o_id o) = true) ∧ NoDup (o_id <$> objs).

Definition is_connector (o : Obj) : Prop :=
  is_tag "dynamic_line" o ∨ is_tag "line" o.

(** The identifiers of the action records of a builder document. *)
Definition action_ids (objs : list Obj) : list key :=
  o_instance <$> filter (is_tag "action") objs.

(** A connector whose two ends are identifiers of action records. *)
Definition resolved_connector (objs : list Obj) (o : Obj) : Prop :=
  is_connector o ∧ o_source o ∈ action_ids objs ∧ o_target o ∈ action_ids objs.

#[global] Instance resolved_connector_dec objs o :
  Decision (resolved_connector objs o).
Proof. unfold resolved_connector, is_connector. apply _. Defined.





(** ** Vocabulary: queries *)

#[global] Instance error_eq_dec : EqDecision error.
Proof. solve_decision. Defined.

#[global] Instance result_eq_dec {A} `{EqDecision A} : EqDecision (result A).
Proof. solve_decision. Defined.

(** The nodes on which the body of the loop of [getTactics] returns: a node
    without technique identifier, a node with a tactic name that is not
    empty, and a node whose technique identifier is a string. *)
Definition groupable (n : Node) : Prop :=
  truthy (n_technique_id n) = false ∨ truthy_name (n_tactic_name n) = true ∨
  match n_technique_id n with
  | VText _ => True
  | _ => False
  end.

#[global] Instance groupable_dec n : Decision (groupable n).
Proof. unfold groupable. destruct (n_technique_id n); apply _. Defined.

(** The nodes [getTactics] stores under the name [k]. *)
Definition grouped_under (k : TacticName) (n : Node) : Prop :=
  truthy (n_technique_id n) = true ∧ tactic_key n = Ok k.

#[global] Instance grouped_under_dec k n : Decision (grouped_under k n).
Proof. unfold grouped_under. apply _. Defined.

(** The flow object declares its start references in a value that is no
    array. *)
Definition starts_not_array (p : Parser) : Prop :=
  ∃ flow, attackFlow p = Some flow ∧ o_start_refs flow = NotRefs.

(** Every identifier [visit] can be called on: start references, node
    identifiers and children. *)
Definition sequence_universe (p : Parser) : gset key :=
  list_to_set
    ((Some <$> from_option (λ flow, refs_of (o_start_refs flow)) []
                             (attackFlow p))
     ++ (n_id <$> g_nodes (graph p))
     ++ (g_nodes (graph p) ≫= n_children)).

(** Fuel that lets [getActionSequence] return. *)
Definition sequence_fuel (p : Parser) : nat := S (size (sequence_universe p)).

(** A finished run of [visit] marks the identifiers of [L], none of which
    was marked, and puts their nodes in front of the sequence. *)
Definition visit_post (nodes : list Node) (st st' : VisitState) : Prop :=
  ∃ L : list key,
    NoDup L ∧ (∀ k, k ∈ L → k ∉ visited st) ∧
    visited st' = visited st ∪ list_to_set L ∧
    sequence st' = ((λ k, nodeMap_get k nodes) <$> L) ++ sequence st.

(** ** Further sample documents *)

Definition built (fuel : nat) (d : RawData) : Parser :=
  match parse fuel d with
  | Some (Ok p) => p
  | _ => init_parser AttackFlowFormat
  end.

Definition branch_objs : list Obj :=
  [ stix_flow "f" (Refs ["s"]);
    stix_action "s" (Refs ["c"]);
    stix_condition "c" (Refs ["a"]) (Refs ["b"]);
    stix_action "a" NoRefs;
    stix_action "b" NoRefs ].


Definition stix_action_full (id : string) (technique_id tactic_id : value)
    (kill_chain_phases : option (list (option string)))
    (effect_refs : RefList) : Obj :=
  mkObj (Some "attack-action") (Some id) None
        VUndef VUndef VUndef VUndef VUndef VUndef VUndef
        technique_id VUndef tactic_id VUndef VUndef VUndef VUndef VUndef VUndef
        kill_chain_phases effect_refs NoRefs NoRefs NoRefs None None None None
        None.

(** An action with the known tactic identifier TA0001 and a kill-chain
    phase that names another tactic. *)
Definition conflicting_action : Obj :=
  stix_action_full "x" (VText "T1190") (VText "TA0001")
                   (Some [Some "execution"]) NoRefs.

(** An action with a known tactic and no technique identifier. *)
Definition untyped_doc : RawData :=
  bundle [ stix_action_full "x" VUndef (VText "TA0002") None NoRefs ].

Definition afb_obj (tag : string) (instance : key)
    (properties : option (list (string * PropVal))) (source target : key)
  : Obj :=
  mkObj None (Some tag) instance
        VUndef VUndef VUndef VUndef VUndef VUndef VUndef
        VUndef VUndef VUndef VUndef VUndef VUndef VUndef VUndef VUndef
        None NoRefs NoRefs NoRefs NoRefs None None properties source target.

(** A builder document: a flow, two actions, a connector between them and a
    connector whose target is unknown. *)
Definition afb_objs : list Obj :=
  [ afb_obj "flow" (Some "f1")
      (Some [("name", PText "demo");
             ("author", PNested [("name", "ann"); ("name", "bob")])])
      None None;
    afb_obj "action" (Some "a1")
      (Some [("name", PText "phish"); ("technique_id", PText "T1566");
             ("tactic_id", PText "TA0001")])
      None None;
    afb_obj "action" (Some "a2")
      (Some [("name", PText "run"); ("technique_id", PText "T1059");
             ("tactic_id", PText "TA0002")])
      None None;
    afb_obj "dynamic_line" (Some "l1") None (Some "a1") (Some "a2");
    afb_obj "line" (Some "l2") None (Some "a1") (Some "zz") ].

Definition afb_doc : RawData :=
  Data None (Some "attack_flow_v2") (array afb_objs).

(** The three-action flow A -> B -> C of the specification, with kill-chain
    phases and no tactic identifier. *)
Definition chain_objs : list Obj :=
  [ stix_flow "f" (Refs ["A"]);
    stix_action_full "A" (VText "T1190") VUndef
                     (Some [Some "initial-access"]) (Refs ["B"]);
    stix_action_full "B" (VText "T1059") VUndef (Some [Some "execution"])
                     (Refs ["C"]);
    stix_action_full "C" (VText "T1486") VUndef (Some [Some "impact"])
                     NoRefs ].

Definition chain_doc : RawData := bundle chain_objs.


(** An action whose first kill-chain phase carries no name. *)
Definition nameless_phase_doc : RawData :=
  bundle [ stix_action_full "x" (VText "T1190") VUndef (Some [None]) NoRefs ].

(** An action whose technique identifier is an empty array and whose
    kill-chain phase has the empty name. *)
Definition unnamed_doc : RawData :=
  bundle [ stix_action_full "x" VEmptyArr VUndef (Some [Some ""]) NoRefs ].

(** A flow object whose start references are a string, and an action. *)
Definition unlisted_starts_doc : RawData :=
  bundle [ stix_flow "f" NotRefs; stix_action "a" NoRefs ].

(** An action whose effect references are a string. *)
Definition unlisted_effects_doc : RawData :=
  bundle [ stix_action "a" NotRefs ].

(** Two actions that share their identifier. *)
Definition shared_id_doc : RawData :=
  bundle [ stix_action "a" NoRefs; stix_action "a" NoRefs ].

(** A condition both of whose branches lead to the same action. *)
Definition diamond_doc : RawData :=
  bundle [ stix_action "s" (Refs ["c"]);
           stix_condition "c" (Refs ["a"]) (Refs ["a"]);
           stix_action "a" NoRefs ].

Definition sequence_ids (fuel : nat) (p : Parser) : option (list key) :=
  match getActionSequence fuel p with
  | Some (Ok out) => Some (n_id <$> out)
  | _ => None
  end.

Definition tactics_of (p : Parser) : list (TacticName * list Node) :=
  match getTactics p with
  | Ok m => m
  | Err _ => []
  end.

(** ** Tactics for membership in a literal list *)

Ltac in_list :=
  repeat first [apply list_elem_of_here | apply list_elem_of_further].

Ltac elem_cases H :=
  repeat (apply elem_of_cons in H as [->|H]); [..|by apply elem_of_nil in H].

(** * Statistics and views *)

(** ** getTechniqueCounts *)

(** Key equality of [Map] and [Set], and [===], on the values of descriptive
    members: strings are compared by content, objects and arrays by
    reference, and no two members of a document share a reference. *)
Definition same_value (a b : value) : bool :=
  match a, b with
  | VUndef, VUndef => true
  | VNull, VNull => true
  | VText s, VText t => String.eqb s t
  | _, _ => false
  end.

(** [counts.get(k)] on a [Map] kept as the list of its entries in insertion
    order. *)
Fixpoint counts_get (k : value) (m : list (value * nat)) : option nat :=
  match m with
  | [] => None
  | (k', c) :: m' => if same_value k' k then Some c else counts_get k m'
  end.

(** [counts.set(k, c)] *)
Fixpoint counts_set (k : value) (c : nat) (m : list (value * nat))
  : list (value * nat) :=
  match m with
  | [] => [(k, c)]
  | (k', c') :: m' =>
      if same_value k' k then (k', c) :: m' else (k', c') :: counts_set k c m'
  end.

Definition getTechniqueCounts_step (counts : list (value * nat)) (node : Node)
  : list (value * nat) :=
  if truthy (n_technique_id node) then
    let current := default 0 (counts_get (n_technique_id node) counts) in
    counts_set (n_technique_id node) (current + 1) counts
  else counts.

Definition getTechniqueCounts (p : Parser) : list (value * nat) :=
  fold_left getTechniqueCounts_step (g_nodes (graph p)) [].

(** The nodes that carry the technique identifier [s]. *)
Definition has_technique (s : string) (n : Node) : Prop :=
  n_technique_id n = VText s.

#[global] Instance value_eq_dec : EqDecision value.
Proof. solve_decision. Defined.

#[global] Instance has_technique_dec s n : Decision (has_technique s n).
Proof. unfold has_technique. apply _. Defined.

(** The nodes with a truthy technique identifier. *)
Definition with_technique (n : Node) : Prop :=
  truthy (n_technique_id n) = true.

#[global] Instance with_technique_dec n : Decision (with_technique n).
Proof. unfold with_technique. apply _. Defined.

Definition counts_total (m : list (value * nat)) : nat :=
  foldr (λ kc acc, snd kc + acc) 0 m.

(** ** getDetailedStats *)

(** [techniques.add(v)] on a [Set] kept as the list of its members in
    insertion order. *)
Definition techniques_add (v : value) (l : list value) : list value :=
  if existsb (λ x, same_value x v) l then l else l ++ [v].

(** What a member of [confidenceLevels] holds: a number, or the string that
    adding 1 to an inherited function (or to such a string) gives. *)
Inductive Count : Type :=
  | Num (n : nat)
  | Str.

(** [confidenceLevels[k] = (confidenceLevels[k] || 0) + 1]; the assignment to
    [__proto__] of a string is ignored. *)
Definition confidence_count (k : string) (m : gmap string Count)
  : gmap string Count :=
  let next :=
    match m !! k with
    | Some (Num c) => Num (c + 1)
    | Some Str => Str
    | None => if inherited k then Str else Num 1
    end in
  if String.eqb k "__proto__" then m else <[k := next]> m.

Record StatsLoop : Type := mkStatsLoop {
  techniques : list value;
  tactics : gset TacticName;
  levels : gmap string Count
}.

Definition getDetailedStats_step (st : StatsLoop) (node : Node) : StatsLoop :=
  let st1 :=
    if truthy (n_technique_id node)
    then mkStatsLoop (techniques_add (n_technique_id node) (techniques st))
                     (tactics st) (levels st)
    else st in
  let st2 :=
    if truthy_name (n_tactic_name node)
    then mkStatsLoop (techniques st1) ({[ n_tactic_name node ]} ∪ tactics st1)
                     (levels st1)
    else st1 in
  if truthy (n_confidence node)
  then mkStatsLoop (techniques st2) (tactics st2)
                   (confidence_count (string_of_value (n_confidence node))
                                     (levels st2))
  else st2.

Record DetailedStats : Type := mkDetailedStats {
  totalActions : nat;
  uniqueTechniques : nat;
  uniqueTactics : nat;
  confidenceLevels : gmap string Count;
  hasTimestamps : bool;
  s_format : Format
}.

Definition getDetailedStats (p : Parser) : DetailedStats :=
  let st := fold_left getDetailedStats_step (g_nodes (graph p))
                      (mkStatsLoop [] ∅ ∅) in
  mkDetailedStats
    (length (actions p))
    (length (techniques st))
    (size (tactics st))
    (levels st)
    (existsb (λ n, truthy (value_or (n_execution_start n) (n_created n)))
             (g_nodes (graph p)))
    (format p).


(** The nodes whose technique identifier is an object or an array. *)
Definition technique_by_reference (n : Node) : Prop :=
  match n_technique_id n with
  | VObj _ | VEmptyArr => True
  | _ => False
  end.

#[global] Instance technique_by_reference_dec n :
  Decision (technique_by_reference n).
Proof. unfold technique_by_reference. destruct (n_technique_id n); apply _. Defined.


Definition techniques_step (l : list value) (n : Node) : list value :=
  if truthy (n_technique_id n) then techniques_add (n_technique_id n) l else l.


(** The nodes with a truthy confidence. *)
Definition with_confidence (n : Node) : Prop :=
  truthy (n_confidence n) = true.

#[global] Instance with_confidence_dec n : Decision (with_confidence n).
Proof. unfold with_confidence. apply _. Defined.

(** The nodes counted under the member [k] of [confidenceLevels]. *)
Definition has_confidence (k : string) (n : Node) : Prop :=
  with_confidence n ∧ string_of_value (n_confidence n) = k.

#[global] Instance has_confidence_dec k n : Decision (has_confidence k n).
Proof. unfold has_confidence. apply _. Defined.

(** No confidence value names a member of [Object.prototype]. *)
Definition plain_confidence (nodes : list Node) : Prop :=
  Forall (λ n, inherited (string_of_value (n_confidence n)) = false) nodes.

#[global] Instance plain_confidence_dec nodes : Decision (plain_confidence nodes).
Proof. unfold plain_confidence. apply _. Defined.





(** ** Vocabulary: children and edges *)

(** The children lists agree with the edge list: a list of children has no
    repetition and each child is the target of an edge from its node; each
    edge's target is a child of the node that [nodeMap] holds for the edge's
    source. *)
Definition children_ok (g : Graph) : Prop :=
  (∀ n, n ∈ g_nodes g →
        NoDup (n_children n) ∧
        ∀ c, c ∈ n_children n →
             c ∈ node_ids g ∧ mkEdge (n_id n) c ∈ g_edges g) ∧
  (∀ e, e ∈ g_edges g →
        ∃ n, nodeMap_get (e_source e) (g_nodes g) = Some n ∧
             e_target e ∈ n_children n).

(** ** groupByTimestamp *)

(** [if (!groups.has(k)) groups.set(k, []); groups.get(k).push(a)] on a
    [Map] kept as the list of its entries in insertion order. *)
Fixpoint groups_push (k : value) (a : Node) (m : list (value * list Node))
  : list (value * list Node) :=
  match m with
  | [] => [(k, [a])]
  | (k', l) :: m' =>
      if same_value k' k then (k', l ++ [a]) :: m'
      else (k', l) :: groups_push k a m'
  end.

(** The [Map] that [groupByTimestamp] fills. *)
Definition timestamp_groups (actions : list Node) : list (value * list Node) :=
  fold_left (λ groups action,
               groups_push (n_execution_start action) action groups)
            actions [].

Definition groupByTimestamp (actions : list Node) : list (list Node) :=
  snd <$> timestamp_groups actions.

(** [groups.get(k)] *)
Fixpoint groups_get (k : value) (m : list (value * list Node))
  : option (list Node) :=
  match m with
  | [] => None
  | (k', l) :: m' => if same_value k' k then Some l else groups_get k m'
  end.

(** A timestamp that is [undefined], [null] or a string. *)
Definition by_content (v : value) : Prop :=
  match v with
  | VUndef | VNull | VText _ => True
  | _ => False
  end.

#[global] Instance by_content_dec v : Decision (by_content v).
Proof. destruct v; apply _. Defined.

(** The actions that carry the timestamp [k]. *)
Definition started_at (k : value) (a : Node) : Prop := n_execution_start a = k.

#[global] Instance started_at_dec k a : Decision (started_at k a).
Proof. unfold started_at. apply _. Defined.

(** ** calculateNonLinearSpacing *)

(** [baseSpacing + (cardsInBranch > 1 ? (cardsInBranch - 1) * additionalPerCard : 0)] *)
Definition spaceNeeded (cardsInBranch : nat) : nat :=
  220 + (if 1 <? cardsInBranch then (cardsInBranch - 1) * 30 else 0).

Arguments spaceNeeded : simpl never.

(** The loop of [calculateNonLinearSpacing]; the state is [positions] and
    [currentX]. *)
Definition spacing_step (st : list nat * nat) (group : list Node)
  : list nat * nat :=
  (fst st ++ [snd st], snd st + spaceNeeded (length group)).

(** [margin_left] is [this.margin.left]. *)
Definition calculateNonLinearSpacing (margin_left : nat)
    (timeGroups : list (list Node)) : list nat :=
  fst (fold_left spacing_step timeGroups ([], margin_left + 100)).

(** ** calculateDuration *)

(** A number printed by a template literal. *)
Definition string_of_Z (z : Z) : string := NilZero.string_of_int (Z.to_int z).

(** [`${n} ${unit}${n > 1 ? 's' : ''}`] *)
Definition duration_text (n : Z) (unit : string) : string :=
  string_of_Z n ++ " " ++ unit ++ (if (1 <? n)%Z then "s" else "").

(** [calculateDuration] from [diffMs = end - start], the difference of two
    time values: a whole number of milliseconds, or [None] for [NaN], when
    one of the dates does not parse. *)
Definition calculateDuration (diffMs : option Z) : string :=
  match diffMs with
  | None => "NaN second"
  | Some diffMs =>
      let diffSec := (diffMs / 1000)%Z in
      let diffMin := (diffSec / 60)%Z in
      let diffHrs := (diffMin / 60)%Z in
      let diffDays := (diffHrs / 24)%Z in
      if (0 <? diffDays)%Z then duration_text diffDays "day"
      else if (0 <? diffHrs)%Z then duration_text diffHrs "hour"
      else if (0 <? diffMin)%Z then duration_text diffMin "minute"
      else duration_text diffSec "second"
  end.

(** ** Vocabulary: timestamp groups *)

(** The keys of the [Map] are strings, [undefined] or [null], each held
    once. *)
Definition groups_wf (m : list (value * list Node)) : Prop :=
  Forall by_content (fst <$> m) ∧ NoDup (fst <$> m).

(** ** prepareTreemapData *)

Record TreemapLeaf : Type := mkLeaf {
  l_name : value;
  l_fullName : value;
  l_description : value;
  l_tactic : TacticName;
  l_value : nat
}.

Record TreemapGroup : Type := mkGroup {
  tg_name : TacticName;
  tg_children : list TreemapLeaf
}.

Record TreemapData : Type := mkTreemap {
  t_name : string;
  t_children : list TreemapGroup
}.

(** The leaf pushed for [node]; [counts.get(node.technique_id) || 1] is its
    value. *)
Definition treemap_leaf (counts : list (value * nat)) (tactic : TacticName)
    (node : Node) : TreemapLeaf :=
  let count := default 0 (counts_get (n_technique_id node) counts) in
  mkLeaf (n_technique_id node) (n_name node) (n_description node) tactic
         (if count =? 0 then 1 else count).

Definition prepareTreemapData_step (counts : list (value * nat))
    (children : list TreemapGroup) (entry : TacticName * list Node)
  : list TreemapGroup :=
  let tacticGroup :=
    mkGroup (fst entry) (treemap_leaf counts (fst entry) <$> snd entry) in
  if 0 <? length (tg_children tacticGroup) then children ++ [tacticGroup]
  else children.

Definition prepareTreemapData (tactics : list (TacticName * list Node))
    (counts : list (value * nat)) : TreemapData :=
  mkTreemap "Attack Flow"
            (fold_left (prepareTreemapData_step counts) tactics []).

(** The leaves of the treemap, group after group. *)
Definition treemap_leaves (data : TreemapData) : list TreemapLeaf :=
  concat (tg_children <$> t_children data).

(** ** groupTechniquesByTactic *)

(** [t => t.technique_id === node.technique_id] *)
Definition same_technique (node t : Node) : bool :=
  same_value (n_technique_id t) (n_technique_id node).

(** The body of the loop of [groupTechniquesByTactic] once the tactic is
    known: create the group when it is missing, and push the node unless
    the group holds its technique already. *)
Fixpoint matrix_push (k : string) (n : Node) (m : list (string * list Node))
  : list (string * list Node) :=
  match m with
  | [] => [(k, [n])]
  | (k', l) :: m' =>
      if String.eqb k' k
      then (k', if existsb (same_technique n) l then l else l ++ [n]) :: m'
      else (k', l) :: matrix_push k n m'
  end.

Definition groupTechniquesByTactic_step (m : list (string * list Node))
    (node : Node) : result (list (string * list Node)) :=
  if truthy (n_technique_id node) then
    match inferTactic (n_technique_id node) with
    | Ok tactic => Ok (matrix_push tactic node m)
    | Err e => Err e
    end
  else Ok m.

Fixpoint groupTechniquesByTactic_loop (nodes : list Node)
    (m : list (string * list Node)) : result (list (string * list Node)) :=
  match nodes with
  | [] => Ok m
  | node :: nodes' =>
      match groupTechniquesByTactic_step m node with
      | Ok m' => groupTechniquesByTactic_loop nodes' m'
      | Err e => Err e
      end
  end.

(** [parser] is [this.parser], [None] before the first [render]. *)
Definition groupTechniquesByTactic (parser : option Parser)
  : result (list (string * list Node)) :=
  match parser with
  | None => Ok []
  | Some p => groupTechniquesByTactic_loop (g_nodes (graph p)) []
  end.

(** The technique identifiers the matrix shows, column after column. *)
Definition matrix_techniques (grouped : list (string * list Node))
  : list value :=
  n_technique_id <$> concat (snd <$> grouped).

(** A node filed under the tactic [k]: it carries a technique string from
    which [inferTactic] gives [k]. *)
Definition filed_under (nodes : list Node) (k : string) (n : Node) : Prop :=
  n ∈ nodes ∧ truthy (n_technique_id n) = true ∧
  (∃ s, n_technique_id n = VText s) ∧ inferTactic (n_technique_id n) = Ok k.

Definition matrix_wf (nodes : list Node) (m : list (string * list Node))
  : Prop :=
  NoDup (fst <$> m) ∧
  Forall (λ e, snd e ≠ [] ∧ Forall (filed_under nodes (fst e)) (snd e)) m.

(** ** Vocabulary: the sequence of an acyclic graph *)

(** The identifiers of the nodes that a sequence holds. *)
Definition finished (l : list (option Node)) : gset key :=
  list_to_set (n_id <$> omap id l).

(** In the sequence, every node comes before the nodes of its children. *)
Definition children_follow (nodes : list Node) (l : list (option Node))
  : Prop :=
  ∀ l1 n l2, l = l1 ++ Some n :: l2 →
             ∀ c, c ∈ n_children n → c ∈ (n_id <$> nodes) → c ∈ finished l2.

(** Every marked node identifier is on the stack of running calls [G] or
    has its node in the sequence. *)
Definition marked_ok (nodes : list Node) (G : gset key) (st : VisitState)
  : Prop :=
  ∀ k, k ∈ visited st → k ∈ (n_id <$> nodes) →
       k ∈ G ∨ k ∈ finished (sequence st).

Definition topo_ok (nodes : list Node) (G : gset key) (st : VisitState)
  : Prop :=
  marked_ok nodes G st ∧ children_follow nodes (sequence st).

(** What a finished run of [visit] keeps, under the stack [G]. *)
Definition topo_step (nodes : list Node) (G : gset key) (st st' : VisitState)
  : Prop :=
  (∃ new, sequence st' = new ++ sequence st) ∧
  (topo_ok nodes G st → topo_ok nodes G st').

(** The rank of an identifier decreases from every node to its children
    that are nodes: no path along children comes back to its start. *)
Definition children_ranked (rank : key → nat) (nodes : list Node) : Prop :=
  Forall (λ n, Forall (λ c, c ∈ (n_id <$> nodes) → rank c < rank (n_id n))
                      (n_children n))
         nodes.

#[global] Instance children_ranked_dec rank nodes :
  Decision (children_ranked rank nodes).
Proof. unfold children_ranked. apply _. Defined.

(** ** Vocabulary: phase names *)




(** ** Sample inputs *)

(** A builder document with three timed actions; the first and the third
    start together and use the same technique. *)
Definition timed_objs : list Obj :=
  [ afb_obj "action" (Some "a1")
      (Some [("name", PText "scan"); ("technique_id", PText "T1595");
             ("execution_start", PText "2024-01-01T00:00:00Z")])
      None None;
    afb_obj "action" (Some "a2")
      (Some [("name", PText "exploit"); ("technique_id", PText "T1190");
             ("execution_start", PText "2024-01-01T00:05:00Z")])
      None None;
    afb_obj "action" (Some "a3")
      (Some [("name", PText "scan again"); ("technique_id", PText "T1595");
             ("execution_start", PText "2024-01-01T00:00:00Z")])
      None None ].

Definition timed_doc : RawData :=
  Data None (Some "attack_flow_v2") (array timed_objs).

Definition timed_nodes : list Node := g_nodes (graph (built 0 timed_doc)).

(** A rank for the flow A -> B -> C. *)
Definition chain_rank (k : key) : nat :=
  if bool_decide (k = Some "A") then 2
  else if bool_decide (k = Some "B") then 1
  else 0.

Definition matrix_of (p : Parser) : list (string * list Node) :=
  match groupTechniquesByTactic (Some p) with
  | Ok m => m
  | Err _ => []
  end.

(** A builder document whose action names a member of [Object.prototype]
    as its tactic. *)
Definition inherited_doc : RawData :=
  Data None (Some "attack_flow_v2")
    (array [ afb_obj "action" (Some "a1")
               (Some [("technique_id", PText "T1566");
                      ("tactic_id", PText "constructor")])
               None None ]).

(** A node without tactic and technique, with the start [start]. *)
Definition untimed_node (index : nat) (start : value) : Node :=
  mkNode (Some "n") "attack-action" VUndef VUndef VUndef VUndef
         (TName "Unknown") VUndef VUndef VUndef VUndef (VText "certain")
         start VUndef VUndef index [] VUndef None.

(** An action whose kill-chain phase spells [Command and Control]. *)
Definition c2_action : Obj :=
  stix_action_full "x" (VText "T1071") VUndef
                   (Some [Some "command-and-control"]) NoRefs.

(** ** render of the timeline *)

(** The outcome of [render]: one of the two messages, or the timeline of
    the actions that have a start, with the [missing] and [total] counts of
    the warning when one is shown. *)
Inductive TimelineView : Type :=
  | NoActions
  | NoTimeline (totalActions : nat)
  | Timeline (warning : option (nat * nat)) (actionsWithTime : list Node).

(** The actions with a truthy [execution_start]. *)
Definition timed (n : Node) : Prop := truthy (n_execution_start n) = true.

#[global] Instance timed_dec n : Decision (timed n).
Proof. unfold timed. apply _. Defined.

(** [render], from the sequence that [getActionSequence] returned. *)
Definition timeline_render (sequence : list Node) : TimelineView :=
  if length sequence =? 0 then NoActions
  else
    let actionsWithTime := filter timed sequence in
    if length actionsWithTime =? 0 then NoTimeline (length sequence)
    else
      Timeline
        (if length actionsWithTime <? length sequence
         then Some (length sequence - length actionsWithTime, length sequence)
         else None)
        actionsWithTime.

(** ** exportCSV *)

Definition quote_char : ascii := "034"%char.

Definition newline : string := String "010"%char EmptyString.

Definition csv_header : string :=
  ("Tactic,Technique ID,Technique Name,Description" ++ newline)%string.

(** The [map] over the row: the cell between two quote characters. *)
Definition csv_cell (cell : string) : string :=
  String quote_char (cell ++ String quote_char EmptyString)%string.

(** The [replace] of the description: every quote character is doubled. *)
Fixpoint replace_quotes (s : string) : string :=
  match s with
  | EmptyString => EmptyString
  | String c s' =>
      if Ascii.eqb c quote_char
      then String quote_char (String quote_char (replace_quotes s'))
      else String c (replace_quotes s')
  end.

(** The text of a tactic name in a template literal.  How a function
    prints is left to the engine: [native m] is the text of the function
    that [Object.prototype] holds under the name [m]. *)
Definition name_text (native : string → string) (t : TacticName) : string :=
  match t with
  | TName s => s
  | TMember m =>
      if String.eqb m "__proto__" then "[object Object]" else native m
  end.

(** The line that [exportCSV] appends for a node of the group [tactic];
    [replace] is a method of strings only. *)
Definition exportCSV_row (native : string → string) (tactic : TacticName)
    (node : Node) : result string :=
  match value_or (n_description node) (VText "") with
  | VText d =>
      let row :=
        [ name_text native tactic;
          string_of_value (value_or (n_technique_id node) (VText ""));
          string_of_value (value_or (n_name node) (VText ""));
          replace_quotes d ] in
      Ok (join "," (map csv_cell row) ++ newline)%string
  | _ => Err (TypeError "(node.description || '').replace is not a function")
  end.

Fixpoint exportCSV_rows (native : string → string) (tactic : TacticName)
    (techniques : list Node) (csv : string) : result string :=
  match techniques with
  | [] => Ok csv
  | node :: techniques' =>
      match exportCSV_row native tactic node with
      | Ok line => exportCSV_rows native tactic techniques' (csv ++ line)%string
      | Err e => Err e
      end
  end.

Fixpoint exportCSV_groups (native : string → string)
    (tactics : list (TacticName * list Node)) (csv : string) : result string :=
  match tactics with
  | [] => Ok csv
  | (tactic, techniques) :: tactics' =>
      match exportCSV_rows native tactic techniques csv with
      | Ok csv' => exportCSV_groups native tactics' csv'
      | Err e => Err e
      end
  end.

(** [parser] is [this.parser], [None] before the first [render]. *)
Definition exportCSV (native : string → string) (parser : option Parser)
  : result string :=
  match parser with
  | None => Ok ""
  | Some p =>
      match getTactics p with
      | Ok tactics => exportCSV_groups native tactics csv_header
      | Err e => Err e
      end
  end.

(** Reading a quoted field of a CSV line from behind its opening quote: two
    quotes stand for one, a single quote ends the field.  The result is the
    field and the rest of the line. *)
Fixpoint unquote_field (s : string) : option (string * string) :=
  match s with
  | EmptyString => None
  | String c s' =>
      if Ascii.eqb c quote_char then
        match s' with
        | String c' s'' =>
            if Ascii.eqb c' quote_char
            then match unquote_field s'' with
                 | Some (field, rest) => Some (String quote_char field, rest)
                 | None => None
                 end
            else Some (EmptyString, s')
        | EmptyString => Some (EmptyString, EmptyString)
        end
      else match unquote_field s' with
           | Some (field, rest) => Some (String c field, rest)
           | None => None
           end
  end.

(** A reader of a line of quoted fields: a field stands between two quote
    characters, a comma follows every field but the last, and a line break
    follows the last one. *)
Fixpoint read_fields (fuel : nat) (s : string) : option (list string) :=
  match fuel, s with
  | S fuel', String q s' =>
      if Ascii.eqb q quote_char then
        match unquote_field s' with
        | Some (field, String c rest) =>
            if Ascii.eqb c ","%char then cons field <$> read_fields fuel' rest
            else if String.eqb (String c rest) newline then Some [field]
            else None
        | _ => None
        end
      else None
  | _, _ => None
  end.

Definition read_row (line : string) : option (list string) :=
  read_fields (String.length line) line.

(** A text without quote character. *)
Fixpoint quote_free (s : string) : bool :=
  match s with
  | EmptyString => true
  | String c s' => negb (Ascii.eqb c quote_char) && quote_free s'
  end.

(** The first three cells of the row of a node: the tactic, the technique
    identifier and the name. *)
Definition row_head (native : string → string) (tactic : TacticName)
    (node : Node) : list string :=
  [ name_text native tactic;
    string_of_value (value_or (n_technique_id node) (VText ""));
    string_of_value (value_or (n_name node) (VText "")) ].

(** The rows of the table: every node of every group, with the name of its
    group. *)
Definition table_rows (tactics : list (TacticName * list Node))
  : list (TacticName * Node) :=
  tactics ≫= λ e, (λ n, (fst e, n)) <$> snd e.

(** A builder document whose action has a description with a quote
    character in it. *)
Definition quoted_doc : RawData :=
  Data None (Some "attack_flow_v2")
    (array [ afb_obj "action" (Some "a1")
               (Some [("name", PText "phish");
                      ("technique_id", PText "T1566");
                      ("tactic_id", PText "TA0001");
                      ("description",
                       PText ("say " ++ String quote_char "hi")%string)])
               None None ]).

Definition csv_of (p : Parser) : string :=
  match exportCSV (λ _, "") (Some p) with
  | Ok csv => csv
  | Err _ => ""
  end.

(** A builder document whose action has a quote character in its name. *)
Definition quoted_name_doc : RawData :=
  Data None (Some "attack_flow_v2")
    (array [ afb_obj "action" (Some "a1")
               (Some [("name", PText ("a" ++ String quote_char ",")%string);
                      ("technique_id", PText "T1566");
                      ("tactic_id", PText "TA0001");
                      ("description", PText "d")])
               None None ]).

(** ** createMatrix *)






(** * Properties *)

(** ** Generic facts about [forEachM] *)

Section ForEach.
Context {A S : Type}.
Variable R : S → S → Prop.
Hypothesis R_refl : ∀ s, R s s.
Hypothesis R_trans : ∀ s1 s2 s3, R s1 s2 → R s2 s3 → R s1 s3.

(** A relation kept by every run of the body is kept by the loop. *)
Lemma forEachM_rel (f : A → S → option S) (l : list A) :
  (∀ a s s', a ∈ l → f a s = Some s' → R s s') →
  ∀ s s', forEachM f l s = Some s' → R s s'.
Proof.
  induction l as [|a l IH]; intros Hf s s' Hrun; simpl in Hrun.
  - injection Hrun as <-. apply R_refl.
  - destruct (f a s) as [s1|] eqn:Ha; [|discriminate].
    apply R_trans with s1.
    + apply (Hf a); [left|done].
    + apply IH; [|done]. intros b t t' Hb. apply Hf. by right.
Qed.

(** The run of the body on a given element, inside a loop that returned. *)
Lemma forEachM_elem (f : A → S → option S) (l : list A) (x : A) :
  (∀ a s s', a ∈ l → f a s = Some s' → R s s') →
  x ∈ l →
  ∀ s s', forEachM f l s = Some s' →
  ∃ s1 s2, R s s1 ∧ f x s1 = Some s2 ∧ R s2 s'.
Proof.
  induction l as [|a l IH]; intros Hf Hx s s' Hrun.
  - by apply elem_of_nil in Hx.
  - simpl in Hrun. destruct (f a s) as [t|] eqn:Ha; [|discriminate].
    apply elem_of_cons in Hx as [->|Hx].
    + exists s, t. split; [apply R_refl|]. split; [done|].
      apply (forEachM_rel f l); [|done].
      intros b u u' Hb. apply Hf. by right.
    + destruct (IH (λ b u u' Hb, Hf b u u' (list_elem_of_further _ _ _ Hb))
                   Hx t s' Hrun) as (s1 & s2 & H1 & H2 & H3).
      exists s1, s2. split; [|done].
      apply R_trans with t; [|done]. apply (Hf a); [left|done].
Qed.
End ForEach.

(** A loop whose body always returns, returns. *)
Lemma forEachM_total {A S : Type} (P : S → Prop) (f : A → S → option S)
    (l : list A) :
  (∀ a s, a ∈ l → P s → ∃ s', f a s = Some s' ∧ P s') →
  ∀ s, P s → ∃ s', forEachM f l s = Some s' ∧ P s'.
Proof.
  induction l as [|a l IH]; intros Hf s Hs; simpl.
  - by exists s.
  - destruct (Hf a s) as (s1 & -> & Hs1); [left|done|].
    apply IH; [|done]. intros b t Hb. apply Hf. by right.
Qed.

(** ** Generic facts about [forEachE] *)

Section ForEachE.
Context {A S : Type}.
Variable R : S → S → Prop.
Hypothesis R_refl : ∀ s, R s s.
Hypothesis R_trans : ∀ s1 s2 s3, R s1 s2 → R s2 s3 → R s1 s3.

Lemma forEachE_rel (f : A → S → option (result S)) (l : list A) :
  (∀ a s s', a ∈ l → f a s = Some (Ok s') → R s s') →
  ∀ s s', forEachE f l s = Some (Ok s') → R s s'.
Proof.
  induction l as [|a l IH]; intros Hf s s' Hrun; simpl in Hrun.
  - injection Hrun as <-. apply R_refl.
  - destruct (f a s) as [[s1|e]|] eqn:Ha; [|done|done].
    apply R_trans with s1.
    + apply (Hf a); [left|done].
    + apply IH; [|done]. intros b t t' Hb. apply Hf. by right.
Qed.

Lemma forEachE_elem (f : A → S → option (result S)) (l : list A) (x : A) :
  (∀ a s s', a ∈ l → f a s = Some (Ok s') → R s s') →
  x ∈ l →
  ∀ s s', forEachE f l s = Some (Ok s') →
  ∃ s1 s2, R s s1 ∧ f x s1 = Some (Ok s2) ∧ R s2 s'.
Proof.
  induction l as [|a l IH]; intros Hf Hx s s' Hrun.
  - by apply elem_of_nil in Hx.
  - simpl in Hrun. destruct (f a s) as [[t|e]|] eqn:Ha; [|done|done].
    apply elem_of_cons in Hx as [->|Hx].
    + exists s, t. split; [apply R_refl|]. split; [done|].
      apply (forEachE_rel f l); [|done].
      intros b u u' Hb. apply Hf. by right.
    + destruct (IH (λ b u u' Hb, Hf b u u' (list_elem_of_further _ _ _ Hb))
                   Hx t s' Hrun) as (s1 & s2 & H1 & H2 & H3).
      exists s1, s2. split; [|done].
      apply R_trans with t; [|done]. apply (Hf a); [left|done].
Qed.
End ForEachE.

(** A loop whose body always returns normally, returns normally. *)
Lemma forEachE_total {A S : Type} (P : S → Prop)
    (f : A → S → option (result S)) (l : list A) :
  (∀ a s, a ∈ l → P s → ∃ s', f a s = Some (Ok s') ∧ P s') →
  ∀ s, P s → ∃ s', forEachE f l s = Some (Ok s') ∧ P s'.
Proof.
  induction l as [|a l IH]; intros Hf s Hs; simpl.
  - by exists s.
  - destruct (Hf a s) as (s1 & -> & Hs1); [left|done|].
    apply IH; [|done]. intros b t Hb. apply Hf. by right.
Qed.


(** A loop throws what a run of its body throws. *)
Lemma forEachE_Err {A S : Type} (f : A → S → option (result S)) (l : list A) :
  ∀ s e, forEachE f l s = Some (Err e) →
         ∃ a s1, a ∈ l ∧ f a s1 = Some (Err e).
Proof.
  induction l as [|a l IH]; intros s e H; simpl in H; [done|].
  destruct (f a s) as [[s1|e']|] eqn:Ha; [| |done].
  - destruct (IH _ _ H) as (b & t & Hb & Ht). exists b, t.
    split; [by right|done].
  - injection H as ->. exists a, s. split; [by left|done].
Qed.

(** ** The node store *)

Lemma strip_add_child t n : strip (add_child t n) = strip n.
Proof. reflexivity. Qed.

Lemma strip_id n : n_id (strip n) = n_id n.
Proof. reflexivity. Qed.

Lemma strip_make_node i a : strip (built_node i a) = built_node i a.
Proof. reflexivity. Qed.

Lemma make_node_Ok i a n : make_node i a = Ok n → n = built_node i a.
Proof.
  unfold make_node, built_node, tactic_or_unknown.
  destruct (resolve_tactic a) as [t|e]; [|done]. by intros [= <-].
Qed.

(** When the loop over the actions returns, it has pushed the node of every
    action, position by position, and no body has thrown. *)
Lemma make_nodes_from acts :
  ∀ k nodes, make_nodes k acts = Ok nodes →
    nodes = imap (λ i, built_node (k + i)) acts ∧
    ∀ i a, acts !! i = Some a →
           make_node (k + i) a = Ok (built_node (k + i) a).
Proof.
  induction acts as [|a acts IH]; intros k nodes H; simpl in H.
  { injection H as <-. split; [done|]. by intros i a Hi. }
  destruct (make_node k a) as [n|e] eqn:Hn; [|done].
  destruct (make_nodes (S k) acts) as [ns|e] eqn:Hns; [|done].
  injection H as <-. destruct (IH _ _ Hns) as [-> Hall].
  pose proof (make_node_Ok _ _ _ Hn) as ->. split.
  - csimpl. rewrite Nat.add_0_r. f_equal. apply imap_ext.
    intros i x _. simpl. f_equal. lia.
  - intros [|i] x Hi; simpl in Hi.
    + injection Hi as <-. by rewrite Nat.add_0_r.
    + replace (k + S i) with (S k + i) by lia. by apply Hall.
Qed.

Lemma make_nodes_Ok acts nodes :
  make_nodes 0 acts = Ok nodes →
  nodes = imap built_node acts ∧
  ∀ i a, acts !! i = Some a → make_node i a = Ok (built_node i a).
Proof. intros H. by apply make_nodes_from in H. Qed.


Lemma map_strip_alter t i (l : list Node) :
  strip <$> alter (add_child t) i l = strip <$> l.
Proof.
  revert i. induction l as [|n l IH]; intros [|i]; csimpl; try done.
  by rewrite IH.
Qed.

Lemma map_strip_ids (l l' : list Node) :
  strip <$> l = strip <$> l' → n_id <$> l = n_id <$> l'.
Proof.
  intros H. apply (f_equal (fmap n_id)) in H.
  by rewrite <- !list_fmap_compose in H.
Qed.

Lemma nodeMap_index_ids k (l l' : list Node) :
  n_id <$> l = n_id <$> l' → nodeMap_index k l = nodeMap_index k l'.
Proof.
  revert l'. induction l as [|n l IH]; intros [|n' l'] H; csimpl in *;
    try done.
  injection H as Hn Hl. by rewrite (IH l' Hl), Hn.
Qed.

Lemma nodeMap_index_Some k (l : list Node) i :
  nodeMap_index k l = Some i → ∃ n, l !! i = Some n ∧ n_id n = k.
Proof.
  revert i. induction l as [|n l IH]; intros i H; simpl in H; [done|].
  destruct (nodeMap_index k l) as [j|] eqn:Hj.
  - injection H as <-. by apply IH.
  - case_bool_decide; [|done]. injection H as <-. by exists n.
Qed.

Lemma nodeMap_index_None k (l : list Node) :
  nodeMap_index k l = None ↔ k ∉ n_id <$> l.
Proof.
  induction l as [|n l IH]; csimpl.
  - split; [intros _; apply not_elem_of_nil|done].
  - rewrite not_elem_of_cons. destruct (nodeMap_index k l) as [j|].
    + split; [done|]. intros [_ H]. by apply IH in H.
    + case_bool_decide; split; try done.
      * intros [H' _]. by subst.
      * intros _. split; [done|]. by apply IH.
Qed.

Lemma nodeMap_index_elem k (l : list Node) :
  k ∈ n_id <$> l → ∃ i, nodeMap_index k l = Some i.
Proof.
  intros H. destruct (nodeMap_index k l) as [i|] eqn:Hi; [by exists i|].
  by apply nodeMap_index_None in Hi.
Qed.

Lemma nodeMap_get_Some k (l : list Node) n :
  nodeMap_get k l = Some n → n ∈ l ∧ n_id n = k.
Proof.
  unfold nodeMap_get. intros H.
  destruct (nodeMap_index k l) as [i|] eqn:Hi; simpl in H; [|done].
  apply nodeMap_index_Some in Hi as (n' & Hn' & Hid).
  rewrite Hn' in H. injection H as <-. split; [|done].
  by apply list_elem_of_lookup_2 in Hn'.
Qed.

Lemma nodeMap_get_elem k (l : list Node) :
  k ∈ n_id <$> l → ∃ n, nodeMap_get k l = Some n.
Proof.
  intros H. apply nodeMap_index_elem in H as [i Hi].
  unfold nodeMap_get. rewrite Hi. simpl.
  apply nodeMap_index_Some in Hi as (n & Hn & _). by exists n.
Qed.

(** ** Edge resolution keeps the nodes and only adds edges *)

Lemma grows_ids g g' : grows g g' → node_ids g' = node_ids g.
Proof. intros [H _]. by apply map_strip_ids. Qed.

Lemma grows_edge g g' e : grows g g' → e ∈ g_edges g → e ∈ g_edges g'.
Proof. intros [_ [es ->]] He. apply elem_of_app. by left. Qed.

Lemma step_ok_refl g : step_ok g g.
Proof.
  split; [|done]. split; [done|]. exists []. by rewrite app_nil_r.
Qed.

Lemma step_ok_trans g1 g2 g3 : step_ok g1 g2 → step_ok g2 g3 → step_ok g1 g3.
Proof.
  intros [[Hn1 [es1 He1]] Hok1] [[Hn2 [es2 He2]] Hok2].
  split; [|by auto]. split; [congruence|].
  exists (es1 ++ es2). by rewrite He2, He1, app_assoc.
Qed.

Lemma connect_ok i s t child g :
  s ∈ node_ids g → t ∈ node_ids g → step_ok g (connect i s t child g).
Proof.
  intros Hs Ht.
  assert (Hg : grows g (connect i s t child g)).
  { split; [apply map_strip_alter|]. by exists [mkEdge s t]. }
  split; [done|]. intros Hok e He.
  rewrite (grows_ids _ _ Hg). simpl in He.
  apply elem_of_app in He as [He|He]; [by apply Hok|].
  apply list_elem_of_singleton in He as ->. done.
Qed.

Lemma link_effect_ok s t g : step_ok g (link_effect s t g).
Proof.
  unfold link_effect.
  destruct (nodeMap_index s (g_nodes g)) as [i|] eqn:Hs;
    [|apply step_ok_refl].
  destruct (nodeMap_index t (g_nodes g)) as [j|] eqn:Ht;
    [|apply step_ok_refl].
  apply nodeMap_index_Some in Hs as (n & Hn & <-).
  apply nodeMap_index_Some in Ht as (m & Hm & <-).
  apply connect_ok; apply list_elem_of_fmap_2;
    by eapply list_elem_of_lookup_2.
Qed.

Lemma link_relationship_ok s t g : step_ok g (link_relationship s t g).
Proof.
  unfold link_relationship.
  destruct (nodeMap_index s (g_nodes g)) as [i|] eqn:Hs;
    [|apply step_ok_refl].
  destruct (nodeMap_index t (g_nodes g)) as [j|] eqn:Ht;
    [|apply step_ok_refl].
  destruct (g_nodes g !! i) as [n|] eqn:Hn; [|apply step_ok_refl].
  destruct (g_nodes g !! j) as [m|] eqn:Hm; [|apply step_ok_refl].
  apply connect_ok; apply list_elem_of_fmap_2;
    by eapply list_elem_of_lookup_2.
Qed.

(** An edge towards a resolved target is pushed. *)
Lemma link_effect_edge s t g :
  s ∈ node_ids g → t ∈ node_ids g → mkEdge s t ∈ g_edges (link_effect s t g).
Proof.
  intros Hs Ht. unfold link_effect.
  apply nodeMap_index_elem in Hs as [i ->].
  apply nodeMap_index_elem in Ht as [j ->].
  simpl. apply elem_of_app. right. apply list_elem_of_singleton. done.
Qed.

Lemma forEachRefs_rel {S : Type} (R : S → S → Prop)
    (f : string → S → option (result S)) (refs : RefList) :
  (∀ s, R s s) → (∀ s1 s2 s3, R s1 s2 → R s2 s3 → R s1 s3) →
  (∀ a s s', f a s = Some (Ok s') → R s s') →
  ∀ s s', forEachRefs f refs s = Some (Ok s') → R s s'.
Proof.
  intros Hrefl Htrans Hf s s' H. destruct refs as [| |l]; simpl in H.
  - injection H as <-. apply Hrefl.
  - done.
  - eapply forEachE_rel; eauto.
Qed.

Lemma followEffectChain_ok fuel objs sourceId :
  ∀ effectNode g g',
    followEffectChain fuel objs sourceId effectNode g = Some (Ok g') →
    step_ok g g'.
Proof.
  induction fuel as [|fuel IH]; intros o g g' H; simpl in H; [done|].
  set (follow := λ (ref : string) (g : Graph),
         match objs !! ref with
         | Some nextNode => followEffectChain fuel objs sourceId nextNode g
         | None => Some (Ok g)
         end) in H.
  assert (Hfollow : ∀ a s s', follow a s = Some (Ok s') → step_ok s s').
  { intros a s s' Ha. unfold follow in Ha.
    destruct (objs !! a) as [next|]; [by eapply IH|].
    injection Ha as <-. apply step_ok_refl. }
  destruct (has_type "attack-condition" o).
  { destruct (forEachRefs follow (o_on_true_refs o) g) as [[g1|e]|] eqn:H1;
      [|done|done].
    apply step_ok_trans with g1;
      eapply forEachRefs_rel;
      eauto using step_ok_refl, step_ok_trans. }
  destruct (has_type "attack-operator" o).
  { eapply forEachRefs_rel; eauto using step_ok_refl, step_ok_trans. }
  destruct (has_type "attack-action" o); injection H as <-.
  - apply link_effect_ok.
  - apply step_ok_refl.
Qed.

Lemma follow_effect_ref_ok fuel objs sourceId ref g g' :
  follow_effect_ref fuel objs sourceId ref g = Some (Ok g') → step_ok g g'.
Proof.
  unfold follow_effect_ref. destruct (objs !! ref) as [o|].
  - apply followEffectChain_ok.
  - intros [= <-]. apply step_ok_refl.
Qed.

Lemma fold_left_step_ok {A : Type} (f : Graph → A → Graph) (l : list A) :
  (∀ g a, step_ok g (f g a)) → ∀ g, step_ok g (fold_left f l g).
Proof.
  intros Hf. induction l as [|a l IH]; intros g; simpl.
  - apply step_ok_refl.
  - eapply step_ok_trans; [apply Hf|apply IH].
Qed.

Lemma action_effects_ok fuel objs action g g' :
  forEachRefs (follow_effect_ref fuel objs (o_id action))
              (o_effect_refs action) g = Some (Ok g') →
  step_ok g g'.
Proof.
  apply forEachRefs_rel; eauto using step_ok_refl, step_ok_trans.
  intros a s s'. apply follow_effect_ref_ok.
Qed.

Lemma buildAttackFlowEdges_ok fuel p g g' :
  buildAttackFlowEdges fuel p g = Some (Ok g') → step_ok g g'.
Proof.
  unfold buildAttackFlowEdges. intros H.
  destruct (forEachE _ (actions p) g) as [[g1|e]|] eqn:H1; [|done|done].
  injection H as <-. apply step_ok_trans with g1.
  - eapply (forEachE_rel step_ok); eauto using step_ok_refl, step_ok_trans.
    intros a s s' _. apply action_effects_ok.
  - apply fold_left_step_ok. intros. apply link_relationship_ok.
Qed.

Lemma buildAFBEdges_ok p g : step_ok g (buildAFBEdges p g).
Proof. apply fold_left_step_ok. intros. apply link_relationship_ok. Qed.

(** When [buildGraph] returns, the loop over the actions has pushed the
    node of every action and edge resolution has run on these nodes. *)
Lemma buildGraph_Ok fuel p p' :
  buildGraph fuel p = Some (Ok p') →
  make_nodes 0 (actions p) = Ok (imap built_node (actions p)) ∧
  match format p with
  | AttackFlowFormat =>
      ∃ g', buildAttackFlowEdges fuel p
              (mkGraph (imap built_node (actions p)) []) = Some (Ok g') ∧
            p' = set_graph g' p
  | AfbFormat =>
      p' = set_graph
             (buildAFBEdges p (mkGraph (imap built_node (actions p)) [])) p
  end.
Proof.
  unfold buildGraph. intros H.
  destruct (make_nodes 0 (actions p)) as [nodes|e] eqn:Hn; [|done].
  destruct (make_nodes_Ok _ _ Hn) as [-> _]. split; [done|].
  destruct (format p).
  - destruct (buildAttackFlowEdges _ _ _) as [[g'|e]|] eqn:Hg; [|done|done].
    injection H as <-. by exists g'.
  - by injection H as <-.
Qed.

(** The graph of a built parser, relative to its action records. *)
Lemma buildGraph_graph fuel p p' :
  buildGraph fuel p = Some (Ok p') →
  step_ok (mkGraph (imap built_node (actions p)) []) (graph p') ∧
  format p' = format p ∧ objects p' = objects p ∧
  attackFlow p' = attackFlow p ∧ actions p' = actions p ∧
  relationships p' = relationships p.
Proof.
  intros H. apply buildGraph_Ok in H as [_ H]. destruct (format p) eqn:Hf.
  - destruct H as (g' & Hg & ->). simpl. split; [|done].
    by eapply buildAttackFlowEdges_ok.
  - subst p'. simpl. split; [|done]. apply buildAFBEdges_ok.
Qed.

Lemma buildGraph_nodes fuel p p' :
  buildGraph fuel p = Some (Ok p') →
  strip <$> g_nodes (graph p') = imap built_node (actions p).
Proof.
  intros H. apply buildGraph_graph in H as ([[Hn _] _] & _).
  rewrite Hn. simpl. generalize (actions p) as l.
  assert (∀ (l : list Obj) (f : nat → Obj → Node),
            (∀ i a, strip (f i a) = f i a) →
            strip <$> imap f l = imap f l) as Haux.
  { induction l as [|a l IH]; intros f Hf; csimpl; [done|].
    rewrite Hf. f_equal. apply IH. intros. apply Hf. }
  intros l. apply Haux, strip_make_node.
Qed.

Lemma buildGraph_edges_ok fuel p p' :
  buildGraph fuel p = Some (Ok p') → edges_ok (graph p').
Proof.
  intros H. apply buildGraph_graph in H as ([_ Hok] & _).
  apply Hok. intros e He. simpl in He. by apply elem_of_nil in He.
Qed.

(** ** Extraction *)

Lemma filter_snoc_dec {A} (P : A → Prop) `{!∀ x, Decision (P x)}
    (l : list A) (x : A) :
  filter P (l ++ [x]) = filter P l ++ (if decide (P x) then [x] else []).
Proof. rewrite filter_app. f_equal. Qed.

Lemma parseAttackFlow_spec objs p :
  let p' := parseAttackFlow_pass objs p in
  format p' = format p ∧ graph p' = graph p ∧
  actions p' = actions p ++ filter (is_type "attack-action") objs ∧
  relationships p' =
    relationships p ++ filter (is_type "relationship") objs ∧
  attackFlow p' =
    match last (filter (is_type "attack-flow") objs) with
    | Some o => Some o
    | None => attackFlow p
    end.
Proof.
  revert p. induction objs as [|o objs IH] using rev_ind; intros p.
  { simpl. by rewrite !app_nil_r. }
  unfold parseAttackFlow_pass in *. rewrite fold_left_app. simpl.
  destruct (IH p) as (Hf & Hg & Ha & Hr & Hflow).
  rewrite !filter_snoc_dec, !app_assoc, <- Ha, <- Hr.
  set (q := fold_left parseAttackFlow_step objs p) in *.
  unfold parseAttackFlow_step, has_type, is_type.
  repeat case_bool_decide; repeat case_decide; simpl;
    rewrite ?app_nil_r, ?last_snoc; try done; congruence.
Qed.


Lemma parseAttackFlow_objects_elem objs p o :
  o ∈ objs → is_Some (objects (parseAttackFlow_pass objs p) !! prop_key (o_id o)).
Proof.
  revert p. induction objs as [|x objs IH] using rev_ind; intros p H.
  { by apply elem_of_nil in H. }
  unfold parseAttackFlow_pass in *. rewrite fold_left_app. simpl.
  set (q := fold_left parseAttackFlow_step objs p) in *.
  assert (objects (parseAttackFlow_step q x)
          = <[prop_key (o_id x) := x]> (objects q)) as Hstep.
  { unfold parseAttackFlow_step. repeat case_match; done. }
  rewrite Hstep. rewrite lookup_insert_is_Some.
  destruct (decide (prop_key (o_id x) = prop_key (o_id o))); [by left|].
  right. split; [done|]. apply elem_of_app in H as [H|H]; [by apply IH|].
  apply list_elem_of_singleton in H. congruence.
Qed.

(** With pairwise distinct keys the table returns the object itself. *)
Lemma parseAttackFlow_objects_NoDup objs p o :
  NoDup (prop_key ∘ o_id <$> objs) → o ∈ objs →
  objects (parseAttackFlow_pass objs p) !! prop_key (o_id o) = Some o.
Proof.
  intros Hnd Ho.
  destruct (parseAttackFlow_objects_elem objs p o Ho) as [o' Ho'].
  rewrite Ho'. f_equal.
  assert (∀ objs p k o', o ∈ objs → NoDup (prop_key ∘ o_id <$> objs) →
            k = prop_key (o_id o) →
            objects (parseAttackFlow_pass objs p) !! k = Some o' → o' = o) as Haux.
  { clear. induction objs as [|x objs IH] using rev_ind;
      intros p k o' Ho Hnd -> H.
    { by apply elem_of_nil in Ho. }
    unfold parseAttackFlow_pass in *. rewrite fold_left_app in H. simpl in H.
    set (q := fold_left parseAttackFlow_step objs p) in *.
    assert (objects (parseAttackFlow_step q x)
            = <[prop_key (o_id x) := x]> (objects q)) as Hstep.
    { unfold parseAttackFlow_step. repeat case_match; done. }
    rewrite Hstep in H. rewrite fmap_app in Hnd.
    apply NoDup_app in Hnd as (Hnd1 & Hdisj & _).
    apply elem_of_app in Ho as [Ho|Ho].
    - apply lookup_insert_Some in H as [[Hk <-]|[_ H]].
      + exfalso. apply (Hdisj (prop_key (o_id o))).
        * by apply (list_elem_of_fmap_2 (prop_key ∘ o_id)) in Ho.
        * simpl. rewrite <- Hk. by left.
      + by eapply IH.
    - apply list_elem_of_singleton in Ho as ->.
      rewrite lookup_insert_eq in H. congruence. }
  by eapply Haux.
Qed.

Lemma fold_objects_step_spec objs p :
  let p' := fold_left parseAFB_objects_step objs p in
  format p' = format p ∧ graph p' = graph p ∧
  attackFlow p' = attackFlow p ∧
  relationships p' = relationships p ∧
  actions p' = actions p ++ (afb_action <$> filter (is_tag "action") objs).
Proof.
  revert p. induction objs as [|o objs IH] using rev_ind; intros p.
  { simpl. by rewrite app_nil_r. }
  rewrite fold_left_app. simpl.
  destruct (IH p) as (Hf & Hg & Hflow & Hr & Ha).
  rewrite filter_snoc_dec, fmap_app, app_assoc, <- Ha.
  set (q := fold_left parseAFB_objects_step objs p) in *.
  unfold parseAFB_objects_step, has_tag, is_tag.
  repeat case_bool_decide; repeat case_decide; simpl;
    rewrite ?app_nil_r; try done; congruence.
Qed.

Lemma fold_lines_step_spec objs p :
  let p' := fold_left parseAFB_lines_step objs p in
  format p' = format p ∧ graph p' = graph p ∧
  attackFlow p' = attackFlow p ∧ actions p' = actions p ∧
  objects p' = objects p ∧
  relationships p' =
    relationships p ++ (afb_relationship <$> filter is_line objs).
Proof.
  revert p. induction objs as [|o objs IH] using rev_ind; intros p.
  { simpl. by rewrite app_nil_r. }
  rewrite fold_left_app. simpl.
  destruct (IH p) as (Hf & Hg & Hflow & Ha & Ho & Hr).
  rewrite filter_snoc_dec, fmap_app, app_assoc, <- Hr.
  set (q := fold_left parseAFB_lines_step objs p) in *.
  unfold parseAFB_lines_step, has_tag.
  destruct (decide (is_line o)) as [Hl|Hl]; unfold is_line, is_tag in Hl.
  - destruct Hl as (Htag & -> & ->).
    destruct Htag; repeat case_bool_decide; simpl; done.
  - rewrite app_nil_r.
    destruct (truthy_key (o_source o)) eqn:Hs,
             (truthy_key (o_target o)) eqn:Ht;
      repeat case_bool_decide; simpl; try done.
    all: exfalso; apply Hl; auto.
Qed.

Lemma parseAFB_spec objs p :
  let p' := parseAFB_passes objs p in
  format p' = format p ∧ graph p' = graph p ∧
  actions p' = actions p ++ (afb_action <$> filter (is_tag "action") objs) ∧
  relationships p' =
    relationships p ++ (afb_relationship <$> filter is_line objs) ∧
  attackFlow p' =
    match find (has_tag "flow") objs with
    | Some flowObj => Some (afb_flow flowObj)
    | None => attackFlow p
    end.
Proof.
  unfold parseAFB_passes.
  set (p1 := match find (has_tag "flow") objs with
             | Some flowObj => set_attackFlow (afb_flow flowObj) p
             | None => p
             end).
  destruct (fold_objects_step_spec objs p1) as (Hf & Hg & Hflow & Hr & Ha).
  destruct (fold_lines_step_spec objs (fold_left parseAFB_objects_step objs p1))
    as (Hf' & Hg' & Hflow' & Ha' & _ & Hr').
  simpl. rewrite Hf', Hg', Hflow', Ha', Hr', Hf, Hg, Hflow, Hr, Ha.
  unfold p1. by destruct (find (has_tag "flow") objs).
Qed.



(** ** The constructor, step by step *)

Lemma array_inj objs objs' : array objs = array objs' → objs = objs'.
Proof.
  unfold array. intros [= H]. revert objs' H.
  induction objs as [|o objs IH]; intros [|o' objs'] H; csimpl in *;
    try done.
  injection H as -> H. f_equal. by apply IH.
Qed.


Lemma all_objects_Some elems objs :
  all_objects elems = Some objs → elems = Some <$> objs.
Proof.
  revert objs. induction elems as [|[o|] elems IH]; intros objs H; simpl in H.
  - by injection H as <-.
  - destruct (all_objects elems) as [l|]; [|done]. injection H as <-.
    csimpl. f_equal. by apply IH.
  - done.
Qed.

(** An array with a [null] element. *)
Lemma all_objects_None (elems : list (option Obj)) :
  all_objects elems = None ↔ None ∈ elems.
Proof.
  induction elems as [|[o|] elems IH]; simpl.
  - split; [done|]. by intros H%elem_of_nil.
  - destruct (all_objects elems) as [l|].
    + split; [done|]. intros H. apply elem_of_cons in H as [H|H]; [done|].
      by apply IH in H.
    + split; [|done]. intros _. right. by apply IH.
  - split; [|done]. intros _. by left.
Qed.

Lemma some_has_type_array t objs :
  some_has_type t (Some <$> objs) = Ok (existsb (has_type t) objs).
Proof.
  induction objs as [|o objs IH]; csimpl; [done|].
  by destruct (has_type t o).
Qed.


Lemma extract_Ok f objects p :
  extract f objects = Ok p →
  ∃ objs, objects = array objs ∧ p = extract_pass f objs.
Proof.
  unfold extract, parseAttackFlow, parseAFB.
  destruct objects as [| |elems]; [by destruct f|by destruct f|].
  destruct (all_objects elems) as [objs|] eqn:Hobjs; [|by destruct f].
  apply all_objects_Some in Hobjs as ->.
  intros H. exists objs. split; [done|]. destruct f; by injection H as <-.
Qed.

(** On a document whose [objects] member is an array of objects, detection
    is the test of the two markers. *)
Lemma detectFormat_array data objs :
  d_objects data = array objs →
  detectFormat data =
    if bool_decide (d_type data = Some "bundle") then
      if existsb (has_type "attack-flow") objs
         || existsb (has_type "attack-action") objs
      then Ok AttackFlowFormat
      else Err (FormatError msg_not_attack_flow)
    else if truthy_key (d_schema data) then Ok AfbFormat
    else Err (FormatError msg_unknown_format).
Proof.
  destruct data as [|type schema objects]; [done|]. simpl. intros ->.
  unfold array. simpl. rewrite !some_has_type_array, !andb_true_r.
  by case_bool_decide.
Qed.

Lemma detectFormat_Ok data f :
  detectFormat data = Ok f →
  truthy_objects (d_objects data) = true ∧
  match f with
  | AttackFlowFormat => d_type data = Some "bundle"
  | AfbFormat =>
      d_type data ≠ Some "bundle" ∧ truthy_key (d_schema data) = true
  end.
Proof.
  destruct data as [|type schema objects]; [done|]. simpl.
  destruct (truthy_objects objects) eqn:Ho; rewrite ?andb_false_r, ?andb_true_r;
    [|done].
  case_bool_decide as Hty.
  - destruct objects as [| |elems]; try done.
    destruct (some_has_type "attack-flow" elems) as [b1|]; [|done].
    destruct (some_has_type "attack-action" elems) as [b2|]; [|done].
    destruct (b1 || b2); [|done]. by intros [= <-].
  - destruct (truthy_key schema); [|done]. by intros [= <-].
Qed.

Lemma parse_Ok fuel data p :
  parse fuel data = Some (Ok p) →
  ∃ f objs, detectFormat data = Ok f ∧ d_objects data = array objs ∧
            buildGraph fuel (extract_pass f objs) = Some (Ok p).
Proof.
  unfold parse. destruct (detectFormat data) as [f|e] eqn:Hd; [|done].
  destruct (extract f (d_objects data)) as [q|e] eqn:Hq; [|done].
  intros H. apply extract_Ok in Hq as (objs & Hobjs & ->).
  by exists f, objs.
Qed.



(** ** Format errors *)

Lemma existsb_has_type_false t (objs : list Obj) :
  (∀ o, o ∈ objs → ¬ is_type t o) → existsb (has_type t) objs = false.
Proof.
  intros H. induction objs as [|o objs IH]; simpl; [done|].
  rewrite IH; [|intros x Hx; apply H; by right].
  unfold has_type. rewrite bool_decide_eq_false_2; [done|].
  apply H. by left.
Qed.

Lemma existsb_has_type_false_inv t (objs : list Obj) :
  existsb (has_type t) objs = false → ∀ o, o ∈ objs → ¬ is_type t o.
Proof.
  intros H o Ho Ht. apply not_true_iff_false in H. apply H.
  apply existsb_exists. exists o. split; [by apply list_elem_of_In|].
  by apply bool_decide_eq_true_2.
Qed.

Lemma existsb_has_type_true t (objs : list Obj) :
  existsb (has_type t) objs = true → ∃ o, o ∈ objs ∧ is_type t o.
Proof.
  intros H. apply existsb_exists in H as (o & Ho & Ht).
  exists o. split; [by apply list_elem_of_In|].
  by apply bool_decide_eq_true_1 in Ht.
Qed.

Lemma some_has_type_spec t elems :
  match some_has_type t elems with
  | Ok true => True
  | Ok false =>
      ∃ objs, elems = Some <$> objs ∧ existsb (has_type t) objs = false
  | Err e => None ∈ elems ∧ e = TypeError msg_null_member
  end.
Proof.
  induction elems as [|[o|] elems IH]; simpl.
  - by exists [].
  - destruct (has_type t o) eqn:Ho; [done|].
    destruct (some_has_type t elems) as [[|]|e]; [done| |].
    + destruct IH as (objs & -> & Hex). exists (o :: objs). csimpl.
      by rewrite Ho.
    + destruct IH as [Hin ->]. split; [by right|done].
  - split; [by left|done].
Qed.

Lemma array_no_null (objs : list Obj) : None ∉ (Some <$> objs).
Proof. by intros (o & ? & _)%list_elem_of_fmap. Qed.

(** An array is an array of objects, or has a [null] element. *)
Lemma elements_cases (elems : list (option Obj)) :
  (∃ objs : list Obj, elems = Some <$> objs) ∨ None ∈ elems.
Proof.
  destruct (all_objects elems) as [objs|] eqn:H.
  - left. exists objs. by apply all_objects_Some.
  - right. by apply all_objects_None.
Qed.

(** After detection the constructor throws type errors only. *)
Lemma extract_Err f objects e :
  extract f objects = Err e → ∃ msg, e = TypeError msg.
Proof.
  unfold extract, parseAttackFlow, parseAFB.
  destruct f, objects as [| |elems]; try (intros [= <-]; by eexists);
    destruct (all_objects elems); try done; intros [= <-]; by eexists.
Qed.

Lemma resolve_tactic_Err a e :
  resolve_tactic a = Err e ↔
  (∃ phases, o_kill_chain_phases a = Some (None :: phases)) ∧
  e = TypeError msg_no_phase_name.
Proof.
  unfold resolve_tactic.
  destruct (o_kill_chain_phases a) as [[|[phase|] phases]|]; split;
    try done; try (by intros [[? [=]] _]).
  - intros [= <-]. split; [by eexists|done].
  - by intros [_ ->].
Qed.

Lemma make_nodes_Err acts :
  ∀ k e, make_nodes k acts = Err e →
         ∃ a, a ∈ acts ∧ resolve_tactic a = Err e.
Proof.
  induction acts as [|a acts IH]; intros k e H; simpl in H; [done|].
  unfold make_node in H. destruct (resolve_tactic a) as [t|e'] eqn:Ht.
  - destruct (make_nodes (S k) acts) as [ns|e''] eqn:Hns; [done|].
    injection H as ->. destruct (IH _ _ Hns) as (x & Hx & He).
    exists x. split; [by right|done].
  - injection H as ->. exists a. split; [by left|done].
Qed.

Lemma forEachRefs_Err {S : Type} (f : string → S → option (result S))
    (refs : RefList) s e :
  forEachRefs f refs s = Some (Err e) →
  (refs = NotRefs ∧ e = TypeError msg_refs_forEach) ∨
  ∃ a s1, f a s1 = Some (Err e).
Proof.
  destruct refs as [| |l]; simpl; [done| |].
  - intros [= <-]. by left.
  - intros H. right. apply forEachE_Err in H as (a & s1 & _ & H).
    by exists a, s1.
Qed.

(** Edge resolution throws only at a reference list that is no array, in the
    object it was called on or in an object of the table. *)
Lemma followEffectChain_Err fuel objs sourceId :
  ∀ o g e,
    followEffectChain fuel objs sourceId o g = Some (Err e) →
    e = TypeError msg_refs_forEach ∧
    ∃ o', (o' = o ∨ ∃ k, objs !! k = Some o') ∧ refs_not_array o'.
Proof.
  induction fuel as [|fuel IH]; intros o g e H; simpl in H; [done|].
  set (follow := λ (ref : string) (g : Graph),
         match objs !! ref with
         | Some nextNode => followEffectChain fuel objs sourceId nextNode g
         | None => Some (Ok g)
         end) in H.
  assert (Hfollow : ∀ a s, follow a s = Some (Err e) →
            e = TypeError msg_refs_forEach ∧
            ∃ o', (o' = o ∨ ∃ k, objs !! k = Some o') ∧ refs_not_array o').
  { intros a s Ha. unfold follow in Ha.
    destruct (objs !! a) as [next|] eqn:Hnext; [|done].
    destruct (IH _ _ _ Ha) as (He & o' & [->|Hk] & Hbad).
    - split; [done|]. exists next. split; [right; by exists a|done].
    - split; [done|]. exists o'. split; [by right|done]. }
  assert (Hrefs : ∀ refs s, forEachRefs follow refs s = Some (Err e) →
            (refs = o_effect_refs o ∨ refs = o_on_true_refs o ∨
             refs = o_on_false_refs o) →
            e = TypeError msg_refs_forEach ∧
            ∃ o', (o' = o ∨ ∃ k, objs !! k = Some o') ∧ refs_not_array o').
  { intros refs s Hr Hwhich.
    apply forEachRefs_Err in Hr as [[-> ->]|(a & s1 & Ha)];
      [|by eapply Hfollow].
    split; [done|]. exists o. split; [by left|].
    unfold refs_not_array. destruct Hwhich as [?|[?|?]]; auto. }
  destruct (has_type "attack-condition" o).
  { destruct (forEachRefs follow (o_on_true_refs o) g) as [[g1|e1]|] eqn:H1;
      [| |done].
    - apply (Hrefs _ _ H). auto.
    - injection H as ->. apply (Hrefs _ _ H1). auto. }
  destruct (has_type "attack-operator" o).
  { apply (Hrefs _ _ H). auto. }
  by destruct (has_type "attack-action" o).
Qed.

Lemma buildAttackFlowEdges_Err fuel p g e :
  buildAttackFlowEdges fuel p g = Some (Err e) →
  e = TypeError msg_refs_forEach ∧
  ∃ o, (o ∈ actions p ∨ ∃ k, objects p !! k = Some o) ∧ refs_not_array o.
Proof.
  unfold buildAttackFlowEdges. intros H.
  destruct (forEachE _ (actions p) g) as [[g1|e1]|] eqn:H1; [done| |done].
  injection H as ->. apply forEachE_Err in H1 as (a & s1 & Ha & H1).
  apply forEachRefs_Err in H1 as [[Hbad ->]|(r & s2 & Hr)].
  - split; [done|]. exists a. split; [by left|]. by left.
  - unfold follow_effect_ref in Hr.
    destruct (objects p !! r) as [o|] eqn:Ho; [|done].
    apply followEffectChain_Err in Hr as (-> & o' & [->|Hk] & Hbad).
    + split; [done|]. exists o. split; [right; by exists r|done].
    + split; [done|]. exists o'. split; [by right|done].
Qed.

(** [buildGraph] throws at an action whose first kill-chain phase carries no
    name, or, in a bundle, at a reference list that is no array. *)
Lemma buildGraph_Err fuel p e :
  buildGraph fuel p = Some (Err e) →
  (∃ a, a ∈ actions p ∧ resolve_tactic a = Err e) ∨
  (format p = AttackFlowFormat ∧ e = TypeError msg_refs_forEach ∧
   ∃ o, (o ∈ actions p ∨ ∃ k, objects p !! k = Some o) ∧ refs_not_array o).
Proof.
  unfold buildGraph.
  destruct (make_nodes 0 (actions p)) as [nodes|e'] eqn:Hn.
  - destruct (format p); [|done].
    destruct (buildAttackFlowEdges _ _ _) as [[g'|e']|] eqn:Hg; [done| |done].
    intros [= ->]. right. split; [done|].
    by apply buildAttackFlowEdges_Err in Hg.
  - intros [= ->]. left. by eapply make_nodes_Err.
Qed.

(** [buildGraph] throws type errors only. *)
Lemma buildGraph_TypeError fuel p e :
  buildGraph fuel p = Some (Err e) → ∃ msg, e = TypeError msg.
Proof.
  intros [(a & _ & H)|(_ & -> & _)]%buildGraph_Err; [|by eexists].
  apply resolve_tactic_Err in H as [_ ->]. by eexists.
Qed.

(** A format error comes from detection. *)
Lemma parse_FormatError fuel d msg :
  parse fuel d = Some (Err (FormatError msg)) ↔
  detectFormat d = Err (FormatError msg).
Proof.
  unfold parse. split.
  - destruct (detectFormat d) as [f|e]; [|by intros [= ->]].
    destruct (extract f (d_objects d)) as [p|e] eqn:Hp.
    + intros H. by apply buildGraph_TypeError in H as [? ?].
    + intros [= ->]. by apply extract_Err in Hp as [? ?].
  - by intros ->.
Qed.

Lemma detectFormat_FormatError d :
  (∃ msg, detectFormat d = Err (FormatError msg)) ↔ format_rejected d.
Proof.
  unfold format_rejected, bundle_shape, no_flow_marker.
  destruct d as [|type schema objects].
  { split; [by intros [? ?]|by intros [? _]]. }
  assert ((∃ objs, objects = array objs) ∨
          (∀ objs, objects ≠ array objs)) as [[objs ->]|Hno].
  { destruct objects as [| |elems]; [by right|by right|].
    destruct (elements_cases elems) as [[objs ->]|Hnull]; [left; by exists objs|].
    right. intros objs [= ->]. by apply array_no_null in Hnull. }
  - rewrite (detectFormat_array _ objs) by done. simpl.
    case_bool_decide as Hty.
    + destruct (_ || _) eqn:Hex.
      * split; [by intros [? ?]|].
        intros [_ [[[?|?] _]|[_ Hnone]]]; try done.
        apply orb_true_iff in Hex as [Hex|Hex];
          apply existsb_has_type_true in Hex as (o & Ho & Hto);
          destruct (Hnone objs o eq_refl Ho); done.
      * split; [intros _|by eexists]. split; [done|]. right.
        split; [split; [done|by exists objs]|].
        intros objs' o ->%array_inj Ho.
        apply orb_false_iff in Hex as [H1 H2]. split; intros Hto.
        -- apply (existsb_has_type_false_inv _ _ H1 o Ho Hto).
        -- apply (existsb_has_type_false_inv _ _ H2 o Ho Hto).
    + destruct (truthy_key schema) eqn:Hs.
      * split; [by intros [? ?]|].
        intros [_ [[_ [?|?]]|[[? _] _]]]; done.
      * split; [intros _|by eexists]. split; [done|]. left.
        split; by left.
  - assert (∀ msg, detectFormat (Data type schema objects)
                   ≠ Err (FormatError msg) ∨
                   (type ≠ Some "bundle" ∨ truthy_objects objects = false) ∧
                   (truthy_key schema = false ∨ truthy_objects objects = false))
      as Hd.
    { intros msg. simpl. destruct objects as [| |elems]; simpl;
        rewrite ?andb_false_r, ?andb_true_r.
      - right. by split; right.
      - case_bool_decide; [by left|].
        destruct (truthy_key schema) eqn:Hs; [by left|]. right. by split; left.
      - case_bool_decide.
        + left.
          pose proof (some_has_type_spec "attack-flow" elems) as H1.
          pose proof (some_has_type_spec "attack-action" elems) as H2.
          destruct (some_has_type "attack-flow" elems) as [b1|e1];
            [|by destruct H1 as [_ ->]].
          destruct (some_has_type "attack-action" elems) as [b2|e2];
            [|by destruct H2 as [_ ->]].
          destruct b1; [done|]. destruct H1 as (objs & -> & _).
          by destruct (Hno objs).
        + destruct (truthy_key schema) eqn:Hs; [by left|].
          right. by split; left. }
    split.
    + intros [msg H]. split; [done|]. left.
      by destruct (Hd msg) as [?|?].
    + intros [_ [[H1 H2]|[[_ [objs ?]] _]]]; [|by destruct (Hno objs)].
      simpl in *.
      assert (bool_decide (type = Some "bundle") && truthy_objects objects
              = false) as ->.
      { destruct H1 as [?| ->]; [|by rewrite andb_false_r].
        by rewrite bool_decide_eq_false_2. }
      assert (truthy_key schema && truthy_objects objects = false) as ->.
      { destruct H2 as [->| ->]; [done|by rewrite andb_false_r]. }
      by eexists.
Qed.

(** Outside the two accepted shapes the constructor throws. *)
Lemma parse_rejected fuel d :
  rejected d → ∃ e, parse fuel d = Some (Err e).
Proof.
  intros [[Hnb Hna]|Hrej].
  - unfold parse. destruct (detectFormat d) as [f|e] eqn:Hd; [|by eexists].
    destruct (extract f (d_objects d)) as [p|e] eqn:Hp; [|by eexists].
    exfalso. apply extract_Ok in Hp as (objs & Hobjs & _).
    apply detectFormat_Ok in Hd as [_ Hd]. destruct f.
    + apply Hnb. split; [done|by exists objs].
    + apply Hna. split; [by destruct Hd|by exists objs].
  - assert (format_rejected d) as H.
    { split; [|by right]. intros ->. by destruct Hrej as [[[=] _] _]. }
    apply detectFormat_FormatError in H as [msg H].
    exists (FormatError msg). by apply parse_FormatError.
Qed.

(** C5, as the code has it.  An input that has neither accepted shape, and
    a bundle whose object list holds neither an [attack-flow] nor an
    [attack-action] object, make the constructor throw, whatever the fuel:
    no parser, hence no graph, is returned.  The error is one of the two
    format errors exactly when the input is not [null] and has neither the
    bundle type nor a schema next to a truthy [objects] member, or is a
    bundle whose [objects] member is an array of objects without flow
    marker; in the other cases it is a type error. *)
Theorem parse_format_error (fuel : nat) (d : RawData) :
  rejected d →
  (∃ e, parse fuel d = Some (Err e)) ∧
  (∀ p, parse fuel d ≠ Some (Ok p)) ∧
  ((∃ msg, parse fuel d = Some (Err (FormatError msg))) ↔ format_rejected d) ∧
  (¬ format_rejected d → ∃ msg, parse fuel d = Some (Err (TypeError msg))).
Proof.
  intros Hrej. destruct (parse_rejected fuel d Hrej) as [e He].
  assert ((∃ msg, parse fuel d = Some (Err (FormatError msg)))
          ↔ format_rejected d) as Hiff.
  { rewrite <- detectFormat_FormatError.
    split; intros [msg H]; exists msg;
      [by apply parse_FormatError in H|by apply parse_FormatError]. }
  split; [by exists e|]. split; [intros p; congruence|]. split; [done|].
  intros Hnot. destruct e as [msg|msg]; [|by exists msg].
  exfalso. apply Hnot, Hiff. by exists msg.
Qed.

(** The claim fails on [null], on a bundle whose [objects] member is no
    array, on a bundle with a [null] element, and on a document with a schema
    whose [objects] member is no array: none has an accepted shape, and the
    constructor throws a type error, for the last of them after detection
    has accepted it. *)
Lemma rejected_input_without_format_error :
  (rejected Null ∧ parse 0 Null = Some (Err (TypeError msg_null_member))) ∧
  (rejected bundle_without_array ∧
   parse 0 bundle_without_array = Some (Err (TypeError msg_some))) ∧
  (rejected bundle_with_null ∧
   parse 0 bundle_with_null = Some (Err (TypeError msg_null_member))) ∧
  (rejected builder_without_array ∧
   detectFormat builder_without_array = Ok AfbFormat ∧
   parse 0 builder_without_array = Some (Err (TypeError msg_find))).
Proof.
  assert (∀ d, (∀ objs, d_objects d ≠ array objs) → rejected d) as H.
  { intros d Hd. left. split; intros [_ [objs Ho]]; by destruct (Hd objs). }
  repeat split; try reflexivity; apply H; intros [|o objs]; done.
Qed.

(** The bundle with [objects: []] is rejected, with a format error. *)
Lemma parse_format_error_witness :
  rejected (bundle []) ∧
  (∃ e, parse 0 (bundle []) = Some (Err e)) ∧
  (∀ p, parse 0 (bundle []) ≠ Some (Ok p)) ∧
  ((∃ msg, parse 0 (bundle []) = Some (Err (FormatError msg)))
   ↔ format_rejected (bundle [])) ∧
  (¬ format_rejected (bundle []) →
   ∃ msg, parse 0 (bundle []) = Some (Err (TypeError msg))).
Proof.
  assert (rejected (bundle [])) as H.
  { right. split.
    - split; [reflexivity|]. by exists [].
    - intros objs o Hobjs Ho. apply (array_inj []) in Hobjs as <-.
      by apply elem_of_nil in Ho. }
  split; [exact H|]. exact (parse_format_error 0 (bundle []) H).
Defined.

(** ** Flow metadata *)

Lemma extract_spec f objs :
  let p := extract_pass f objs in
  format p = f ∧ graph p = mkGraph [] [] ∧
  length (actions p) = length (filter (action_level f) objs) ∧
  length (relationships p) = length (filter (relationship_level f) objs) ∧
  (attackFlow p = None ↔ Forall (λ o, ¬ flow_level f o) objs).
Proof.
  destruct f; simpl.
  - destruct (parseAttackFlow_spec objs (init_parser AttackFlowFormat))
      as (-> & -> & -> & -> & ->). simpl.
    repeat split; try done.
    + intros H. apply Forall_forall. intros o Ho Hty.
      assert (o ∈ filter (is_type "attack-flow") objs) as Hin
        by by apply list_elem_of_filter.
      destruct (filter (is_type "attack-flow") objs) as [|x l] using rev_ind.
      * by apply elem_of_nil in Hin.
      * by rewrite last_snoc in H.
    + intros H. rewrite Forall_forall in H.
      destruct (last _) as [o|] eqn:Hl; [|done].
      apply last_Some_elem_of, list_elem_of_filter in Hl as [Hty Ho].
      by destruct (H o Ho).
  - destruct (parseAFB_spec objs (init_parser AfbFormat))
      as (-> & -> & -> & -> & ->). simpl.
    rewrite !length_fmap. repeat split; try done.
    + intros H. apply Forall_forall. intros o Ho Htag.
      destruct (find (has_tag "flow") objs) as [x|] eqn:Hf; [done|].
      apply list_elem_of_In in Ho.
      apply (find_none _ _ Hf) in Ho. unfold has_tag in Ho.
      by rewrite bool_decide_eq_true_2 in Ho.
    + intros H. rewrite Forall_forall in H.
      destruct (find (has_tag "flow") objs) as [x|] eqn:Hf; [|done].
      apply find_some in Hf as [Hx Htag]. apply list_elem_of_In in Hx.
      unfold has_tag in Htag. apply bool_decide_eq_true_1 in Htag.
      by destruct (H x Hx).
Qed.

(** C10. Without a flow-level object in the document, [getFlowMetadata]
    returns [null]; with one, it returns a record whose counts are the
    numbers of extracted action and relationship records. *)
Theorem getFlowMetadata_counts (fuel : nat) (d : RawData) (p : Parser)
    (objs : list Obj) :
  parse fuel d = Some (Ok p) →
  d_objects d = array objs →
  (Forall (λ o, ¬ flow_level (format p) o) objs → getFlowMetadata p = None) ∧
  (Exists (flow_level (format p)) objs →
   ∃ m, getFlowMetadata p = Some m ∧
        m_actionCount m = length (actions p) ∧
        m_relationshipCount m = length (relationships p)) ∧
  length (actions p) = length (filter (action_level (format p)) objs) ∧
  length (relationships p) =
    length (filter (relationship_level (format p)) objs).
Proof.
  intros Hp Hobjs.
  apply parse_Ok in Hp as (f & objs' & Hd & Hobjs' & Hb).
  assert (objs' = objs) as -> by (apply array_inj; congruence).
  apply buildGraph_graph in Hb as (_ & Hfmt & _ & Hflow & Ha & Hr).
  destruct (extract_spec f objs) as (Hf & _ & Hla & Hlr & Hnone).
  rewrite Hfmt, Hf, Ha, Hr. unfold getFlowMetadata. rewrite Hflow.
  repeat split; try done.
  - intros H. apply Hnone in H. by rewrite H.
  - intros H. destruct (attackFlow (extract_pass f objs)) as [flow|] eqn:Hfl.
    + eexists. split; [done|]. simpl. by rewrite Ha, Hr.
    + exfalso. apply Exists_exists in H as (o & Ho & Hlvl).
      assert (Forall (λ o, ¬ flow_level f o) objs) as HF by by apply Hnone.
      rewrite Forall_forall in HF. by apply (HF o).
Qed.

(** ** Nodes of the built graph *)

Lemma make_node_id i a : n_id (built_node i a) = node_key a.
Proof. unfold built_node. by destruct (resolve_tactic a). Qed.

Lemma make_node_sequence i a : n_sequence (built_node i a) = i.
Proof. unfold built_node. by destruct (resolve_tactic a). Qed.

Lemma buildGraph_node_ids fuel p p' :
  buildGraph fuel p = Some (Ok p') →
  node_ids (graph p') = node_key <$> actions p.
Proof.
  intros H. apply buildGraph_nodes in H.
  unfold node_ids.
  transitivity (n_id <$> (strip <$> g_nodes (graph p'))).
  { rewrite <- list_fmap_compose. by apply list_fmap_ext. }
  rewrite H, fmap_imap, <- imap_const. apply imap_ext.
  intros i x _. apply make_node_id.
Qed.

Lemma initial_node_ids (acts : list Obj) :
  node_ids (mkGraph (imap built_node acts) []) = node_key <$> acts.
Proof.
  unfold node_ids. simpl. rewrite fmap_imap, <- imap_const.
  apply imap_ext. intros i x _. unfold compose, const. apply make_node_id.
Qed.


(** ** C8: nodes of a STIX document *)

(** C8. A valid STIX document with N [attack-action] objects yields a graph
    of exactly N nodes, whose identifiers are pairwise distinct and are, node
    by node, the identifiers of the source objects. *)
Theorem stix_nodes_match_actions (fuel : nat) (d : RawData)
    (objs : list Obj) (p : Parser) :
  d_type d = Some "bundle" →
  d_objects d = array objs →
  valid_stix_actions objs →
  parse fuel d = Some (Ok p) →
  length (g_nodes (graph p)) = length (filter (is_type "attack-action") objs) ∧
  NoDup (n_id <$> g_nodes (graph p)) ∧
  n_id <$> g_nodes (graph p) = o_id <$> filter (is_type "attack-action") objs.
Proof.
  intros Hty Hobjs [Hids Hnd] Hp.
  apply parse_Ok in Hp as (f & objs' & Hd & Hobjs' & Hb).
  assert (objs' = objs) as -> by (apply array_inj; congruence).
  destruct f; [|by destruct (detectFormat_Ok _ _ Hd) as (_ & ? & _)].
  pose proof (buildGraph_node_ids _ _ _ Hb) as Hn. unfold node_ids in Hn.
  simpl in Hn.
  destruct (parseAttackFlow_spec objs (init_parser AttackFlowFormat))
    as (_ & _ & Ha & _). rewrite Ha in Hn. simpl in Hn.
  assert (n_id <$> g_nodes (graph p)
          = o_id <$> filter (is_type "attack-action") objs) as Heq.
  { rewrite Hn. apply list_fmap_ext. intros i a Hi.
    apply list_elem_of_lookup_2, list_elem_of_filter in Hi as [Hact Hin].
    unfold node_key, key_or. by rewrite (Hids a Hin Hact). }
  split; [|split; [by rewrite Heq|done]].
  apply (f_equal length) in Heq. by rewrite !length_fmap in Heq.
Qed.

(** ** C7: edges of a builder document *)







(** ** C9: no dangling edge *)





(** An action whose first kill-chain phase carries no name makes the
    constructor throw after detection. *)
Example phase_without_name_throws :
  detectFormat nameless_phase_doc = Ok AttackFlowFormat ∧
  parse 1 nameless_phase_doc = Some (Err (TypeError msg_no_phase_name)).
Proof. split; vm_compute; reflexivity. Qed.

(** So does an action whose effect references are a string. *)
Example effect_refs_without_array_throw :
  detectFormat unlisted_effects_doc = Ok AttackFlowFormat ∧
  parse 1 unlisted_effects_doc = Some (Err (TypeError msg_refs_forEach)).
Proof. split; vm_compute; reflexivity. Qed.

(** ** C3: resolution through a condition *)

Lemma NoDup_fmap_elem_eq {A B} (f : A → B) (l : list A) x y :
  NoDup (f <$> l) → x ∈ l → y ∈ l → f x = f y → x = y.
Proof.
  induction l as [|a l IH]; csimpl; intros Hnd Hx Hy Hf.
  { by apply elem_of_nil in Hx. }
  apply NoDup_cons in Hnd as [Ha Hnd].
  apply elem_of_cons in Hx as [->|Hx]; apply elem_of_cons in Hy as [->|Hy];
    try done.
  - exfalso. apply Ha. rewrite Hf. by apply list_elem_of_fmap_2.
  - exfalso. apply Ha. rewrite <- Hf. by apply list_elem_of_fmap_2.
  - by apply IH.
Qed.

Lemma wf_ids_keys objs : wf_ids objs → NoDup (prop_key ∘ o_id <$> objs).
Proof.
  intros [Hids Hnd]. rewrite list_fmap_compose.
  apply NoDup_fmap_2_strong; [|done].
  intros x y Hx Hy Hxy.
  apply list_elem_of_fmap in Hx as (a & -> & Ha).
  apply list_elem_of_fmap in Hy as (b & -> & Hb).
  pose proof (Hids a Ha) as Hta. pose proof (Hids b Hb) as Htb.
  destruct (o_id a), (o_id b); simpl in *; congruence.
Qed.

Lemma followEffectChain_action fuel objs s A g g' :
  followEffectChain fuel objs s A g = Some (Ok g') →
  is_type "attack-action" A →
  s ∈ node_ids g → o_id A ∈ node_ids g →
  mkEdge s (o_id A) ∈ g_edges g'.
Proof.
  destruct fuel as [|fuel]; simpl; [done|].
  intros H Hty Hs Ht. unfold has_type in H. unfold is_type in Hty.
  rewrite Hty in H. simpl in H.
  repeat (case_bool_decide; try congruence).
  injection H as <-. by apply link_effect_edge.
Qed.

Lemma forEachRefs_elem {S : Type} (R : S → S → Prop)
    (f : string → S → option (result S)) (refs : RefList) l x :
  (∀ s, R s s) → (∀ s1 s2 s3, R s1 s2 → R s2 s3 → R s1 s3) →
  (∀ a s s', f a s = Some (Ok s') → R s s') →
  refs = Refs l → x ∈ l →
  ∀ s s', forEachRefs f refs s = Some (Ok s') →
  ∃ s1 s2, R s s1 ∧ f x s1 = Some (Ok s2) ∧ R s2 s'.
Proof.
  intros Hrefl Htrans Hf -> Hx s s' H. simpl in H.
  eapply forEachE_elem; eauto.
Qed.

(** A reference of a condition that resolves to an action yields the direct
    edge from the origin to that action. *)
Lemma followEffectChain_condition fuel objs s C g g' refs a A :
  followEffectChain fuel objs s C g = Some (Ok g') →
  is_type "attack-condition" C →
  o_on_true_refs C = Refs refs ∨ o_on_false_refs C = Refs refs →
  a ∈ refs → objs !! a = Some A → is_type "attack-action" A →
  s ∈ node_ids g → o_id A ∈ node_ids g →
  mkEdge s (o_id A) ∈ g_edges g'.
Proof.
  destruct fuel as [|fuel]; simpl; [done|].
  intros H Hty Hrefs Ha HA HtyA Hs Ht.
  set (follow := λ (ref : string) (g : Graph),
         match objs !! ref with
         | Some nextNode => followEffectChain fuel objs s nextNode g
         | None => Some (Ok g)
         end) in H.
  assert (Hfollow : ∀ a s s', follow a s = Some (Ok s') → step_ok s s').
  { intros r t t' Hr. unfold follow in Hr.
    destruct (objs !! r) as [next|]; [by eapply followEffectChain_ok|].
    injection Hr as <-. apply step_ok_refl. }
  assert (Hedge : ∀ t t', step_ok g t → follow a t = Some (Ok t') →
                          mkEdge s (o_id A) ∈ g_edges t').
  { intros t t' [Hgt _] Hrun. unfold follow in Hrun. rewrite HA in Hrun.
    eapply followEffectChain_action; eauto;
      by rewrite (grows_ids _ _ Hgt). }
  unfold has_type in H. rewrite bool_decide_eq_true_2 in H by done.
  destruct (forEachRefs follow (o_on_true_refs C) g) as [[g1|e1]|] eqn:H1;
    [|done|done].
  assert (step_ok g g1) as Hg1.
  { eapply forEachRefs_rel; eauto using step_ok_refl, step_ok_trans. }
  assert (step_ok g1 g') as Hg'.
  { eapply forEachRefs_rel; eauto using step_ok_refl, step_ok_trans. }
  destruct Hrefs as [Hrefs|Hrefs].
  - destruct (forEachRefs_elem step_ok follow _ refs a step_ok_refl
                step_ok_trans Hfollow Hrefs Ha g g1 H1)
      as (t & t' & Ht1 & Hrun & Ht2).
    apply (grows_edge g1 g'); [apply Hg'|].
    apply (grows_edge t' g1); [apply Ht2|]. by eapply Hedge.
  - destruct (forEachRefs_elem step_ok follow _ refs a step_ok_refl
                step_ok_trans Hfollow Hrefs Ha g1 g' H)
      as (t & t' & Ht1 & Hrun & Ht2).
    apply (grows_edge t' g'); [apply Ht2|].
    eapply Hedge; [|done]. by eapply step_ok_trans.
Qed.

Lemma buildAttackFlowEdges_condition fuel p g g' S refs c C brefs a A :
  buildAttackFlowEdges fuel p g = Some (Ok g') →
  S ∈ actions p → o_effect_refs S = Refs refs → c ∈ refs →
  objects p !! c = Some C → is_type "attack-condition" C →
  o_on_true_refs C = Refs brefs ∨ o_on_false_refs C = Refs brefs →
  a ∈ brefs → objects p !! a = Some A → is_type "attack-action" A →
  o_id S ∈ node_ids g → o_id A ∈ node_ids g →
  mkEdge (o_id S) (o_id A) ∈ g_edges g'.
Proof.
  unfold buildAttackFlowEdges.
  intros H HS Hrefs Hc HC HtyC Hb Ha HA HtyA Hs Ht.
  destruct (forEachE _ (actions p) g) as [[g1|e1]|] eqn:H1; [|done|done].
  injection H as <-.
  apply (grows_edge g1).
  { apply fold_left_step_ok. intros. apply link_relationship_ok. }
  destruct (forEachE_elem step_ok step_ok_refl step_ok_trans _ (actions p) S
              (λ a s s' _, action_effects_ok fuel (objects p) a s s')
              HS g g1 H1) as (t & t' & Hgt & Hrun & Ht').
  apply (grows_edge t' g1); [apply Ht'|].
  destruct (forEachRefs_elem step_ok _ _ refs c step_ok_refl step_ok_trans
              (λ r s s', follow_effect_ref_ok fuel (objects p) (o_id S) r s s')
              Hrefs Hc t t' Hrun) as (u & u' & Htu & Hrun' & Hu').
  apply (grows_edge u' t'); [apply Hu'|].
  unfold follow_effect_ref in Hrun'. rewrite HC in Hrun'.
  assert (grows g u) as Hgu by apply (step_ok_trans g t u Hgt Htu).
  eapply followEffectChain_condition; eauto;
    by rewrite (grows_ids _ _ Hgu).
Qed.

(** C3. In a STIX document where the action S refers to the condition C,
    whose true branch refers to the action A and whose false branch refers to
    the action B, the graph holds the direct edges (S, A) and (S, B), and the
    identifier of C is neither a node identifier nor an end of any edge. *)
Theorem condition_yields_direct_edges (fuel : nat) (d : RawData)
    (objs : list Obj) (p : Parser) (S C A B : Obj)
    (effectRefs trueRefs falseRefs : list string) (s c a b : string) :
  d_type d = Some "bundle" →
  d_objects d = array objs →
  wf_ids objs →
  parse fuel d = Some (Ok p) →
  S ∈ objs → is_type "attack-action" S → o_id S = Some s →
  o_effect_refs S = Refs effectRefs → c ∈ effectRefs →
  C ∈ objs → is_type "attack-condition" C → o_id C = Some c →
  o_on_true_refs C = Refs trueRefs → a ∈ trueRefs →
  o_on_false_refs C = Refs falseRefs → b ∈ falseRefs →
  A ∈ objs → is_type "attack-action" A → o_id A = Some a →
  B ∈ objs → is_type "attack-action" B → o_id B = Some b →
  mkEdge (Some s) (Some a) ∈ g_edges (graph p) ∧
  mkEdge (Some s) (Some b) ∈ g_edges (graph p) ∧
  (Some c ∉ (n_id <$> g_nodes (graph p))) ∧
  (∀ e, e ∈ g_edges (graph p) → e_source e ≠ Some c ∧ e_target e ≠ Some c).
Proof.
  intros Hty Hobjs Hwf Hp HS HtyS HidS Heff Hc HC HtyC HidC Htrue Ha
         Hfalse Hb HA HtyA HidA HB HtyB HidB.
  apply parse_Ok in Hp as (f & objs' & Hd & Hobjs' & Hbuild).
  assert (objs' = objs) as -> by (apply array_inj; congruence).
  destruct f; [|by destruct (detectFormat_Ok _ _ Hd) as (_ & ? & _)].
  pose proof (buildGraph_node_ids _ _ _ Hbuild) as Hids.
  pose proof (buildGraph_edges_ok _ _ _ Hbuild) as Hok.
  set (q := extract_pass AttackFlowFormat objs) in *.
  destruct (parseAttackFlow_spec objs (init_parser AttackFlowFormat))
    as (Hfmt & _ & Hacts & _). fold (extract_pass AttackFlowFormat objs) in Hfmt, Hacts.
  fold q in Hfmt, Hacts. simpl in Hacts.
  assert (Hkey : ∀ o, o ∈ objs → is_type "attack-action" o →
                      node_key o = o_id o).
  { intros o Ho _. unfold node_key, key_or.
    by rewrite (proj1 Hwf o Ho). }
  assert (Hact : ∀ o, o ∈ objs → is_type "attack-action" o →
                      o_id o ∈ node_key <$> actions q).
  { intros o Ho Hto. rewrite <- (Hkey o Ho Hto).
    apply list_elem_of_fmap_2. rewrite Hacts.
    by apply list_elem_of_filter. }
  assert (Htable : ∀ o, o ∈ objs →
                        objects q !! prop_key (o_id o) = Some o).
  { intros o Ho. apply parseAttackFlow_objects_NoDup; [|done].
    by apply wf_ids_keys. }
  pose proof (Htable C HC) as HtC. rewrite HidC in HtC. simpl in HtC.
  pose proof (Htable A HA) as HtA. rewrite HidA in HtA. simpl in HtA.
  pose proof (Htable B HB) as HtB. rewrite HidB in HtB. simpl in HtB.
  assert (Hedges : ∀ brefs x X,
            o_on_true_refs C = Refs brefs ∨ o_on_false_refs C = Refs brefs →
            x ∈ brefs → objects q !! x = Some X → X ∈ objs →
            is_type "attack-action" X →
            mkEdge (o_id S) (o_id X) ∈ g_edges (graph p)).
  { intros brefs x X Hbr Hx HtX HX HtyX.
    apply buildGraph_Ok in Hbuild as [_ Hbuild]. rewrite Hfmt in Hbuild.
    destruct Hbuild as (g' & Hg & ->). simpl.
    eapply (buildAttackFlowEdges_condition fuel q _ g' S effectRefs c C
              brefs x X); eauto.
    - rewrite Hacts. by apply list_elem_of_filter.
    - rewrite initial_node_ids. by apply Hact.
    - rewrite initial_node_ids. by apply Hact. }
  assert (Hnot : Some c ∉ node_ids (graph p)).
  { rewrite Hids. intros Hin.
    apply list_elem_of_fmap in Hin as (o & Hco & Ho).
    rewrite Hacts in Ho. apply list_elem_of_filter in Ho as [Hto Ho].
    rewrite (Hkey o Ho Hto) in Hco.
    assert (o = C) as ->.
    { apply (NoDup_fmap_elem_eq o_id objs); [apply Hwf|done|done|congruence]. }
    unfold is_type in *. congruence. }
  split; [|split; [|split]].
  - rewrite <- HidS, <- HidA. by apply (Hedges trueRefs a A); auto.
  - rewrite <- HidS, <- HidB. by apply (Hedges falseRefs b B); auto.
  - exact Hnot.
  - intros e He. destruct (Hok e He) as [Hs Ht].
    split; intros Heq; apply Hnot; by rewrite <- Heq.
Qed.

(** ** C1: termination of edge resolution *)





Lemma resolve_tactic_Ok a :
  phase_named a → ∃ t, resolve_tactic a = Ok t.
Proof.
  unfold phase_named, resolve_tactic.
  destruct (o_kill_chain_phases a) as [[|[phase|] phases]|]; try done;
    by eexists.
Qed.





(** ** C4: tactic resolution *)

(** C4, on the failing input.  The table names TA0001 [Initial Access], but
    the node built from the action takes the name and the identifier of its
    kill-chain phase. *)
Theorem kill_chain_phase_overrides_known_tactic :
  tacticMap_get (o_tactic_id conflicting_action)
  = Some (TName "Initial Access") ∧
  resolve_tactic conflicting_action = Ok (TName "Execution", VText "TA0002") ∧
  (n_tactic_name <$> g_nodes (graph (built 1 (bundle [conflicting_action]))))
    = [TName "Execution"].
Proof. repeat split; vm_compute; reflexivity. Qed.

(** Without kill-chain phase the name comes from the table, or is
    [Unknown]. *)
Lemma resolve_tactic_no_phase (action : Obj) :
  o_kill_chain_phases action = None ∨ o_kill_chain_phases action = Some [] →
  resolve_tactic action =
    Ok (default (TName "Unknown") (tacticMap_get (o_tactic_id action)),
        o_tactic_id action).
Proof. unfold resolve_tactic. by intros [->| ->]. Qed.

(** With a kill-chain phase the name is the title-cased first phase,
    whatever the tactic identifier. *)
Lemma resolve_tactic_phase (action : Obj) phaseName phases :
  o_kill_chain_phases action = Some (Some phaseName :: phases) →
  ∃ tacticId,
    resolve_tactic action = Ok (TName (titleCase phaseName), tacticId).
Proof. unfold resolve_tactic. intros ->. by eexists. Qed.

(** ** C6: grouping by tactic *)

(** The claim fails on [untyped_doc]: its node is named [Execution], yet
    [getTactics] returns no group at all. *)
Lemma node_without_technique_is_not_grouped :
  (n_tactic_name <$> g_nodes (graph (built 1 untyped_doc)))
  = [TName "Execution"] ∧
  parse 1 untyped_doc = Some (Ok (built 1 untyped_doc)) ∧
  getTactics (built 1 untyped_doc) = Ok [].
Proof. repeat split; vm_compute; reflexivity. Qed.

Section TacticsMap.
Context {K : Type} `{EqDecision K}.
Implicit Types (k : K) (m : list (K * list Node)).

Lemma tactics_get_push_eq k n m :
  tactics_get k (tactics_push k n m)
  = Some (default [] (tactics_get k m) ++ [n]).
Proof.
  induction m as [|[k' l] m IH]; simpl.
  - by rewrite bool_decide_eq_true_2.
  - case_bool_decide as Hk; simpl.
    + by rewrite bool_decide_eq_true_2.
    + by rewrite bool_decide_eq_false_2.
Qed.

Lemma tactics_get_push_ne k k' n m :
  k ≠ k' → tactics_get k' (tactics_push k n m) = tactics_get k' m.
Proof.
  intros Hne. induction m as [|[k0 l] m IH]; simpl.
  - by rewrite bool_decide_eq_false_2.
  - case_bool_decide as Hk; simpl.
    + subst k0. by rewrite !bool_decide_eq_false_2.
    + by rewrite IH.
Qed.

Lemma tactics_get_None k m : tactics_get k m = None ↔ k ∉ (fst <$> m).
Proof.
  induction m as [|[k' l] m IH]; csimpl.
  - split; [intros _; apply not_elem_of_nil|done].
  - rewrite not_elem_of_cons. case_bool_decide as Hk.
    + subst. split; [done|by intros [? _]].
    + rewrite IH. split; [|by intros [_ ?]].
      intros H1. split; [congruence|done].
Qed.

Lemma tactics_push_keys k n m :
  fst <$> tactics_push k n m
  = if decide (k ∈ fst <$> m) then fst <$> m else (fst <$> m) ++ [k].
Proof.
  induction m as [|[k' l] m IH]; csimpl.
  - done.
  - case_bool_decide as Hk; csimpl.
    + subst k'.
      destruct (decide (k ∈ k :: (fst <$> m))) as [H1|H1]; [done|].
      exfalso. apply H1. by left.
    + rewrite IH.
      destruct (decide (k ∈ fst <$> m)) as [Hin|Hin];
        destruct (decide (k ∈ k' :: (fst <$> m))) as [H1|H1]; try done.
      * exfalso. apply H1. by right.
      * apply elem_of_cons in H1 as [->|H1]; done.
Qed.

Lemma tactics_push_NoDup k n m :
  NoDup (fst <$> m) → NoDup (fst <$> tactics_push k n m).
Proof.
  intros H1. rewrite tactics_push_keys. case_decide; [done|].
  apply NoDup_app. split; [done|]. split; [|apply NoDup_singleton].
  intros x Hx Hx'. apply list_elem_of_singleton in Hx'. by subst.
Qed.

End TacticsMap.

(** What the loop of [getTactics] adds to each entry of the map. *)
Lemma getTactics_loop_spec nodes :
  ∀ m m', getTactics_loop nodes m = Ok m' →
    (NoDup (fst <$> m) → NoDup (fst <$> m')) ∧
    ∀ k, default [] (tactics_get k m')
         = default [] (tactics_get k m) ++ filter (grouped_under k) nodes ∧
         (tactics_get k m' = None ↔
          tactics_get k m = None ∧ filter (grouped_under k) nodes = []).
Proof.
  induction nodes as [|n nodes IH]; intros m m' H; simpl in H.
  { injection H as <-. split; [done|]. intros k.
    rewrite app_nil_r. split; [done|]. by split; [|intros [? _]]. }
  destruct (getTactics_step m n) as [m1|e] eqn:Hstep; [|done].
  destruct (IH m1 m' H) as [Hnd Hk]. unfold getTactics_step in Hstep.
  destruct (truthy (n_technique_id n)) eqn:Htech.
  - destruct (tactic_key n) as [kn|e] eqn:Hkey; [|done].
    injection Hstep as <-. split.
    { intros Hm. by apply Hnd, tactics_push_NoDup. }
    intros k. destruct (Hk k) as [Hk1 Hk2]. rewrite Hk1, Hk2, filter_cons.
    destruct (decide (kn = k)) as [->|Hne].
    + rewrite tactics_get_push_eq. simpl.
      rewrite decide_True by done. rewrite <- app_assoc. split; [done|].
      split; [by intros [? _]|by intros [_ ?]].
    + rewrite tactics_get_push_ne by done.
      rewrite decide_False; [done|]. intros [_ Hk']. congruence.
  - injection Hstep as <-. split; [done|].
    intros k. destruct (Hk k) as [Hk1 Hk2]. rewrite Hk1, Hk2, filter_cons.
    rewrite decide_False; [done|]. intros [Ht _]. congruence.
Qed.

Lemma built_nodes_NoDup fuel p p' :
  buildGraph fuel p = Some (Ok p') → NoDup (g_nodes (graph p')).
Proof.
  intros H. apply buildGraph_nodes in H.
  apply (NoDup_fmap_1 n_sequence).
  replace (n_sequence <$> g_nodes (graph p'))
    with (n_sequence <$> (strip <$> g_nodes (graph p')))
    by (rewrite <- list_fmap_compose; by apply list_fmap_ext).
  rewrite H, fmap_imap.
  assert (∀ (l : list Obj) k, imap (λ i _, k + i) l = seq k (length l)) as Hseq.
  { clear. induction l as [|a l IH]; intros k; csimpl; [done|].
    rewrite Nat.add_0_r. f_equal. rewrite <- IH. apply imap_ext.
    intros. unfold compose. lia. }
  rewrite (imap_ext _ (λ i _, 0 + i));
    [|intros; unfold compose; by rewrite make_node_sequence].
  rewrite Hseq. apply NoDup_seq.
Qed.

(** The body of the loop returns on a node that is [groupable], and throws
    a type error on any other. *)
Lemma getTactics_step_groupable m n :
  (groupable n → ∃ m', getTactics_step m n = Ok m') ∧
  (¬ groupable n → ∃ msg, getTactics_step m n = Err (TypeError msg)).
Proof.
  unfold groupable, getTactics_step, tactic_key, inferTactic.
  destruct (truthy (n_technique_id n)) eqn:Htech.
  - destruct (truthy_name (n_tactic_name n)) eqn:Hname.
    + split; [by eexists|]. intros Hnot. exfalso. apply Hnot. right. by left.
    + simpl. destruct (n_technique_id n) as [| |s| |] eqn:Hid; try done.
      * split; [by eexists|]. intros Hnot. exfalso. apply Hnot. by do 2 right.
      * split; [by intros [?|[?|?]]|by eexists].
      * split; [by intros [?|[?|?]]|by eexists].
  - split; [by eexists|]. intros Hnot. exfalso. apply Hnot. by left.
Qed.

(** [getTactics] returns exactly when every node is [groupable]: unless a
    node with an empty tactic name carries a technique identifier that is
    not a string. *)
Lemma getTactics_loop_returns nodes :
  ∀ m, (Forall groupable nodes → ∃ m', getTactics_loop nodes m = Ok m') ∧
       (¬ Forall groupable nodes →
        ∃ msg, getTactics_loop nodes m = Err (TypeError msg)).
Proof.
  induction nodes as [|n nodes IH]; intros m; simpl.
  { split; [by eexists|]. intros Hnot. by destruct Hnot. }
  destruct (getTactics_step_groupable m n) as [Hok Herr].
  destruct (decide (groupable n)) as [Hn|Hn].
  - destruct (Hok Hn) as [m1 ->]. destruct (IH m1) as [IH1 IH2]. split.
    + intros Hall. apply IH1. by apply Forall_cons in Hall as [_ ?].
    + intros Hnot. apply IH2. intros Hall. apply Hnot. by constructor.
  - destruct (Herr Hn) as [msg ->]. split; [|by eexists].
    intros Hall. by apply Forall_cons in Hall as [? _].
Qed.

(** C6, as the code has it.  [getTactics] returns unless a node with an
    empty tactic name carries a technique identifier that is truthy and no
    string, on which it throws a type error.  When it returns it has grouped
    the nodes that carry a technique identifier: each of them is stored
    once, under its tactic name (under the tactic inferred from the
    technique when the name is empty), and a group lists its nodes in the
    order of the node collection.  A node without technique identifier is in
    no group. *)
Theorem getTactics_groups_nodes_with_technique (fuel : nat) (d : RawData)
    (p : Parser) :
  parse fuel d = Some (Ok p) →
  ((∃ m, getTactics p = Ok m) ↔ Forall groupable (g_nodes (graph p))) ∧
  (¬ Forall groupable (g_nodes (graph p)) →
   ∃ msg, getTactics p = Err (TypeError msg)) ∧
  ∀ m, getTactics p = Ok m →
    NoDup (fst <$> m) ∧
    (∀ k grp, tactics_get k m = Some grp →
              grp = filter (grouped_under k) (g_nodes (graph p)) ∧
              grp ≠ [] ∧ NoDup grp) ∧
    (∀ n, n ∈ g_nodes (graph p) → truthy (n_technique_id n) = true →
          ∃ k grp, tactic_key n = Ok k ∧ tactics_get k m = Some grp ∧
                   n ∈ grp) ∧
    (∀ n k grp, tactics_get k m = Some grp → n ∈ grp →
                truthy (n_technique_id n) = true).
Proof.
  intros Hp.
  destruct (getTactics_loop_returns (g_nodes (graph p)) []) as [Hret Hthrow].
  split; [|split; [exact Hthrow|]].
  { split; [|exact Hret]. intros [m Hm].
    destruct (decide (Forall groupable (g_nodes (graph p)))) as [|Hnot];
      [done|].
    destruct (Hthrow Hnot) as [msg Hmsg]. unfold getTactics in Hm. congruence. }
  intros m Hm. apply parse_Ok in Hp as (f & objs & _ & _ & Hb).
  apply built_nodes_NoDup in Hb. unfold getTactics in Hm.
  destruct (getTactics_loop_spec _ _ _ Hm) as [Hnd Hspec].
  assert (Hgrp : ∀ k grp, tactics_get k m = Some grp →
                          grp = filter (grouped_under k) (g_nodes (graph p)) ∧
                          grp ≠ []).
  { intros k grp Hk. destruct (Hspec k) as [H1 H2].
    rewrite Hk in H1. simpl in H1. split; [done|].
    intros ->. symmetry in H1.
    assert (tactics_get k m = None) as Hnone by (apply H2; by split).
    congruence. }
  split; [apply Hnd; constructor|]. split; [|split].
  - intros k grp Hk. destruct (Hgrp k grp Hk) as [-> Hne].
    split; [done|]. split; [done|]. by apply NoDup_filter.
  - intros n Hn Htech.
    assert (∃ k, tactic_key n = Ok k) as [k Hk].
    { destruct (tactic_key n) as [k|e] eqn:Hkey; [by exists k|].
      exfalso. revert Hm Hn Hkey Htech. clear.
      generalize (@nil (TacticName * list Node)).
      induction (g_nodes (graph p)) as [|x l IH]; intros m0 Hm Hn Hkey Htech.
      { by apply elem_of_nil in Hn. }
      simpl in Hm. apply elem_of_cons in Hn as [<-|Hn].
      - unfold getTactics_step in Hm. by rewrite Htech, Hkey in Hm.
      - destruct (getTactics_step m0 x) as [m1|]; [|done]. by eapply IH. }
    assert (n ∈ filter (grouped_under k) (g_nodes (graph p))) as Hin.
    { apply list_elem_of_filter. by split. }
    destruct (tactics_get k m) as [grp|] eqn:Hget.
    + exists k, grp. destruct (Hgrp k grp Hget) as [-> _]. done.
    + destruct (Hspec k) as [_ H2]. apply H2 in Hget as [_ Hnil].
      rewrite Hnil in Hin. by apply elem_of_nil in Hin.
  - intros n k grp Hk Hn. destruct (Hgrp k grp Hk) as [-> _].
    by apply list_elem_of_filter in Hn as [[? _] _].
Qed.

(** A built graph on which [getTactics] throws: the technique identifier of
    the node is an empty array and its kill-chain phase has the empty
    name. *)
Example getTactics_throws_on_built_graph :
  parse 1 unnamed_doc = Some (Ok (built 1 unnamed_doc)) ∧
  (n_tactic_name <$> g_nodes (graph (built 1 unnamed_doc))) = [TName ""] ∧
  ¬ Forall groupable (g_nodes (graph (built 1 unnamed_doc))) ∧
  ∃ msg, getTactics (built 1 unnamed_doc) = Err (TypeError msg).
Proof.
  split; [vm_compute; reflexivity|]. split; [vm_compute; reflexivity|].
  split; [|eexists; vm_compute; reflexivity].
  apply (bool_decide_unpack _). vm_compute. exact I.
Qed.

(** ** C2: the action sequence *)

Lemma visit_post_refl nodes st : visit_post nodes st st.
Proof.
  exists []. split; [constructor|]. split; [by intros k Hk%elem_of_nil|].
  split; [set_solver|done].
Qed.

Lemma visit_post_trans nodes st1 st2 st3 :
  visit_post nodes st1 st2 → visit_post nodes st2 st3 →
  visit_post nodes st1 st3.
Proof.
  intros (L1 & Hnd1 & Hd1 & Hv1 & Hs1) (L2 & Hnd2 & Hd2 & Hv2 & Hs2).
  exists (L2 ++ L1). split; [|split; [|split]].
  - apply NoDup_app. split; [done|]. split; [|done].
    intros k Hk2 Hk1. apply (Hd2 k Hk2). rewrite Hv1. set_solver.
  - intros k Hk%elem_of_app. destruct Hk as [Hk|Hk]; [|by apply Hd1].
    intros Hin. apply (Hd2 k Hk). rewrite Hv1. set_solver.
  - rewrite Hv2, Hv1. set_solver.
  - by rewrite Hs2, Hs1, fmap_app, app_assoc.
Qed.

Lemma visit_post_subseteq nodes st st' :
  visit_post nodes st st' → visited st ⊆ visited st'.
Proof. intros (L & _ & _ & -> & _). set_solver. Qed.

Lemma visit_spec fuel nodes :
  ∀ nodeId st st',
    visit fuel nodes nodeId st = Some st' →
    visit_post nodes st st' ∧ nodeId ∈ visited st'.
Proof.
  induction fuel as [|fuel IH]; intros k st st' H; simpl in H; [done|].
  case_bool_decide as Hk.
  { injection H as <-. split; [apply visit_post_refl|done]. }
  set (st1 := mkVisit ({[k]} ∪ visited st) (sequence st)) in H.
  assert (∃ st2, visit_post nodes st1 st2 ∧
                 st' = mkVisit (visited st2)
                               (nodeMap_get k nodes :: sequence st2))
    as (st2 & (L & Hnd & Hd & Hv & Hs) & ->).
  { destruct (nodeMap_get k nodes) as [n|].
    - destruct (forEachM (visit fuel nodes) (n_children n) st1) as [st2|]
        eqn:Hrun; [|done].
      injection H as <-. exists st2. split; [|done].
      eapply (forEachM_rel (visit_post nodes));
        eauto using visit_post_refl, visit_post_trans.
      intros a s s' _ Ha. by apply IH in Ha as [? _].
    - injection H as <-. exists st1. split; [apply visit_post_refl|done]. }
  simpl in *. split; [|rewrite Hv; set_solver].
  exists (k :: L). split; [|split; [|split]].
  - apply NoDup_cons. split; [|done]. intros HkL. apply (Hd k HkL).
    set_solver.
  - intros x Hx%elem_of_cons. destruct Hx as [->|Hx]; [done|].
    specialize (Hd x Hx). set_solver.
  - simpl. rewrite Hv. set_solver.
  - simpl. by rewrite Hs.
Qed.

Lemma visit_post_of_visit fuel nodes a s s' :
  visit fuel nodes a s = Some s' → visit_post nodes s s'.
Proof. intros H. by apply visit_spec in H as [? _]. Qed.

Lemma forEachM_Some_ext {A S : Type} (f g : A → S → option S) (l : list A) :
  (∀ a s s', f a s = Some s' → g a s = Some s') →
  ∀ s s', forEachM f l s = Some s' → forEachM g l s = Some s'.
Proof.
  intros Hfg. induction l as [|a l IH]; intros s s' H; simpl in *; [done|].
  destruct (f a s) as [t|] eqn:Ha; [|done].
  rewrite (Hfg a s t Ha). by apply IH.
Qed.

Lemma forEachE_Some_ext {A S : Type} (f g : A → S → option (result S))
    (l : list A) :
  (∀ a s r, f a s = Some r → g a s = Some r) →
  ∀ s r, forEachE f l s = Some r → forEachE g l s = Some r.
Proof.
  intros Hfg. induction l as [|a l IH]; intros s r H; simpl in *; [done|].
  destruct (f a s) as [[t|e]|] eqn:Ha; [| |done].
  - rewrite (Hfg a s _ Ha). by apply IH.
  - by rewrite (Hfg a s _ Ha).
Qed.

(** More fuel does not change the result of a run that returned. *)
Lemma visit_mono fuel nodes :
  ∀ (fuel' : nat) nodeId st st',
    (fuel ≤ fuel')%nat →
    visit fuel nodes nodeId st = Some st' →
    visit fuel' nodes nodeId st = Some st'.
Proof.
  induction fuel as [|fuel IH]; intros fuel' k st st' Hle H; [done|].
  destruct fuel' as [|fuel']; [lia|]. simpl in *.
  case_bool_decide; [done|].
  destruct (nodeMap_get k nodes) as [n|]; [|done].
  destruct (forEachM (visit fuel nodes) (n_children n) _) as [st2|] eqn:Hrun;
    [|done].
  erewrite (forEachM_Some_ext (visit fuel nodes) (visit fuel' nodes));
    [done| |done].
  intros a s s'. apply IH. lia.
Qed.

(** With the identifiers of the children inside a finite universe, [visit]
    returns when the fuel exceeds the number of unmarked identifiers. *)
Lemma visit_total (nodes : list Node) (U : gset key) :
  (∀ k n c, nodeMap_get k nodes = Some n → c ∈ n_children n → c ∈ U) →
  ∀ (fuel : nat) nodeId st,
    nodeId ∈ U → (size (U ∖ visited st) < fuel)%nat →
    ∃ st', visit fuel nodes nodeId st = Some st'.
Proof.
  intros Hclosed. induction fuel as [|fuel IH]; intros k st Hk Hlt; [lia|].
  simpl. case_bool_decide as Hv; [by eexists|].
  set (st1 := mkVisit ({[k]} ∪ visited st) (sequence st)).
  assert (size (U ∖ visited st1) < fuel) as Hlt1.
  { assert (U ∖ visited st1 ⊂ U ∖ visited st) as Hsub by (simpl; set_solver).
    apply subset_size in Hsub. lia. }
  destruct (nodeMap_get k nodes) as [n|] eqn:Hn; [|by eexists].
  destruct (forEachM_total (λ s, visited st1 ⊆ visited s)
              (visit fuel nodes) (n_children n)) with (s := st1)
    as (st2 & -> & _); [|done|by eexists].
  intros c s Hc Hs.
  destruct (IH c s) as [s' Hs']; [by eapply Hclosed| |].
  - assert (size (U ∖ visited s) ≤ size (U ∖ visited st1)) as Hle
      by (apply subseteq_size; set_solver).
    lia.
  - exists s'. split; [done|].
    apply visit_post_of_visit, visit_post_subseteq in Hs'. set_solver.
Qed.

Section Establish.
Context {A S : Type}.
Variable R : S → S → Prop.
Variable Q : A → S → Prop.
Hypothesis R_refl : ∀ s, R s s.
Hypothesis R_trans : ∀ s1 s2 s3, R s1 s2 → R s2 s3 → R s1 s3.
Hypothesis Q_stable : ∀ a s s', Q a s → R s s' → Q a s'.

(** What each run of the body establishes, and later runs keep, holds of
    every element after the loop. *)
Lemma forEachM_establish (f : A → S → option S) (l : list A) :
  (∀ a s s', f a s = Some s' → R s s' ∧ Q a s') →
  ∀ s s', forEachM f l s = Some s' → R s s' ∧ ∀ a, a ∈ l → Q a s'.
Proof.
  intros Hf. induction l as [|a l IH]; intros s s' H; simpl in H.
  { injection H as <-. split; [apply R_refl|]. by intros a Ha%elem_of_nil. }
  destruct (f a s) as [t|] eqn:Ha; [|done].
  destruct (Hf a s t Ha) as [Hst Hq]. destruct (IH t s' H) as [Hts Hall].
  split; [by eapply R_trans|].
  intros b Hb%elem_of_cons. destruct Hb as [->|Hb]; [|by apply Hall].
  by eapply Q_stable.
Qed.
End Establish.

Lemma fmap_Ok_Some {A} (o : option A) (a : A) :
  Ok <$> o = Some (Ok a) → o = Some a.
Proof. destruct o; simpl; congruence. Qed.

Lemma visit_start_refs_post fuel p st st' :
  visit_start_refs fuel p st = Some (Ok st') →
  visit_post (g_nodes (graph p)) st st'.
Proof.
  unfold visit_start_refs. destruct (attackFlow p) as [flow|].
  - apply forEachRefs_rel; eauto using visit_post_refl, visit_post_trans.
    intros a s s' H. destruct (objects p !! a) as [o|].
    + destruct (has_type "attack-action" o);
        [apply fmap_Ok_Some in H; by eapply visit_post_of_visit|].
      injection H as <-. apply visit_post_refl.
    + injection H as <-. apply visit_post_refl.
  - intros [= <-]. apply visit_post_refl.
Qed.

Lemma visit_roots_post fuel p st st' :
  visit_roots fuel p st = Some st' → visit_post (g_nodes (graph p)) st st'.
Proof.
  unfold visit_roots. destruct (_ || _).
  - apply forEachM_rel; eauto using visit_post_refl, visit_post_trans.
    intros a s s' _. apply visit_post_of_visit.
  - intros [= <-]. apply visit_post_refl.
Qed.

Lemma visit_remaining_post fuel p st st' :
  visit_remaining fuel p st = Some st' →
  visit_post (g_nodes (graph p)) st st' ∧
  ∀ n, n ∈ g_nodes (graph p) → n_id n ∈ visited st'.
Proof.
  unfold visit_remaining.
  apply (forEachM_establish (visit_post (g_nodes (graph p)))
           (λ n s, n_id n ∈ visited s));
    eauto using visit_post_refl, visit_post_trans.
  - intros a s s' Ha Hs. apply visit_post_subseteq in Hs. set_solver.
  - intros a s s' H. case_bool_decide.
    + injection H as <-. split; [apply visit_post_refl|done].
    + by apply visit_spec in H.
Qed.

(** The state after a run of [getActionSequence] that returned. *)
Lemma visit_all_spec fuel p st :
  visit_all fuel p = Some (Ok st) →
  ∃ L : list key,
    NoDup L ∧
    sequence st = (λ k, nodeMap_get k (g_nodes (graph p))) <$> L ∧
    ∀ n, n ∈ g_nodes (graph p) → n_id n ∈ L.
Proof.
  unfold visit_all. intros H.
  destruct (visit_start_refs fuel p _) as [[st1|e1]|] eqn:H1; [|done|done].
  destruct (visit_roots fuel p st1) as [st2|] eqn:H2; [|done].
  apply fmap_Ok_Some in H.
  apply visit_start_refs_post in H1. apply visit_roots_post in H2.
  apply visit_remaining_post in H as [H3 Hall].
  destruct (visit_post_trans _ _ _ _
              (visit_post_trans _ _ _ _ H1 H2) H3)
    as (L & Hnd & _ & Hv & Hs).
  exists L. simpl in Hs, Hv. rewrite app_nil_r in Hs.
  split; [done|]. split; [done|].
  intros n Hn. specialize (Hall n Hn). rewrite Hv in Hall. set_solver.
Qed.

Lemma visit_start_refs_mono (fuel fuel' : nat) p st r :
  (fuel ≤ fuel')%nat →
  visit_start_refs fuel p st = Some r → visit_start_refs fuel' p st = Some r.
Proof.
  intros Hle. unfold visit_start_refs.
  destruct (attackFlow p) as [flow|]; [|done].
  destruct (o_start_refs flow) as [| |l]; [done..|]. simpl.
  apply forEachE_Some_ext. intros a s r'.
  destruct (objects p !! a) as [o|]; [|done].
  destruct (has_type "attack-action" o); [|done].
  destruct (visit fuel _ _ s) as [s'|] eqn:Hs; [|done].
  by rewrite (visit_mono _ _ _ _ _ _ Hle Hs).
Qed.

Lemma visit_all_mono (fuel fuel' : nat) p r :
  (fuel ≤ fuel')%nat → visit_all fuel p = Some r → visit_all fuel' p = Some r.
Proof.
  intros Hle. unfold visit_all. intros H.
  destruct (visit_start_refs fuel p _) as [[st1|e1]|] eqn:H1; [| |done].
  - rewrite (visit_start_refs_mono _ _ _ _ _ Hle H1).
    destruct (visit_roots fuel p st1) as [st2|] eqn:H2; [|done].
    assert (visit_roots fuel' p st1 = Some st2) as ->.
    { revert H2. unfold visit_roots. destruct (_ || _); [|done].
      apply forEachM_Some_ext. intros a s s'. by apply visit_mono. }
    destruct (visit_remaining fuel p st2) as [st3|] eqn:H3; [|done].
    assert (visit_remaining fuel' p st2 = Some st3) as ->; [|done].
    revert H3. unfold visit_remaining.
    apply forEachM_Some_ext. intros a s s'.
    case_bool_decide; [done|]. by apply visit_mono.
  - by rewrite (visit_start_refs_mono _ _ _ _ _ Hle H1).
Qed.

(** With fuel above the number of identifiers the traversals finish; they
    throw exactly when the start references are no array. *)
Lemma visit_all_total p fuel :
  sequence_fuel p ≤ fuel →
  ∃ r, visit_all fuel p = Some r ∧
       match r with
       | Ok _ => ¬ starts_not_array p
       | Err e => starts_not_array p ∧ e = TypeError msg_refs_forEach
       end.
Proof.
  intros Hfuel. set (U := sequence_universe p).
  set (nodes := g_nodes (graph p)).
  assert (Hclosed : ∀ k n c, nodeMap_get k nodes = Some n →
                             c ∈ n_children n → c ∈ U).
  { intros k n c Hn Hc. apply nodeMap_get_Some in Hn as [Hn _].
    unfold U, sequence_universe. rewrite elem_of_list_to_set, !elem_of_app.
    right. right. apply list_elem_of_bind. by exists n. }
  assert (Hnode : ∀ n, n ∈ nodes → n_id n ∈ U).
  { intros n Hn. unfold U, sequence_universe.
    rewrite elem_of_list_to_set, !elem_of_app. right. left.
    by apply list_elem_of_fmap_2. }
  assert (Hvisit : ∀ k s, k ∈ U → ∃ s', visit fuel nodes k s = Some s').
  { intros k s Hk. apply (visit_total nodes U Hclosed); [done|].
    assert (size (U ∖ visited s) ≤ size U) by (apply subseteq_size; set_solver).
    unfold sequence_fuel in Hfuel. fold U in Hfuel. lia. }
  unfold visit_all.
  assert (∃ r1, visit_start_refs fuel p (mkVisit ∅ []) = Some r1 ∧
                match r1 with
                | Ok _ => ¬ starts_not_array p
                | Err e => starts_not_array p ∧ e = TypeError msg_refs_forEach
                end) as (r1 & -> & Hr1).
  { unfold visit_start_refs, starts_not_array.
    destruct (attackFlow p) as [flow|] eqn:Hflow.
    2:{ eexists. split; [done|]. by intros (flow & [=] & _). }
    destruct (o_start_refs flow) as [| |l] eqn:Hl; simpl.
    - eexists. split; [done|]. intros (flow' & [= <-] & H). congruence.
    - eexists. split; [done|]. split; [by exists flow|done].
    - destruct (forEachE_total (λ _, True)
                  (λ startRef st,
                     match objects p !! startRef with
                     | Some startNode =>
                         if has_type "attack-action" startNode
                         then Ok <$> visit fuel nodes (Some startRef) st
                         else Some (Ok st)
                     | None => Some (Ok st)
                     end) l) with (s := mkVisit ∅ [])
        as (st1 & Hst1 & _); [|done|].
      + intros r s Hr _. destruct (objects p !! r) as [o|]; [|by eexists].
        destruct (has_type "attack-action" o); [|by eexists].
        destruct (Hvisit (Some r) s) as [s' Hs'].
        { unfold U, sequence_universe. rewrite Hflow. simpl. rewrite Hl.
          rewrite elem_of_list_to_set, !elem_of_app. left.
          by apply list_elem_of_fmap_2. }
        exists s'. by rewrite Hs'.
      + exists (Ok st1). split; [done|].
        intros (flow' & [= <-] & H). congruence. }
  destruct r1 as [st1|e1]; [|by eexists].
  assert (∃ st2, visit_roots fuel p st1 = Some st2) as [st2 ->].
  { unfold visit_roots. destruct (_ || _); [|by eexists].
    destruct (forEachM_total (λ _, True)
                (λ node st, visit fuel nodes (n_id node) st)
                (filter (λ n, n_id n ∉ (list_to_set
                           (e_target <$> g_edges (graph p)) : gset key))
                        nodes)) with (s := st1)
      as (st2 & Hst2 & _); [|done|by exists st2].
    intros n s Hn%list_elem_of_filter _.
    destruct (Hvisit (n_id n) s) as [s' Hs']; [apply Hnode, Hn|].
    by exists s'. }
  unfold visit_remaining.
  destruct (forEachM_total (λ _, True)
              (λ node st,
                 if bool_decide (n_id node ∈ visited st) then Some st
                 else visit fuel nodes (n_id node) st)
              nodes) with (s := st2) as (st3 & Hst3 & _); [|done|].
  - intros n s Hn _. case_bool_decide; [by exists s|].
    destruct (Hvisit (n_id n) s) as [s' Hs']; [by apply Hnode|]. by exists s'.
  - exists (Ok st3). unfold nodes in Hst3. by rewrite Hst3.
Qed.

(** The result of [getActionSequence], whatever the fuel that lets it
    finish. *)
Lemma getActionSequence_result p :
  ∃ r, (∀ fuel, sequence_fuel p ≤ fuel → visit_all fuel p = Some r) ∧
       (∀ fuel r', visit_all fuel p = Some r' → r' = r) ∧
       match r with
       | Ok _ => ¬ starts_not_array p
       | Err e => starts_not_array p ∧ e = TypeError msg_refs_forEach
       end.
Proof.
  destruct (visit_all_total p (sequence_fuel p)) as (r & Hr & Hwhich); [done|].
  exists r. split; [|split; [|done]].
  - intros fuel Hle. by apply (visit_all_mono _ fuel) in Hr.
  - intros fuel r' Hr'.
    pose proof (visit_all_mono _ (max fuel (sequence_fuel p)) p r'
                  (Nat.le_max_l _ _) Hr') as H1.
    pose proof (visit_all_mono _ (max fuel (sequence_fuel p)) p r
                  (Nat.le_max_r _ _) Hr) as H2.
    congruence.
Qed.

Lemma omap_nodeMap_get_ids nodes (L : list key) :
  n_id <$> omap id ((λ k, nodeMap_get k nodes) <$> L)
  = filter (λ k, is_Some (nodeMap_get k nodes)) L.
Proof.
  induction L as [|k L IH]; csimpl; [done|].
  rewrite filter_cons. destruct (nodeMap_get k nodes) as [n|] eqn:Hn; csimpl.
  - apply nodeMap_get_Some in Hn as [_ ->]. by rewrite IH.
  - exact IH.
Qed.

(** C2, as the code has it.  [getActionSequence] finishes on every graph,
    cyclic or not, and any two runs that finish agree.  It throws exactly
    when the flow object declares its start references in a value that is
    no array.  Otherwise it returns: the identifier of every node occurs
    exactly once among the identifiers of the output; the output holds
    exactly the nodes that [nodeMap] holds for their identifier (of the
    nodes that share an identifier, the last one of the collection); and
    when the node identifiers are pairwise distinct the output is a
    permutation of the node collection. *)
Theorem getActionSequence_lists_every_node_once (p : Parser) :
  ∃ r : result (list Node),
    (∀ fuel, sequence_fuel p ≤ fuel → getActionSequence fuel p = Some r) ∧
    (∀ fuel r', getActionSequence fuel p = Some r' → r' = r) ∧
    match r with
    | Err e => starts_not_array p ∧ e = TypeError msg_refs_forEach
    | Ok out =>
        ¬ starts_not_array p ∧
        NoDup (n_id <$> out) ∧
        (∀ n, n ∈ g_nodes (graph p) → n_id n ∈ n_id <$> out) ∧
        (∀ n, n ∈ out ↔ nodeMap_get (n_id n) (g_nodes (graph p)) = Some n) ∧
        (NoDup (n_id <$> g_nodes (graph p)) → out ≡ₚ g_nodes (graph p))
    end.
Proof.
  destruct (getActionSequence_result p) as (r & Hruns & Hsame & Hwhich).
  assert (Hget : ∀ fuel r',
            getActionSequence fuel p = Some r' →
            ∃ v, visit_all fuel p = Some v ∧
                 r' = match v with
                      | Ok st => Ok (omap id (sequence st))
                      | Err e => Err e
                      end).
  { intros fuel r' H. unfold getActionSequence in H.
    destruct (visit_all fuel p) as [[st'|e']|]; [| |done];
      injection H as <-; by eexists. }
  destruct r as [st|e].
  2:{ exists (Err e). split; [|split; [|done]].
      - intros fuel Hle. unfold getActionSequence. by rewrite (Hruns fuel Hle).
      - intros fuel r' (v & Hv & ->)%Hget. by rewrite (Hsame _ _ Hv). }
  exists (Ok (omap id (sequence st))). split; [|split].
  { intros fuel Hle. unfold getActionSequence. by rewrite (Hruns fuel Hle). }
  { intros fuel r' (v & Hv & ->)%Hget. by rewrite (Hsame _ _ Hv). }
  split; [done|].
  destruct (visit_all_spec _ _ _ (Hruns _ (Nat.le_refl _)))
    as (L & HndL & Hseq & Hall).
  set (nodes := g_nodes (graph p)) in *.
  assert (Hids : n_id <$> omap id (sequence st)
                 = filter (λ k, is_Some (nodeMap_get k nodes)) L).
  { rewrite Hseq. apply omap_nodeMap_get_ids. }
  assert (Hout : ∀ n, n ∈ omap id (sequence st) ↔
                      ∃ k, k ∈ L ∧ nodeMap_get k nodes = Some n).
  { intros n. rewrite Hseq, list_elem_of_omap. split.
    - intros (x & Hx & Hxn). apply list_elem_of_fmap in Hx as (k & -> & Hk).
      exists k. by split.
    - intros (k & Hk & Hn). exists (Some n). split; [|done].
      apply list_elem_of_fmap. exists k. by split. }
  split; [|split; [|split]].
  - rewrite Hids. by apply NoDup_filter.
  - intros n Hn. rewrite Hids. apply list_elem_of_filter.
    split; [|by apply Hall].
    destruct (nodeMap_get_elem (n_id n) nodes) as [n' Hn'];
      [by apply list_elem_of_fmap_2|by exists n'].
  - intros n. rewrite Hout. split.
    + intros (k & _ & Hk). by destruct (nodeMap_get_Some _ _ _ Hk) as [_ ->].
    + intros Hn. exists (n_id n). split; [|done].
      apply Hall. by apply nodeMap_get_Some in Hn as [? _].
  - intros Hnd. apply NoDup_Permutation.
    + apply (NoDup_fmap_1 n_id). rewrite Hids. by apply NoDup_filter.
    + by apply (NoDup_fmap_1 n_id).
    + intros n. split.
      * intros Hn. apply Hout in Hn as (k & _ & Hk).
        by apply nodeMap_get_Some in Hk as [? _].
      * intros Hn. apply Hout. exists (n_id n). split; [by apply Hall|].
        destruct (nodeMap_get_elem (n_id n) nodes) as [n' Hn'];
          [by apply list_elem_of_fmap_2|].
        rewrite Hn'. f_equal.
        apply nodeMap_get_Some in Hn' as [Hin Hid].
        by apply (NoDup_fmap_elem_eq n_id nodes).
Qed.

(** The claim fails on [shared_id_doc]: the graph has two nodes, which
    share the identifier [a], and the sequence holds the second one only.
    It fails on [unlisted_starts_doc] too, whose flow object gives a string
    for its start references: the constructor returns, and
    [getActionSequence] throws. *)
Lemma node_with_shared_identifier_is_left_out :
  (parse 1 shared_id_doc = Some (Ok (built 1 shared_id_doc)) ∧
   (n_id <$> g_nodes (graph (built 1 shared_id_doc)))
   = [Some "a"; Some "a"] ∧
   (n_sequence <$> g_nodes (graph (built 1 shared_id_doc))) = [0; 1] ∧
   ∃ out, getActionSequence 2 (built 1 shared_id_doc) = Some (Ok out) ∧
          (n_sequence <$> out) = [1]) ∧
  (parse 1 unlisted_starts_doc = Some (Ok (built 1 unlisted_starts_doc)) ∧
   (n_id <$> g_nodes (graph (built 1 unlisted_starts_doc))) = [Some "a"] ∧
   getActionSequence 2 (built 1 unlisted_starts_doc)
   = Some (Err (TypeError msg_refs_forEach))).
Proof.
  split; [|repeat split; vm_compute; reflexivity].
  split; [vm_compute; reflexivity|]. split; [vm_compute; reflexivity|].
  split; [vm_compute; reflexivity|].
  eexists. split; vm_compute; reflexivity.
Qed.

(** ** Sample runs *)

Example chain_doc_tactics :
  (n_tactic_name <$> g_nodes (graph (built 1 chain_doc)))
  = [TName "Initial Access"; TName "Execution"; TName "Impact"] ∧
  (n_tactic_id <$> g_nodes (graph (built 1 chain_doc)))
  = [VText "TA0001"; VText "TA0002"; VText "TA0040"].
Proof. split; vm_compute; reflexivity. Qed.

Example chain_doc_sequence :
  sequence_ids 3 (built 1 chain_doc)
  = Some [Some "A"; Some "B"; Some "C"].
Proof. vm_compute. reflexivity. Qed.

(** A -> B -> A: the traversal returns, with A and B once each. *)
Example loop_doc_sequence :
  g_edges (graph (built 1 loop_doc))
  = [mkEdge (Some "a") (Some "b"); mkEdge (Some "b") (Some "a")] ∧
  sequence_ids 3 (built 1 loop_doc)
  = Some [Some "a"; Some "b"].
Proof. split; vm_compute; reflexivity. Qed.

(** Without guard, a node reached along two paths is processed twice: the
    same edge is pushed twice. *)
Example diamond_doc_edges :
  g_edges (graph (built 2 diamond_doc))
  = [mkEdge (Some "s") (Some "a"); mkEdge (Some "s") (Some "a")].
Proof. vm_compute. reflexivity. Qed.

Example afb_doc_graph :
  g_edges (graph (built 0 afb_doc)) = [mkEdge (Some "a1") (Some "a2")] ∧
  (n_id <$> g_nodes (graph (built 0 afb_doc))) = [Some "a1"; Some "a2"] ∧
  (m_author <$> getFlowMetadata (built 0 afb_doc))
  = Some (VObj [("name", "bob")]).
Proof. repeat split; vm_compute; reflexivity. Qed.

Lemma getFlowMetadata_counts_witness :
  parse 0 afb_doc = Some (Ok (built 0 afb_doc)) ∧
  d_objects afb_doc = array afb_objs ∧
  (Forall (λ o, ¬ flow_level (format (built 0 afb_doc)) o) afb_objs →
   getFlowMetadata (built 0 afb_doc) = None) ∧
  (Exists (flow_level (format (built 0 afb_doc))) afb_objs →
   ∃ m, getFlowMetadata (built 0 afb_doc) = Some m ∧
        m_actionCount m = length (actions (built 0 afb_doc)) ∧
        m_relationshipCount m = length (relationships (built 0 afb_doc))) ∧
  length (actions (built 0 afb_doc))
  = length (filter (action_level (format (built 0 afb_doc))) afb_objs) ∧
  length (relationships (built 0 afb_doc))
  = length (filter (relationship_level (format (built 0 afb_doc))) afb_objs).
Proof.
  split; [vm_compute; reflexivity|]. split; [reflexivity|].
  apply (getFlowMetadata_counts 0 afb_doc (built 0 afb_doc) afb_objs);
    [vm_compute; reflexivity|reflexivity].
Defined.

Lemma stix_nodes_match_actions_witness :
  d_type branch_doc = Some "bundle" ∧
  d_objects branch_doc = array branch_objs ∧
  valid_stix_actions branch_objs ∧
  parse 2 branch_doc = Some (Ok (built 2 branch_doc)) ∧
  length (g_nodes (graph (built 2 branch_doc)))
  = length (filter (is_type "attack-action") branch_objs) ∧
  NoDup (n_id <$> g_nodes (graph (built 2 branch_doc))) ∧
  n_id <$> g_nodes (graph (built 2 branch_doc))
  = o_id <$> filter (is_type "attack-action") branch_objs.
Proof.
  assert (valid_stix_actions branch_objs) as Hvalid.
  { split.
    - intros o Ho _. unfold branch_objs in Ho. simpl in Ho.
      elem_cases Ho; reflexivity.
    - apply (bool_decide_unpack _). vm_compute. exact I. }
  split; [reflexivity|]. split; [reflexivity|]. split; [exact Hvalid|].
  split; [vm_compute; reflexivity|].
  apply (stix_nodes_match_actions 2 branch_doc branch_objs
           (built 2 branch_doc));
    [reflexivity|reflexivity|exact Hvalid|vm_compute; reflexivity].
Defined.


Lemma condition_yields_direct_edges_witness :
  wf_ids branch_objs ∧
  parse 2 branch_doc = Some (Ok (built 2 branch_doc)) ∧
  mkEdge (Some "s") (Some "a") ∈ g_edges (graph (built 2 branch_doc)) ∧
  mkEdge (Some "s") (Some "b") ∈ g_edges (graph (built 2 branch_doc)) ∧
  (Some "c" ∉ (n_id <$> g_nodes (graph (built 2 branch_doc)))) ∧
  (∀ e, e ∈ g_edges (graph (built 2 branch_doc)) →
        e_source e ≠ Some "c" ∧ e_target e ≠ Some "c").
Proof.
  assert (wf_ids branch_objs) as Hwf.
  { split.
    - intros o Ho. unfold branch_objs in Ho. simpl in Ho.
      elem_cases Ho; reflexivity.
    - apply (bool_decide_unpack _). vm_compute. exact I. }
  split; [exact Hwf|]. split; [vm_compute; reflexivity|].
  apply (condition_yields_direct_edges 2 branch_doc branch_objs
           (built 2 branch_doc)
           (stix_action "s" (Refs ["c"]))
           (stix_condition "c" (Refs ["a"]) (Refs ["b"]))
           (stix_action "a" NoRefs) (stix_action "b" NoRefs)
           ["c"] ["a"] ["b"] "s" "c" "a" "b");
    [reflexivity|reflexivity|exact Hwf|vm_compute; reflexivity
    |in_list|reflexivity|reflexivity|reflexivity|in_list
    |in_list|reflexivity|reflexivity|reflexivity|in_list
    |reflexivity|in_list
    |in_list|reflexivity|reflexivity
    |in_list|reflexivity|reflexivity].
Defined.


Lemma getTactics_groups_nodes_with_technique_witness :
  parse 1 chain_doc = Some (Ok (built 1 chain_doc)) ∧
  getTactics (built 1 chain_doc) = Ok (tactics_of (built 1 chain_doc)) ∧
  (fst <$> tactics_of (built 1 chain_doc))
  = [TName "Initial Access"; TName "Execution"; TName "Impact"] ∧
  Forall groupable (g_nodes (graph (built 1 chain_doc))) ∧
  NoDup (fst <$> tactics_of (built 1 chain_doc)).
Proof.
  assert (parse 1 chain_doc = Some (Ok (built 1 chain_doc))) as Hp
    by (vm_compute; reflexivity).
  assert (getTactics (built 1 chain_doc) = Ok (tactics_of (built 1 chain_doc)))
    as Hm by (vm_compute; reflexivity).
  destruct (getTactics_groups_nodes_with_technique 1 chain_doc
              (built 1 chain_doc) Hp) as (Hret & _ & Hgroups).
  split; [exact Hp|]. split; [exact Hm|].
  split; [vm_compute; reflexivity|].
  split; [apply Hret; eexists; exact Hm|].
  exact (proj1 (Hgroups _ Hm)).
Defined.

(** * Further properties *)

(** ** getTechniqueCounts *)

Lemma counts_get_set_text s c m :
  ∀ t, counts_get (VText t) (counts_set (VText s) c m)
       = if decide (s = t) then Some c else counts_get (VText t) m.
Proof.
  intros t. induction m as [|[k' c'] m IH]; simpl.
  - destruct (String.eqb_spec s t); by repeat case_decide.
  - destruct (same_value k' (VText s)) eqn:Hs; simpl.
    + destruct k' as [| |u| |]; try done. simpl in Hs.
      apply String.eqb_eq in Hs as ->. simpl.
      destruct (String.eqb_spec s t); by repeat case_decide.
    + destruct (same_value k' (VText t)) eqn:Ht; [|done].
      destruct k' as [| |u| |]; try done. simpl in Hs, Ht.
      apply String.eqb_eq in Ht as ->. apply String.eqb_neq in Hs.
      by rewrite decide_False.
Qed.

Lemma counts_get_set_other k c m t :
  (∀ s, k ≠ VText s) →
  counts_get (VText t) (counts_set k c m) = counts_get (VText t) m.
Proof.
  intros Hk. induction m as [|[k' c'] m IH]; simpl.
  - destruct k; try done. exfalso. by eapply Hk.
  - destruct (same_value k' k) eqn:Hs; simpl; [|by rewrite IH].
    destruct k', k; try done. exfalso. by eapply Hk.
Qed.

Lemma counts_total_set k c m :
  counts_total (counts_set k c m) + default 0 (counts_get k m)
  = counts_total m + c.
Proof.
  induction m as [|[k' c'] m IH]; simpl; [lia|].
  destruct (same_value k' k); simpl; lia.
Qed.

Lemma counts_set_positive k c m :
  0 < c → Forall (λ kc, 0 < snd kc) m →
  Forall (λ kc, 0 < snd kc) (counts_set k c m).
Proof.
  intros Hc. induction m as [|[k' c'] m IH]; intros H; simpl.
  - by repeat constructor.
  - apply Forall_cons in H as [H1 H2].
    destruct (same_value k' k); constructor; auto.
Qed.

Lemma getTechniqueCounts_step_spec m n :
  (∀ s, default 0 (counts_get (VText s) (getTechniqueCounts_step m n))
        = default 0 (counts_get (VText s) m)
          + length (filter (λ n, with_technique n ∧ has_technique s n) [n])) ∧
  counts_total (getTechniqueCounts_step m n)
  = counts_total m + length (filter with_technique [n]) ∧
  (Forall (λ kc, 0 < snd kc) m →
   Forall (λ kc, 0 < snd kc) (getTechniqueCounts_step m n)).
Proof.
  unfold getTechniqueCounts_step.
  destruct (truthy (n_technique_id n)) eqn:Ht.
  - split; [|split].
    + intros s. rewrite filter_cons, filter_nil.
      destruct (n_technique_id n) as [| |t| |] eqn:Hid; try done.
      * rewrite counts_get_set_text.
        destruct (decide (t = s)) as [->|Hne].
        -- rewrite decide_True; [simpl; lia|].
           unfold with_technique, has_technique. by rewrite Hid.
        -- rewrite decide_False; [simpl; lia|].
           unfold has_technique. rewrite Hid. intros [_ [=]]. done.
      * rewrite counts_get_set_other by done.
        rewrite decide_False; [simpl; lia|].
        unfold has_technique. rewrite Hid. by intros [_ ?].
      * rewrite counts_get_set_other by done.
        rewrite decide_False; [simpl; lia|].
        unfold has_technique. rewrite Hid. by intros [_ ?].
    + rewrite filter_cons, filter_nil, decide_True by done. simpl.
      pose proof (counts_total_set (n_technique_id n)
                    (default 0 (counts_get (n_technique_id n) m) + 1) m).
      lia.
    + intros Hm. apply counts_set_positive; [lia|done].
  - split; [|split]; [| |done].
    + intros s. rewrite filter_cons, filter_nil, decide_False; [simpl; lia|].
      unfold with_technique. rewrite Ht. by intros [? _].
    + rewrite filter_cons, filter_nil, decide_False; [simpl; lia|].
      unfold with_technique. by rewrite Ht.
Qed.

Lemma fold_getTechniqueCounts_spec nodes :
  ∀ m,
    let m' := fold_left getTechniqueCounts_step nodes m in
    (∀ s, default 0 (counts_get (VText s) m')
          = default 0 (counts_get (VText s) m)
            + length (filter (λ n, with_technique n ∧ has_technique s n) nodes)) ∧
    counts_total m' = counts_total m + length (filter with_technique nodes) ∧
    (Forall (λ kc, 0 < snd kc) m → Forall (λ kc, 0 < snd kc) m').
Proof.
  induction nodes as [|n nodes IH]; intros m; simpl.
  { split; [intros; simpl; lia|]. split; [simpl; lia|done]. }
  destruct (IH (getTechniqueCounts_step m n)) as (Hget & Htot & Hpos).
  destruct (getTechniqueCounts_step_spec m n) as (Hget1 & Htot1 & Hpos1).
  change (n :: nodes) with ([n] ++ nodes).
  split; [|split].
  - intros s. rewrite Hget, Hget1, filter_app, length_app. lia.
  - rewrite Htot, Htot1, filter_app, length_app. lia.
  - auto.
Qed.

Lemma counts_get_positive k c (m : list (value * nat)) :
  Forall (λ kc, 0 < snd kc) m → counts_get k m = Some c → 0 < c.
Proof.
  induction m as [|[k' c'] m IH]; simpl; [done|].
  intros Hf Hc. apply Forall_cons in Hf as [H1 H2].
  destruct (same_value k' k); [|by apply IH].
  by injection Hc as <-.
Qed.

Lemma getTechniqueCounts_lookup (p : Parser) (s : string) :
  counts_get (VText s) (getTechniqueCounts p)
  = match length (filter (λ n, with_technique n ∧ has_technique s n)
                         (g_nodes (graph p))) with
    | 0 => None
    | c => Some c
    end.
Proof.
  unfold getTechniqueCounts.
  destruct (fold_getTechniqueCounts_spec (g_nodes (graph p)) [])
    as (Hget & _ & Hpos).
  specialize (Hget s). simpl in Hget.
  specialize (Hpos (Forall_nil_2 _)).
  destruct (counts_get (VText s) _) as [c|] eqn:Hc; simpl in Hget.
  - pose proof (counts_get_positive _ _ _ Hpos Hc).
    rewrite <- Hget. by destruct c; [lia|].
  - by rewrite <- Hget.
Qed.

(** X1.  What [getTechniqueCounts] counts.  The count stored for a technique
    string is the number of nodes that carry it, and the string has no entry
    when no node carries it; the counts add up to the number of nodes with a
    technique identifier. *)
Theorem getTechniqueCounts_counts_occurrences (p : Parser) :
  (∀ s, counts_get (VText s) (getTechniqueCounts p)
        = match length (filter (λ n, with_technique n ∧ has_technique s n)
                               (g_nodes (graph p))) with
          | 0 => None
          | c => Some c
          end) ∧
  counts_total (getTechniqueCounts p)
  = length (filter with_technique (g_nodes (graph p))).
Proof.
  split; [apply getTechniqueCounts_lookup|].
  unfold getTechniqueCounts.
  by destruct (fold_getTechniqueCounts_spec (g_nodes (graph p)) [])
    as (_ & Htot & _).
Qed.

(** ** getDetailedStats *)



Lemma counts_set_keys k c m :
  fst <$> counts_set k c m = techniques_add k (fst <$> m).
Proof.
  unfold techniques_add.
  induction m as [|[k' c'] m IH]; csimpl; [done|].
  destruct (same_value k' k); csimpl; [done|].
  rewrite IH. by destruct (existsb _ _).
Qed.

Lemma getTechniqueCounts_keys nodes :
  ∀ m, fst <$> fold_left getTechniqueCounts_step nodes m
       = fold_left techniques_step nodes (fst <$> m).
Proof.
  induction nodes as [|n nodes IH]; intros m; simpl; [done|].
  rewrite IH. f_equal.
  unfold getTechniqueCounts_step, techniques_step.
  destruct (truthy (n_technique_id n)); [|done].
  apply counts_set_keys.
Qed.












Lemma built_nodes_of_actions fuel data p :
  parse fuel data = Some (Ok p) →
  strip <$> g_nodes (graph p) = imap built_node (actions p).
Proof.
  intros H. apply parse_Ok in H as (f & objs & _ & _ & Hb).
  pose proof (buildGraph_nodes _ _ _ Hb) as Hn.
  apply buildGraph_graph in Hb as (_ & _ & _ & _ & Ha & _).
  by rewrite Ha.
Qed.

Lemma imap_elem_of {A B} (f : nat → A → B) (l : list A) (y : B) :
  y ∈ imap f l → ∃ i x, l !! i = Some x ∧ y = f i x.
Proof.
  revert f. induction l as [|a l IH]; intros f; csimpl.
  - by intros ?%elem_of_nil.
  - intros [->|H]%elem_of_cons.
    + by exists 0, a.
    + apply IH in H as (i & x & Hi & ->). by exists (S i), x.
Qed.




(** ** Children and edges *)

Section EdgeInvariant.
Variable R : Graph → Graph → Prop.
Hypothesis R_refl : ∀ g, R g g.
Hypothesis R_trans : ∀ g1 g2 g3, R g1 g2 → R g2 g3 → R g1 g3.
Hypothesis R_link_effect : ∀ s t g, R g (link_effect s t g).
Hypothesis R_link_relationship : ∀ s t g, R g (link_relationship s t g).

Lemma followEffectChain_rel fuel objs sourceId :
  ∀ effectNode g g',
    followEffectChain fuel objs sourceId effectNode g = Some (Ok g') → R g g'.
Proof using R_refl R_trans R_link_effect.
  induction fuel as [|fuel IH]; intros o g g' H; simpl in H; [done|].
  set (follow := λ (ref : string) (g : Graph),
         match objs !! ref with
         | Some nextNode => followEffectChain fuel objs sourceId nextNode g
         | None => Some (Ok g)
         end) in H.
  assert (Hfollow : ∀ a s s', follow a s = Some (Ok s') → R s s').
  { intros a s s' Ha. unfold follow in Ha.
    destruct (objs !! a) as [next|]; [by eapply IH|].
    injection Ha as <-. apply R_refl. }
  destruct (has_type "attack-condition" o).
  { destruct (forEachRefs follow (o_on_true_refs o) g) as [[g1|e1]|] eqn:H1;
    [|done|done].
    apply R_trans with g1; eapply forEachRefs_rel; eauto. }
  destruct (has_type "attack-operator" o).
  { eapply forEachRefs_rel; eauto. }
  destruct (has_type "attack-action" o); injection H as <-; auto.
Qed.

Lemma fold_left_rel {A : Type} (f : Graph → A → Graph) (l : list A) :
  (∀ g a, R g (f g a)) → ∀ g, R g (fold_left f l g).
Proof using R_refl R_trans.
  intros Hf. induction l as [|a l IH]; intros g; simpl; [done|].
  eapply R_trans; [apply Hf|apply IH].
Qed.

Lemma buildAttackFlowEdges_rel fuel p g g' :
  buildAttackFlowEdges fuel p g = Some (Ok g') → R g g'.
Proof using R_refl R_trans R_link_effect R_link_relationship.
  unfold buildAttackFlowEdges. intros H.
  destruct (forEachE _ (actions p) g) as [[g1|e1]|] eqn:H1; [|done|done].
  injection H as <-. apply R_trans with g1.
  - eapply (forEachE_rel R); eauto.
    intros a s s' _. apply forEachRefs_rel; auto.
    intros r u u'. unfold follow_effect_ref.
    destruct (objects p !! r) as [o|]; [apply followEffectChain_rel|].
    intros [= <-]. apply R_refl.
  - apply fold_left_rel. intros. apply R_link_relationship.
Qed.

Lemma buildGraph_rel fuel p p' :
  buildGraph fuel p = Some (Ok p') →
  R (mkGraph (imap built_node (actions p)) []) (graph p').
Proof using R_refl R_trans R_link_effect R_link_relationship.
  intros H. apply buildGraph_Ok in H as [_ H]. destruct (format p).
  - destruct H as (g' & Hg & ->). simpl. by eapply buildAttackFlowEdges_rel.
  - subst p'. simpl. apply fold_left_rel.
    intros. apply R_link_relationship.
Qed.

End EdgeInvariant.

Lemma add_child_children t n c :
  c ∈ n_children (add_child t n) ↔ c ∈ n_children n ∨ c = t.
Proof.
  simpl. case_bool_decide.
  - split; [by left|]. by intros [?| ->].
  - rewrite elem_of_app, list_elem_of_singleton. done.
Qed.

Lemma add_child_NoDup t n :
  NoDup (n_children n) → NoDup (n_children (add_child t n)).
Proof.
  intros H. simpl. case_bool_decide; [done|].
  apply NoDup_app. split; [done|]. split; [|apply NoDup_singleton].
  intros x Hx ->%list_elem_of_singleton. done.
Qed.

Lemma alter_add_child_ids t i (l : list Node) :
  n_id <$> alter (add_child t) i l = n_id <$> l.
Proof. apply map_strip_ids, map_strip_alter. Qed.

Lemma connect_children i s t g :
  nodeMap_index s (g_nodes g) = Some i → t ∈ node_ids g →
  children_ok g → children_ok (connect i s t t g).
Proof.
  intros Hi Ht [Hn He].
  destruct (nodeMap_index_Some _ _ _ Hi) as (n0 & Hn0 & Hs).
  assert (Hids : node_ids (connect i s t t g) = node_ids g).
  { unfold node_ids. simpl. apply alter_add_child_ids. }
  split.
  - intros n Hin. simpl in Hin. rewrite Hids.
    apply list_elem_of_lookup_1 in Hin as [j Hj].
    destruct (decide (j = i)) as [->|Hne].
    + rewrite list_lookup_alter_eq, Hn0 in Hj. simpl in Hj.
      injection Hj as <-.
      assert (n0 ∈ g_nodes g) as Hin0 by by eapply list_elem_of_lookup_2.
      destruct (Hn _ Hin0) as [Hnd Hc].
      split; [by apply add_child_NoDup|].
      intros c [Hold| ->]%add_child_children.
      * destruct (Hc _ Hold) as [? ?]. split; [done|].
        simpl. apply elem_of_app. by left.
      * split; [done|]. simpl. apply elem_of_app. right.
        rewrite Hs. apply list_elem_of_singleton. done.
    + rewrite list_lookup_alter_ne in Hj by done.
      assert (n ∈ g_nodes g) as Hin0 by by eapply list_elem_of_lookup_2.
      destruct (Hn _ Hin0) as [Hnd Hc]. split; [done|].
      intros c Hcin. destruct (Hc _ Hcin) as [? ?]. split; [done|].
      simpl. apply elem_of_app. by left.
  - intros e Hin. simpl in Hin. unfold nodeMap_get. simpl.
    apply elem_of_app in Hin as [Hin| ->%list_elem_of_singleton].
    + destruct (He _ Hin) as (n & Hget & Hc). unfold nodeMap_get in Hget.
      rewrite (nodeMap_index_ids _ _ (g_nodes g))
        by apply alter_add_child_ids.
      destruct (nodeMap_index (e_source e) (g_nodes g)) as [j|]; [|done].
      simpl in *. destruct (decide (j = i)) as [->|Hne].
      * rewrite list_lookup_alter_eq, Hget. simpl. eexists. split; [done|].
        apply add_child_children. by left.
      * rewrite list_lookup_alter_ne by done. by exists n.
    + simpl. rewrite (nodeMap_index_ids _ _ (g_nodes g))
        by apply alter_add_child_ids.
      rewrite Hi. simpl. rewrite list_lookup_alter_eq, Hn0. simpl.
      eexists. split; [done|]. apply add_child_children. by right.
Qed.

Lemma link_effect_children s t g :
  children_ok g → children_ok (link_effect s t g).
Proof.
  unfold link_effect.
  destruct (nodeMap_index s (g_nodes g)) as [i|] eqn:Hs; [|done].
  destruct (nodeMap_index t (g_nodes g)) as [j|] eqn:Ht; [|done].
  apply connect_children; [done|].
  apply nodeMap_index_Some in Ht as (m & Hm & <-).
  apply list_elem_of_fmap_2. by eapply list_elem_of_lookup_2.
Qed.

Lemma link_relationship_children s t g :
  children_ok g → children_ok (link_relationship s t g).
Proof.
  unfold link_relationship.
  destruct (nodeMap_index s (g_nodes g)) as [i|] eqn:Hs; [|done].
  destruct (nodeMap_index t (g_nodes g)) as [j|] eqn:Ht; [|done].
  destruct (nodeMap_index_Some _ _ _ Hs) as (n & Hn & Hns).
  destruct (nodeMap_index_Some _ _ _ Ht) as (m & Hm & Hmt).
  rewrite Hn, Hm, Hns.
  apply connect_children; [done|].
  apply list_elem_of_fmap_2. by eapply list_elem_of_lookup_2.
Qed.

Lemma make_node_children i a : n_children (built_node i a) = [].
Proof. reflexivity. Qed.

Lemma buildGraph_children fuel p p' :
  buildGraph fuel p = Some (Ok p') → children_ok (graph p').
Proof.
  intros H.
  assert (children_ok (mkGraph (imap built_node (actions p)) []) →
          children_ok (graph p')) as Hrel.
  { revert H. apply (buildGraph_rel (λ g g', children_ok g → children_ok g'));
      auto using link_effect_children, link_relationship_children. }
  apply Hrel. split.
  - intros n (i & a & _ & ->)%imap_elem_of.
    rewrite make_node_children. split; [apply NoDup_nil_2|].
    by intros c ?%elem_of_nil.
  - by intros e ?%elem_of_nil.
Qed.

(** X5.  Children and edges of a built graph agree.  No list of children
    repeats an identifier; every child of a node is a node identifier and the
    target of an edge from that node; the target of every edge is a child of
    the node that the parser holds for the edge's source.  When node
    identifiers are pairwise distinct, the children of a node are exactly the
    targets of the edges that leave it. *)
Theorem children_are_edge_targets fuel data p :
  parse fuel data = Some (Ok p) →
  (∀ n, n ∈ g_nodes (graph p) →
        NoDup (n_children n) ∧
        ∀ c, c ∈ n_children n →
             c ∈ node_ids (graph p) ∧ mkEdge (n_id n) c ∈ g_edges (graph p)) ∧
  (∀ e, e ∈ g_edges (graph p) →
        ∃ n, nodeMap_get (e_source e) (g_nodes (graph p)) = Some n ∧
             e_target e ∈ n_children n) ∧
  (NoDup (node_ids (graph p)) →
   ∀ n c, n ∈ g_nodes (graph p) →
          (c ∈ n_children n ↔ mkEdge (n_id n) c ∈ g_edges (graph p))).
Proof.
  intros H. apply parse_Ok in H as (f & objs & _ & _ & Hb).
  apply buildGraph_children in Hb as [Hn He].
  split; [done|]. split; [done|].
  intros Hnd n c Hin. split.
  - intros Hc. by apply (Hn n Hin).
  - intros Hedge. destruct (He _ Hedge) as (n' & Hget & Hc). simpl in *.
    apply nodeMap_get_Some in Hget as [Hin' Hid].
    by rewrite (NoDup_fmap_elem_eq n_id _ n n' Hnd Hin Hin').
Qed.

(** The body of the loop of [buildGraph] returned on every action of a
    parser that the constructor returned. *)
Lemma built_make_node fuel data p i a :
  parse fuel data = Some (Ok p) → actions p !! i = Some a →
  make_node i a = Ok (built_node i a).
Proof.
  intros Hp Ha. apply parse_Ok in Hp as (f & objs & _ & _ & Hb).
  pose proof (buildGraph_graph _ _ _ Hb) as (_ & _ & _ & _ & Hact & _).
  apply buildGraph_Ok in Hb as [Hn _]. rewrite Hact in Ha.
  by apply (make_nodes_Ok _ _ Hn).
Qed.

(** X6.  The nodes of a built graph are its action records, in order.  The
    node at position [i] was made from the action at position [i], on which
    the body of the loop of [buildGraph] returned: it carries that position
    as its sequence number, the type [attack-action], the action's
    descriptive members, the confidence [certain] when the action has none,
    the tactic name and identifier computed for the action, and edge
    resolution changed nothing of it but its children. *)
Theorem nodes_are_actions_in_order fuel data p :
  parse fuel data = Some (Ok p) →
  length (g_nodes (graph p)) = length (actions p) ∧
  ∀ i n, g_nodes (graph p) !! i = Some n →
         ∃ a, actions p !! i = Some a ∧
              make_node i a = Ok (strip n) ∧
              n_id n = node_key a ∧
              n_sequence n = i ∧
              n_type n = "attack-action" ∧
              n_technique_id n = o_technique_id a ∧
              n_name n = o_name a ∧
              n_confidence n = value_or (o_confidence a) (VText "certain") ∧
              resolve_tactic a = Ok (n_tactic_name n, n_tactic_id n).
Proof.
  intros Hp. pose proof (built_nodes_of_actions _ _ _ Hp) as H.
  split.
  { apply (f_equal length) in H. by rewrite length_fmap, length_imap in H. }
  intros i n Hi.
  apply (f_equal (λ l, l !! i)) in H.
  rewrite list_lookup_fmap, Hi, list_lookup_imap in H. simpl in H.
  destruct (actions p !! i) as [a|] eqn:Ha; [|done].
  change (Some (strip n) = Some (built_node i a)) in H.
  apply (inj Some) in H. exists a. split; [done|].
  pose proof (built_make_node _ _ _ _ _ Hp Ha) as Hmake.
  split; [rewrite Hmake; by f_equal|].
  change (n_id n) with (n_id (strip n)).
  change (n_sequence n) with (n_sequence (strip n)).
  change (n_type n) with (n_type (strip n)).
  change (n_technique_id n) with (n_technique_id (strip n)).
  change (n_name n) with (n_name (strip n)).
  change (n_confidence n) with (n_confidence (strip n)).
  change (n_tactic_name n) with (n_tactic_name (strip n)).
  change (n_tactic_id n) with (n_tactic_id (strip n)).
  rewrite H. repeat split; try done.
  unfold make_node, built_node, tactic_or_unknown in *.
  by destruct (resolve_tactic a) as [[name tid]|e].
Qed.

(** ** getProperty *)

Lemma find_prop_first k v (pre post : list (string * PropVal)) :
  k ∉ (fst <$> pre) → find_prop k (pre ++ (k, v) :: post) = Some v.
Proof.
  induction pre as [|[k' v'] pre IH]; csimpl; intros Hk.
  - by rewrite String.eqb_refl.
  - apply not_elem_of_cons in Hk as [Hne Hk].
    destruct (String.eqb_spec k' k); [congruence|]. by apply IH.
Qed.

Lemma assoc_app k (l1 l2 : list (string * string)) :
  assoc k (l1 ++ l2)
  = match assoc k l1 with Some v => Some v | None => assoc k l2 end.
Proof.
  induction l1 as [|[k' v'] l1 IH]; simpl; [done|].
  by destruct (String.eqb k' k).
Qed.

Lemma obj_set_assoc k v (l : list (string * string)) k' :
  assoc k' (obj_set k v l) = if String.eqb k k' then Some v else assoc k' l.
Proof.
  induction l as [|[k0 v0] l IH]; simpl; [done|].
  destruct (String.eqb_spec k0 k) as [->|Hne]; simpl.
  - by destruct (String.eqb k k').
  - rewrite IH. destruct (String.eqb_spec k k') as [->|Hne'].
    + by destruct (String.eqb_spec k0 k').
    + done.
Qed.

Lemma obj_set_keys k v (l : list (string * string)) x :
  x ∈ (fst <$> obj_set k v l) ↔ x = k ∨ x ∈ (fst <$> l).
Proof.
  induction l as [|[k0 v0] l IH]; csimpl.
  - rewrite list_elem_of_singleton. split; [by left|].
    by intros [?|?%elem_of_nil].
  - destruct (String.eqb_spec k0 k) as [->|Hne]; csimpl.
    + rewrite elem_of_cons. tauto.
    + rewrite !elem_of_cons, IH. tauto.
Qed.

Lemma obj_set_NoDup k v (l : list (string * string)) :
  NoDup (fst <$> l) → NoDup (fst <$> obj_set k v l).
Proof.
  induction l as [|[k0 v0] l IH]; csimpl; intros H.
  - apply NoDup_singleton.
  - apply NoDup_cons in H as [Hk0 H].
    destruct (String.eqb_spec k0 k) as [->|Hne]; csimpl.
    + by apply NoDup_cons.
    + apply NoDup_cons. split; [|by apply IH].
      rewrite obj_set_keys. intros [?|?]; congruence.
Qed.

Lemma nested_object_spec (items : list (string * string)) :
  ∀ obj,
    NoDup (fst <$> obj) →
    let obj' := fold_left nested_set items obj in
    NoDup (fst <$> obj') ∧
    ∀ k, assoc k obj'
         = match (if String.eqb k "__proto__" then None
                  else assoc k (reverse items)) with
           | Some v => Some v
           | None => assoc k obj
           end.
Proof.
  induction items as [|[k0 v0] items IH]; intros obj Hnd; simpl.
  { split; [done|]. intros k. by destruct (String.eqb k "__proto__"). }
  destruct (IH (nested_set obj (k0, v0))) as [Hnd' Hget].
  { unfold nested_set. simpl. destruct (String.eqb k0 "__proto__"); [done|].
    by apply obj_set_NoDup. }
  split; [done|]. intros k.
  rewrite Hget, reverse_cons, assoc_app. unfold nested_set. simpl.
  destruct (String.eqb_spec k "__proto__") as [->|Hk].
  - destruct (String.eqb_spec k0 "__proto__") as [->|Hk0]; [done|].
    rewrite obj_set_assoc. by destruct (String.eqb_spec k0 "__proto__").
  - destruct (assoc k (reverse items)); [done|].
    destruct (String.eqb_spec k0 "__proto__") as [->|Hk0].
    + by destruct (String.eqb_spec "__proto__" k).
    + rewrite obj_set_assoc. by destruct (String.eqb k0 k).
Qed.

(** X7.  [getProperty] reads the first pair named by the key, and turns a
    nested list of pairs into an object in which each name occurs once and
    holds the value of the last pair with that name; a pair named
    [__proto__] is not stored, the assignment of a string to that name
    having no effect. *)
Theorem getProperty_nested_last_pair_wins (pre post : list (string * PropVal))
    (k : string) (items : list (string * string)) :
  k ∉ (fst <$> pre) →
  items ≠ [] →
  ∃ obj, getProperty (Some (pre ++ (k, PNested items) :: post)) k = VObj obj ∧
         NoDup (fst <$> obj) ∧
         ∀ name, assoc name obj
                 = if String.eqb name "__proto__" then None
                   else assoc name (reverse items).
Proof.
  intros Hk Hitems. unfold getProperty. rewrite find_prop_first by done.
  destruct items as [|item items]; [done|].
  eexists. split; [done|].
  destruct (nested_object_spec (item :: items) []) as [Hnd Hget].
  { apply NoDup_nil_2. }
  split; [exact Hnd|]. intros name. rewrite Hget.
  destruct (String.eqb name "__proto__"); [done|].
  by destruct (assoc name (reverse (item :: items))).
Qed.

(** ** The timeline helpers ([TimelineVisualization]) *)

Lemma same_value_by_content (a b : value) :
  by_content a → by_content b → same_value a b = true ↔ a = b.
Proof.
  destruct a, b; simpl; try done.
  intros _ _. rewrite String.eqb_eq. split; congruence.
Qed.

Lemma groups_push_concat k a m :
  concat (snd <$> groups_push k a m) ≡ₚ a :: concat (snd <$> m).
Proof.
  induction m as [|[k' l] m IH]; csimpl; [done|].
  destruct (same_value k' k); csimpl.
  - rewrite <- app_assoc. simpl. symmetry. apply Permutation_middle.
  - rewrite IH. symmetry. apply Permutation_middle.
Qed.

Lemma timestamp_groups_concat actions :
  ∀ m, concat (snd <$> fold_left (λ groups action,
                         groups_push (n_execution_start action) action groups)
                       actions m)
       ≡ₚ concat (snd <$> m) ++ actions.
Proof.
  induction actions as [|a actions IH]; intros m; simpl.
  - by rewrite app_nil_r.
  - rewrite IH, groups_push_concat. simpl. apply Permutation_middle.
Qed.

Lemma groups_get_push k a m k' :
  by_content k → by_content k' →
  Forall (λ kl, by_content (fst kl)) m →
  groups_get k' (groups_push k a m)
  = if decide (k' = k) then Some (default [] (groups_get k m) ++ [a])
    else groups_get k' m.
Proof.
  intros Hk Hk' Hm. induction m as [|[k0 l] m IH]; simpl.
  - case_decide as Hd.
    + subst. by rewrite (proj2 (same_value_by_content k k Hk Hk)).
    + destruct (same_value k k') eqn:Hs; [|done].
      apply same_value_by_content in Hs; [congruence|done..].
  - apply Forall_cons in Hm as [Hk0 Hm]. simpl in Hk0.
    specialize (IH Hm).
    destruct (same_value k0 k) eqn:Hs; simpl.
    + apply same_value_by_content in Hs as ->; [|done..].
      case_decide as Hd.
      * subst. by rewrite (proj2 (same_value_by_content k k Hk Hk)).
      * destruct (same_value k k') eqn:Hs'; [|done].
        apply same_value_by_content in Hs'; [congruence|done..].
    + destruct (same_value k0 k') eqn:Hs'; [|done].
      apply same_value_by_content in Hs' as ->; [|done..].
      rewrite decide_False; [done|]. intros ->.
      by rewrite (proj2 (same_value_by_content k k Hk Hk)) in Hs.
Qed.

Lemma groups_push_elem_keys k a m x :
  x ∈ (fst <$> groups_push k a m) → x = k ∨ x ∈ (fst <$> m).
Proof.
  induction m as [|[k0 l] m IH]; csimpl.
  - intros ->%list_elem_of_singleton. by left.
  - destruct (same_value k0 k); csimpl.
    + by right.
    + intros [->|H]%elem_of_cons; [right; by left|].
      destruct (IH H); [by left|right; by right].
Qed.

Lemma groups_push_wf k a m :
  by_content k → groups_wf m → groups_wf (groups_push k a m).
Proof.
  intros Hk [Hc Hnd]. induction m as [|[k0 l] m IH]; csimpl.
  { split; [by repeat constructor|apply NoDup_singleton]. }
  csimpl in *. apply Forall_cons in Hc as [Hk0 Hc].
  apply NoDup_cons in Hnd as [Hin Hnd].
  destruct (same_value k0 k) eqn:Hs; csimpl.
  - split; [by constructor|by apply NoDup_cons].
  - destruct (IH Hc Hnd) as [Hc' Hnd'].
    split; [by constructor|]. apply NoDup_cons. split; [|done].
    change (k0 ∉ fst <$> groups_push k a m).
    intros [->|H]%groups_push_elem_keys; [|done].
    by rewrite (proj2 (same_value_by_content k k Hk Hk)) in Hs.
Qed.

Lemma groups_get_elem k l m :
  groups_wf m → (k, l) ∈ m → groups_get k m = Some l.
Proof.
  intros [Hc Hnd]. induction m as [|[k0 l0] m IH]; csimpl in *.
  - by intros ?%elem_of_nil.
  - apply Forall_cons in Hc as [Hk0 Hc].
    apply NoDup_cons in Hnd as [Hin Hnd].
    intros [[= <- <-]|H]%elem_of_cons.
    + by rewrite (proj2 (same_value_by_content k k Hk0 Hk0)).
    + destruct (same_value k0 k) eqn:Hs; [|by apply IH].
      apply same_value_by_content in Hs as ->; [| |].
      * exfalso. apply Hin. by apply (list_elem_of_fmap_2 fst _ (k, l)).
      * done.
      * rewrite Forall_forall in Hc. apply Hc.
        by apply (list_elem_of_fmap_2 fst _ (k, l)).
Qed.

Lemma groups_get_Some k l m : groups_get k m = Some l → l ∈ (snd <$> m).
Proof.
  induction m as [|[k0 l0] m IH]; csimpl; [done|].
  destruct (same_value k0 k).
  - intros [= ->]. by left.
  - intros H. right. by apply IH.
Qed.

(** The entries of the [Map] after the loop ran over [actions], from the
    entries [m] before. *)
Lemma timestamp_groups_spec actions :
  ∀ m,
    Forall (λ a, by_content (n_execution_start a)) actions →
    groups_wf m →
    let m' := fold_left (λ groups action,
                groups_push (n_execution_start action) action groups)
              actions m in
    groups_wf m' ∧
    ∀ k, by_content k →
         groups_get k m'
         = match groups_get k m, filter (started_at k) actions with
           | None, [] => None
           | o, l => Some (default [] o ++ l)
           end.
Proof.
  induction actions as [|a actions IH]; intros m Ha Hm; simpl.
  { split; [done|].
    intros k Hk. destruct (groups_get k m); [|done]. by rewrite app_nil_r. }
  apply Forall_cons in Ha as [Ha0 Ha].
  destruct (IH (groups_push (n_execution_start a) a m) Ha) as (H1 & H2).
  { by apply groups_push_wf. }
  split; [done|].
  intros k Hk. rewrite (H2 k Hk).
  rewrite groups_get_push; [|done|done|].
  2:{ destruct Hm as [Hc _]. by rewrite Forall_fmap in Hc. }
  rewrite filter_cons.
  destruct (decide (k = n_execution_start a)) as [->|Hne].
  - rewrite (decide_True (P := started_at _ a)) by reflexivity. simpl.
    destruct (groups_get _ m); simpl; by rewrite <- ?app_assoc.
  - rewrite (decide_False (P := started_at k a))
      by (unfold started_at; congruence).
    done.
Qed.

(** X8.  [groupByTimestamp] partitions the actions by their start.  For
    actions whose start is a string, [null] or [undefined] (two different
    starts): the groups together hold
    every action once, no group is empty, every group is the list of the
    actions with one start value in their given order, and the actions that
    share an action's start form one of the groups. *)
Theorem groupByTimestamp_partitions_by_start (actions : list Node) :
  Forall (λ a, by_content (n_execution_start a)) actions →
  concat (groupByTimestamp actions) ≡ₚ actions ∧
  (∀ g, g ∈ groupByTimestamp actions →
        g ≠ [] ∧
        ∃ a, a ∈ actions ∧
             g = filter (started_at (n_execution_start a)) actions) ∧
  (∀ a, a ∈ actions →
        filter (started_at (n_execution_start a)) actions
        ∈ groupByTimestamp actions).
Proof.
  intros Ha. unfold groupByTimestamp, timestamp_groups.
  destruct (timestamp_groups_spec actions [] Ha) as (Hwf & Hget).
  { split; [constructor|apply NoDup_nil_2]. }
  split; [|split].
  - by rewrite timestamp_groups_concat.
  - intros g (kl & -> & Hin)%list_elem_of_fmap.
    destruct kl as [k l]. simpl.
    assert (by_content k) as Hk.
    { destruct Hwf as [Hc _]. rewrite Forall_forall in Hc. apply Hc.
      by apply (list_elem_of_fmap_2 fst _ (k, l)). }
    pose proof (groups_get_elem _ _ _ Hwf Hin) as Hl.
    rewrite (Hget k Hk) in Hl. simpl in Hl.
    destruct (filter (started_at k) actions) as [|b l'] eqn:Hf; [done|].
    injection Hl as <-. split; [done|].
    assert (b ∈ filter (started_at k) actions) as Hb
      by (rewrite Hf; by left).
    apply list_elem_of_filter in Hb as [Hbk Hb]. unfold started_at in Hbk.
    exists b. split; [done|]. by rewrite Hbk.
  - intros a Hain.
    assert (by_content (n_execution_start a)) as Hk.
    { rewrite Forall_forall in Ha. by apply Ha. }
    specialize (Hget _ Hk). simpl in Hget.
    destruct (filter (started_at (n_execution_start a)) actions)
      as [|b l] eqn:Hf.
    + exfalso.
      apply (filter_nil_not_elem_of _ _ a Hf); [reflexivity|exact Hain].
    + by apply groups_get_Some in Hget.
Qed.

Lemma spaceNeeded_eq n : spaceNeeded n = 220 + 30 * (n - 1).
Proof. unfold spaceNeeded. destruct (Nat.ltb_spec 1 n); lia. Qed.

Lemma sum_list_app (l k : list nat) :
  sum_list (l ++ k) = sum_list l + sum_list k.
Proof. induction l as [|x l IH]; simpl; lia. Qed.

Lemma spacing_loop_spec (timeGroups : list (list Node)) (x0 : nat) :
  let st := fold_left spacing_step timeGroups ([], x0) in
  length (fst st) = length timeGroups ∧
  snd st = x0 + sum_list (spaceNeeded ∘ length <$> timeGroups) ∧
  ∀ i x, fst st !! i = Some x →
         x = x0 + sum_list (spaceNeeded ∘ length <$> take i timeGroups).
Proof.
  induction timeGroups as [|g timeGroups IH] using rev_ind; simpl.
  { split; [done|]. split; [lia|]. by intros i x ?. }
  destruct IH as (Hlen & Hx & Hpos).
  rewrite fold_left_app. simpl.
  rewrite !length_app, fmap_app, sum_list_app. cbn -[spaceNeeded].
  split; [lia|]. split; [lia|].
  intros i x Hi.
  destruct (decide (i < length timeGroups)) as [Hlt|Hge].
  - rewrite lookup_app_l in Hi by lia.
    rewrite take_app_le by lia. by apply Hpos.
  - rewrite lookup_app_r in Hi by lia.
    rewrite Hlen in Hi.
    destruct (i - length timeGroups) as [|j] eqn:Hj; simpl in Hi; [|done].
    injection Hi as <-. rewrite Hx.
    assert (i = length timeGroups) as -> by lia.
    by rewrite take_app_length.
Qed.

(** X9.  Where [calculateNonLinearSpacing] puts the branches.  There is one
    position per group; the first is [margin.left + 100]; each position is
    the start plus the space of the groups before it; and from a group of
    [n] cards to the next the distance is [220 + 30 * (n - 1)] (220 for an
    empty group), so positions grow strictly. *)
Theorem calculateNonLinearSpacing_positions (margin_left : nat)
    (timeGroups : list (list Node)) :
  length (calculateNonLinearSpacing margin_left timeGroups)
  = length timeGroups ∧
  (∀ i x, calculateNonLinearSpacing margin_left timeGroups !! i = Some x →
          x = margin_left + 100
              + sum_list (spaceNeeded ∘ length <$> take i timeGroups)) ∧
  (∀ i x y g,
     calculateNonLinearSpacing margin_left timeGroups !! i = Some x →
     calculateNonLinearSpacing margin_left timeGroups !! S i = Some y →
     timeGroups !! i = Some g →
     y = x + 220 + 30 * (length g - 1)).
Proof.
  unfold calculateNonLinearSpacing.
  destruct (spacing_loop_spec timeGroups (margin_left + 100))
    as (Hlen & _ & Hpos).
  split; [done|]. split; [done|].
  intros i x y g Hx Hy Hg.
  apply Hpos in Hx. apply Hpos in Hy.
  rewrite (take_S_r _ _ _ Hg), fmap_app, sum_list_app in Hy.
  cbn -[spaceNeeded] in Hy.
  rewrite spaceNeeded_eq in Hy. lia.
Qed.

(** X10.  What [calculateDuration] prints for a difference of [ms]
    milliseconds.  The unit is the largest of day, hour and minute that the
    difference reaches, the number is the difference divided by the unit and
    rounded down, and the unit takes an [s] when the number exceeds 1; below
    one minute, and for a negative difference, the seconds are printed. *)
Theorem calculateDuration_truncates (ms : Z) :
  calculateDuration (Some ms)
  = if (86400000 <=? ms)%Z then duration_text (ms / 86400000) "day"
    else if (3600000 <=? ms)%Z then duration_text (ms / 3600000) "hour"
    else if (60000 <=? ms)%Z then duration_text (ms / 60000) "minute"
    else duration_text (ms / 1000) "second".
Proof.
  unfold calculateDuration.
  assert (ms / 1000 / 60 = ms / 60000)%Z as Hmin
    by (rewrite Z.div_div by lia; done).
  assert (ms / 1000 / 60 / 60 = ms / 3600000)%Z as Hhrs
    by (rewrite !Z.div_div by lia; done).
  assert (ms / 1000 / 60 / 60 / 24 = ms / 86400000)%Z as Hday
    by (rewrite !Z.div_div by lia; done).
  rewrite Hday, Hhrs, Hmin.
  assert (∀ d, (0 < d)%Z → (0 <? ms / d)%Z = (d <=? ms)%Z) as Hcmp.
  { intros d Hd. destruct (Z.leb_spec d ms) as [Hle|Hlt].
    - apply Z.ltb_lt. apply Z.div_str_pos. lia.
    - apply Z.ltb_ge.
      destruct (Z.le_gt_cases 0 ms).
      + rewrite Z.div_small by lia. lia.
      + assert (ms / d < 0)%Z by (apply Z.div_lt_upper_bound; lia). lia. }
  rewrite !Hcmp by lia. done.
Qed.

(** ** The treemap view ([TreemapVisualization]) *)

Lemma prepareTreemapData_loop (counts : list (value * nat))
    (tactics : list (TacticName * list Node)) :
  ∀ children : list TreemapGroup,
    concat (tg_children <$>
              fold_left (prepareTreemapData_step counts) tactics children)
    = concat (tg_children <$> children)
      ++ concat ((λ e : TacticName * list Node,
                    treemap_leaf counts (fst e) <$> snd e) <$> tactics) ∧
    (Forall (λ e : TacticName * list Node, snd e ≠ []) tactics →
     tg_name <$> fold_left (prepareTreemapData_step counts) tactics children
     = (tg_name <$> children) ++ (fst <$> tactics)) ∧
    (Forall (λ g, tg_children g ≠ []) children →
     Forall (λ g, tg_children g ≠ [])
            (fold_left (prepareTreemapData_step counts) tactics children)).
Proof.
  induction tactics as [|[k l] tactics IH]; intros children; simpl.
  { rewrite !app_nil_r. done. }
  destruct (IH (prepareTreemapData_step counts children (k, l)))
    as (Hleaves & Hnames & Hne).
  unfold prepareTreemapData_step in *. simpl in *.
  rewrite length_fmap in *.
  destruct l as [|n l]; simpl in *.
  - split; [done|]. split; [|done].
    intros Hf. apply Forall_cons in Hf as [? _]. done.
  - split; [|split].
    + rewrite Hleaves, fmap_app, concat_app. simpl.
      by rewrite app_nil_r, <- app_assoc.
    + intros Hf. apply Forall_cons in Hf as [_ Hf].
      rewrite (Hnames Hf), fmap_app. simpl. by rewrite <- app_assoc.
    + intros Hf. apply Hne. apply Forall_app. split; [done|].
      by repeat constructor.
Qed.

Lemma elem_of_concat {A} (x : A) (ls : list (list A)) :
  x ∈ concat ls ↔ ∃ l, x ∈ l ∧ l ∈ ls.
Proof.
  induction ls as [|l ls IH]; simpl.
  - split; [by intros ?%elem_of_nil|]. by intros (l & _ & ?%elem_of_nil).
  - rewrite elem_of_app, IH. split.
    + intros [H|(l' & H1 & H2)].
      * exists l. split; [done|by left].
      * exists l'. split; [done|by right].
    + intros (l' & H1 & [->|H2]%elem_of_cons); [by left|].
      right. by exists l'.
Qed.

Lemma tactics_push_concat {K} `{EqDecision K} (k : K) n
    (m : list (K * list Node)) :
  concat (snd <$> tactics_push k n m) ≡ₚ n :: concat (snd <$> m).
Proof.
  induction m as [|[k' l] m IH]; csimpl; [done|].
  case_bool_decide; csimpl.
  - rewrite <- app_assoc. simpl. symmetry. apply Permutation_middle.
  - rewrite IH. symmetry. apply Permutation_middle.
Qed.

Lemma tactics_push_nonempty {K} `{EqDecision K} (k : K) n
    (m : list (K * list Node)) :
  Forall (λ e, snd e ≠ []) m → Forall (λ e, snd e ≠ []) (tactics_push k n m).
Proof.
  induction 1 as [|[k' l] m Hl Hm IH]; simpl.
  - by repeat constructor.
  - case_bool_decide; constructor; auto.
    simpl. by destruct l.
Qed.

Lemma getTactics_loop_groups nodes :
  ∀ m m', getTactics_loop nodes m = Ok m' →
    concat (snd <$> m') ≡ₚ concat (snd <$> m) ++ filter with_technique nodes ∧
    (Forall (λ e, snd e ≠ []) m → Forall (λ e, snd e ≠ []) m').
Proof.
  induction nodes as [|n nodes IH]; intros m m' H; simpl in H.
  { injection H as <-. by rewrite app_nil_r. }
  destruct (getTactics_step m n) as [m1|e] eqn:Hstep; [|done].
  destruct (IH m1 m' H) as [Hperm Hne]. unfold getTactics_step in Hstep.
  rewrite filter_cons.
  destruct (truthy (n_technique_id n)) eqn:Htech.
  - destruct (tactic_key n) as [kn|e] eqn:Hkey; [|done].
    injection Hstep as <-.
    rewrite (decide_True (P := with_technique n)) by done.
    split.
    + rewrite Hperm, tactics_push_concat. simpl. apply Permutation_middle.
    + intros Hm. by apply Hne, tactics_push_nonempty.
  - injection Hstep as <-.
    rewrite (decide_False (P := with_technique n));
      [done|unfold with_technique; by rewrite Htech].
Qed.

(** X11.  The treemap has one leaf per node that has a technique.  For the
    groups of [getTactics] and the counts of [getTechniqueCounts]: the
    treemap has the groups of [getTactics], in the same order and none
    empty; its leaves are, up to order, the nodes with a technique
    identifier; and the value of a leaf is at least 1 and, for a technique
    string, the number of nodes that carry this string: a technique used by
    [k] nodes gives [k] leaves of value [k]. *)
Theorem treemap_has_a_leaf_per_node (p : Parser)
    (tactics : list (TacticName * list Node)) :
  getTactics p = Ok tactics →
  tg_name <$> t_children (prepareTreemapData tactics (getTechniqueCounts p))
  = fst <$> tactics ∧
  Forall (λ g, tg_children g ≠ [])
         (t_children (prepareTreemapData tactics (getTechniqueCounts p))) ∧
  l_name <$> treemap_leaves (prepareTreemapData tactics (getTechniqueCounts p))
  ≡ₚ n_technique_id <$> filter with_technique (g_nodes (graph p)) ∧
  ∀ leaf,
    leaf ∈ treemap_leaves (prepareTreemapData tactics (getTechniqueCounts p)) →
    1 ≤ l_value leaf ∧
    ∀ s, l_name leaf = VText s →
         l_value leaf = length (filter (has_technique s) (g_nodes (graph p))).
Proof.
  intros Ht. unfold getTactics in Ht.
  destruct (getTactics_loop_groups _ _ _ Ht) as [Hperm Hne].
  simpl in Hperm. specialize (Hne (Forall_nil_2 _)).
  unfold treemap_leaves, prepareTreemapData. simpl.
  destruct (prepareTreemapData_loop (getTechniqueCounts p) tactics [])
    as (Hleaves & Hnames & Hgroups).
  simpl in *. split; [by apply Hnames|]. split; [by apply Hgroups|].
  rewrite Hleaves. clear Hleaves Hnames Hgroups.
  assert (∀ (l : list (TacticName * list Node)),
            l_name <$> concat ((λ e : TacticName * list Node,
                                  treemap_leaf (getTechniqueCounts p) (fst e)
                                    <$> snd e) <$> l)
            = n_technique_id <$> concat (snd <$> l)) as Hnames.
  { induction l as [|[k ns] l IH]; csimpl; [done|].
    rewrite !fmap_app, IH. f_equal.
    rewrite <- list_fmap_compose. by apply list_fmap_ext. }
  split.
  { rewrite Hnames. by rewrite Hperm. }
  intros leaf Hleaf.
  assert (∃ k n, n ∈ g_nodes (graph p) ∧ with_technique n ∧
                 leaf = treemap_leaf (getTechniqueCounts p) k n)
    as (k & n & Hn & Hwith & ->).
  { apply elem_of_concat in Hleaf as (ls & Hleaf & Hls).
    apply list_elem_of_fmap in Hls as ([k ns] & -> & Hin). simpl in Hleaf.
    apply list_elem_of_fmap in Hleaf as (n & -> & Hn).
    exists k, n.
    assert (n ∈ concat (snd <$> tactics)) as Hc.
    { apply elem_of_concat. exists ns. split; [done|].
      by apply (list_elem_of_fmap_2 snd _ (k, ns)). }
    rewrite Hperm in Hc. apply list_elem_of_filter in Hc as [? ?]. done. }
  unfold treemap_leaf. simpl. split.
  { destruct (default 0 _ =? 0) eqn:Hz; [lia|].
    apply Nat.eqb_neq in Hz. lia. }
  intros s Hs. rewrite Hs, getTechniqueCounts_lookup.
  assert (filter (λ n0, with_technique n0 ∧ has_technique s n0)
                 (g_nodes (graph p))
          = filter (has_technique s) (g_nodes (graph p))) as ->.
  { apply list_filter_iff. intros n0. split; [by intros [_ ?]|].
    intros Hn0. split; [|done]. unfold with_technique, has_technique in *.
    rewrite Hn0, <- Hs. exact Hwith. }
  assert (n ∈ filter (has_technique s) (g_nodes (graph p))) as Hin
    by by apply list_elem_of_filter.
  destruct (filter (has_technique s) (g_nodes (graph p))) as [|x l];
    [by apply elem_of_nil in Hin|].
  done.
Qed.

(** ** The matrix view ([MatrixVisualization]) *)

Lemma matrix_push_spec k n m :
  matrix_push k n m
  = if existsb (same_technique n) (default [] (tactics_get k m)) then m
    else tactics_push k n m.
Proof.
  induction m as [|[k' l] m IH]; simpl; [done|].
  destruct (String.eqb_spec k' k) as [->|Hne]; simpl.
  - rewrite !bool_decide_eq_true_2 by done. simpl.
    by destruct (existsb _ l).
  - rewrite !bool_decide_eq_false_2 by done. rewrite IH.
    by destruct (existsb _ _).
Qed.

Lemma tactics_get_Some {K} `{EqDecision K} (k : K) l
    (m : list (K * list Node)) :
  tactics_get k m = Some l → (k, l) ∈ m.
Proof.
  induction m as [|[k' l'] m IH]; simpl; [done|].
  case_bool_decide as Hk.
  - subst k'. intros [= ->]. by left.
  - intros H1. right. by apply IH.
Qed.

Lemma tactics_get_elem {K} `{EqDecision K} (k : K) l
    (m : list (K * list Node)) :
  NoDup (fst <$> m) → (k, l) ∈ m → tactics_get k m = Some l.
Proof.
  induction m as [|[k' l'] m IH]; csimpl; intros Hnd Hin.
  - by apply elem_of_nil in Hin.
  - apply NoDup_cons in Hnd as [Hk' Hnd].
    apply elem_of_cons in Hin as [[= <- <-]|Hin].
    + by rewrite bool_decide_eq_true_2.
    + case_bool_decide as Hk; [|by apply IH]. subst k'.
      exfalso. apply Hk'. by apply (list_elem_of_fmap_2 fst _ (k, l)).
Qed.

Lemma tactics_push_filed nodes k n (m : list (string * list Node)) :
  filed_under nodes k n → matrix_wf nodes m →
  matrix_wf nodes (tactics_push k n m).
Proof.
  intros Hn [Hnd Hf]. split; [by apply tactics_push_NoDup|].
  clear Hnd. induction Hf as [|[k' l] m [Hl Hk'] Hm IH]; simpl.
  - constructor; [|constructor]. simpl. split; [done|].
    by apply Forall_singleton.
  - case_bool_decide as Hkk; [subst k'|]; constructor; auto.
    simpl in *. split; [by destruct l|].
    apply Forall_app. split; [done|]. by apply Forall_singleton.
Qed.

Lemma matrix_filed_technique nodes (m : list (string * list Node)) k s :
  matrix_wf nodes m → inferTactic (VText s) = Ok k →
  existsb (λ t, same_value (n_technique_id t) (VText s))
          (default [] (tactics_get k m)) = true
  ↔ VText s ∈ matrix_techniques m.
Proof.
  intros [Hnd Hf] Hk. unfold matrix_techniques.
  rewrite existsb_exists, list_elem_of_fmap. split.
  - intros (t & Ht & Hs).
    destruct (tactics_get k m) as [l|] eqn:Hl; simpl in Ht; [|done].
    exists t. split.
    + destruct (n_technique_id t); try done. simpl in Hs.
      by apply String.eqb_eq in Hs as ->.
    + apply elem_of_concat. exists l. split; [by apply list_elem_of_In|].
      apply tactics_get_Some in Hl.
      by apply (list_elem_of_fmap_2 snd _ (k, l)).
  - intros (t & Ht & Hin).
    apply elem_of_concat in Hin as (l & Hin & Hl).
    apply list_elem_of_fmap in Hl as ([k' l'] & -> & Hl). simpl in Hin.
    rewrite Forall_forall in Hf. destruct (Hf _ Hl) as [_ Hfiled].
    rewrite Forall_forall in Hfiled.
    destruct (Hfiled _ Hin) as (_ & _ & _ & Hk'). simpl in Hk'.
    rewrite <- Ht, Hk in Hk'. injection Hk' as <-.
    rewrite (tactics_get_elem _ _ _ Hnd Hl). simpl.
    exists t. split; [by apply list_elem_of_In|].
    rewrite <- Ht. simpl. apply String.eqb_refl.
Qed.

Lemma existsb_techniques_text s (l : list value) :
  existsb (λ x, same_value x (VText s)) l = true ↔ VText s ∈ l.
Proof.
  rewrite existsb_exists. split.
  - intros (x & Hx & Hs). apply list_elem_of_In in Hx.
    destruct x; try done. simpl in Hs. by apply String.eqb_eq in Hs as ->.
  - intros H. exists (VText s). split; [by apply list_elem_of_In|].
    simpl. apply String.eqb_refl.
Qed.

Lemma groupTechniquesByTactic_loop_spec (all : list Node) nodes :
  ∀ m m' (T : list value),
    groupTechniquesByTactic_loop nodes m = Ok m' →
    nodes ⊆ all →
    matrix_wf all m → NoDup T → matrix_techniques m ≡ₚ T →
    matrix_wf all m' ∧
    NoDup (fold_left techniques_step nodes T) ∧
    matrix_techniques m' ≡ₚ fold_left techniques_step nodes T.
Proof.
  induction nodes as [|n nodes IH]; intros m m' T H Hsub Hwf HT Hperm;
    simpl in H.
  { injection H as <-. done. }
  destruct (groupTechniquesByTactic_step m n) as [m1|e] eqn:Hstep; [|done].
  assert (matrix_wf all m1 ∧ NoDup (techniques_step T n) ∧
          matrix_techniques m1 ≡ₚ techniques_step T n) as (H1 & H2 & H3).
  { unfold groupTechniquesByTactic_step, techniques_step in *.
    destruct (truthy (n_technique_id n)) eqn:Htr;
      [|by injection Hstep as <-].
    destruct (inferTactic (n_technique_id n)) as [k|e] eqn:Hk; [|done].
    injection Hstep as <-.
    assert (∃ s, n_technique_id n = VText s) as [s Hs].
    { unfold inferTactic in Hk. rewrite Htr in Hk. simpl in Hk.
      destruct (n_technique_id n); try done. by eexists. }
    assert (filed_under all k n) as Hfiled.
    { split; [apply Hsub; by left|]. split; [done|]. split; [by exists s|done]. }
    rewrite matrix_push_spec. unfold same_technique, techniques_add.
    rewrite Hs in Hk |- *.
    pose proof (matrix_filed_technique all m k s Hwf Hk) as Hdup.
    pose proof (existsb_techniques_text s T) as HdupT.
    assert (VText s ∈ matrix_techniques m ↔ VText s ∈ T) as Hiff
      by (by rewrite Hperm).
    destruct (existsb _ (default [] (tactics_get k m))) eqn:Hex.
    - assert (existsb (λ x, same_value x (VText s)) T = true) as ->
        by (apply HdupT, Hiff, Hdup; done).
      done.
    - assert (existsb (λ x, same_value x (VText s)) T = false) as HexT.
      { apply not_true_is_false. intros HT'.
        apply HdupT, Hiff, Hdup in HT'. congruence. }
      rewrite HexT. split; [by apply tactics_push_filed|]. split.
      + apply NoDup_app. split; [done|]. split; [|apply NoDup_singleton].
        intros x Hx ->%list_elem_of_singleton.
        apply HdupT in Hx. congruence.
      + unfold matrix_techniques in *.
        rewrite tactics_push_concat. csimpl. rewrite Hs, Hperm.
        apply Permutation_cons_append. }
  simpl. apply (IH m1 m' _ H); try done.
  intros x Hx. apply Hsub. by right.
Qed.

(** X12.  The matrix shows every distinct technique once.  When
    [groupTechniquesByTactic] returns, the groups have distinct names and
    none is empty; every node in a group is a node of the graph, filed under
    the tactic that [inferTactic] gives for its technique identifier
    (whatever its own tactic name); and the technique identifiers of all
    groups together are pairwise distinct and are exactly the techniques
    that [getTechniqueCounts] counts. *)
Theorem matrix_shows_each_technique_once (p : Parser)
    (grouped : list (string * list Node)) :
  groupTechniquesByTactic (Some p) = Ok grouped →
  NoDup (fst <$> grouped) ∧
  (∀ k l, (k, l) ∈ grouped →
          l ≠ [] ∧
          ∀ n, n ∈ l → n ∈ g_nodes (graph p) ∧
                       inferTactic (n_technique_id n) = Ok k) ∧
  NoDup (matrix_techniques grouped) ∧
  matrix_techniques grouped ≡ₚ fst <$> getTechniqueCounts p.
Proof.
  intros H. simpl in H.
  destruct (groupTechniquesByTactic_loop_spec (g_nodes (graph p))
              (g_nodes (graph p)) [] grouped [] H)
    as ([Hnd Hf] & HndT & Hperm); try done.
  { split; [apply NoDup_nil_2|constructor]. }
  { apply NoDup_nil_2. }
  split; [done|]. split.
  - intros k l Hin. rewrite Forall_forall in Hf.
    destruct (Hf _ Hin) as [Hl Hfiled]. split; [done|].
    intros n Hn. rewrite Forall_forall in Hfiled.
    by destruct (Hfiled _ Hn) as (? & _ & _ & ?).
  - unfold getTechniqueCounts. rewrite getTechniqueCounts_keys. simpl.
    split; [by rewrite Hperm|done].
Qed.

(** ** getActionSequence on an acyclic graph *)

Lemma finished_app (l1 l2 : list (option Node)) :
  finished (l1 ++ l2) = finished l1 ∪ finished l2.
Proof.
  unfold finished. rewrite omap_app, fmap_app. apply list_to_set_app_L.
Qed.

Lemma topo_step_refl nodes G st : topo_step nodes G st st.
Proof. split; [by exists []|done]. Qed.

Lemma topo_step_trans nodes G st1 st2 st3 :
  topo_step nodes G st1 st2 → topo_step nodes G st2 st3 →
  topo_step nodes G st1 st3.
Proof.
  intros [[n1 H1] Hok1] [[n2 H2] Hok2]. split; [|by auto].
  exists (n2 ++ n1). by rewrite H2, H1, app_assoc.
Qed.

Section TopologicalOrder.
Variable nodes : list Node.
Variable rank : key → nat.
Hypothesis Hrank : children_ranked rank nodes.

Lemma child_rank n c :
  n ∈ nodes → c ∈ n_children n → c ∈ (n_id <$> nodes) →
  rank c < rank (n_id n).
Proof using Hrank.
  intros Hn Hc Hk. unfold children_ranked in Hrank.
  rewrite Forall_forall in Hrank. specialize (Hrank n Hn).
  rewrite Forall_forall in Hrank. by apply Hrank.
Qed.

Lemma visit_topo fuel :
  ∀ k G st st',
    visit fuel nodes k st = Some st' →
    (k ∈ (n_id <$> nodes) → ∀ g, g ∈ G → rank k < rank g) →
    topo_step nodes G st st' ∧
    (topo_ok nodes G st → k ∈ (n_id <$> nodes) →
     k ∈ finished (sequence st')).
Proof using Hrank.
  induction fuel as [|fuel IH]; intros k G st st' H HG; simpl in H; [done|].
  case_bool_decide as Hvis.
  { injection H as <-. split; [apply topo_step_refl|].
    intros [Hm _] Hk. destruct (Hm k Hvis Hk) as [Hg|?]; [|done].
    specialize (HG Hk k Hg). lia. }
  set (st1 := mkVisit ({[k]} ∪ visited st) (sequence st)) in H.
  destruct (nodeMap_get k nodes) as [n|] eqn:Hn.
  - destruct (forEachM (visit fuel nodes) (n_children n) st1) as [st2|]
      eqn:Hch; [|done].
    injection H as <-. simpl.
    apply nodeMap_get_Some in Hn as [Hn Hid].
    assert (k ∈ (n_id <$> nodes)) as Hk
      by (rewrite <- Hid; by apply list_elem_of_fmap_2).
    set (G' := {[k]} ∪ G).
    assert (∀ c, c ∈ n_children n → c ∈ (n_id <$> nodes) →
                 ∀ g, g ∈ G' → rank c < rank g) as HG'.
    { intros c Hc Hck g Hg.
      assert (rank c < rank k)
        by (rewrite <- Hid; by apply child_rank).
      apply elem_of_union in Hg as [->%elem_of_singleton|Hg]; [done|].
      specialize (HG Hk g Hg). lia. }
    assert (∀ c s s', c ∈ n_children n → visit fuel nodes c s = Some s' →
                      topo_step nodes G' s s') as Hstep.
    { intros c s s' Hc Hv. by apply (IH c G' s s' Hv), HG'. }
    pose proof (forEachM_rel (topo_step nodes G') (topo_step_refl nodes G')
                  (topo_step_trans nodes G') _ _ Hstep _ _ Hch)
      as [[new Hnew] Hok2].
    split.
    { split.
      - exists (Some n :: new). by rewrite Hnew.
      - intros [Hm Hord].
        assert (topo_ok nodes G' st1) as Hok1.
        { split; [|done]. intros x Hx Hxk. simpl in Hx.
          apply elem_of_union in Hx as [->%elem_of_singleton|Hx].
          - left. apply elem_of_union. left. by apply elem_of_singleton.
          - destruct (Hm x Hx Hxk) as [?|?]; [|by right].
            left. apply elem_of_union. by right. }
        destruct (Hok2 Hok1) as [Hm2 Hord2].
        split.
        + intros x Hx Hxk. simpl in *.
          change (Some n :: sequence st2) with ([Some n] ++ sequence st2).
          rewrite finished_app.
          destruct (Hm2 x Hx Hxk) as [Hg|Hf].
          * apply elem_of_union in Hg as [->%elem_of_singleton|Hg];
              [|by left].
            right. apply elem_of_union. left. unfold finished. simpl.
            rewrite Hid. set_solver.
          * right. apply elem_of_union. by right.
        + intros l1 m l2 Hsplit c Hc Hck. simpl in Hsplit.
          destruct l1 as [|x l1]; simpl in Hsplit.
          * injection Hsplit as <- <-.
            destruct (forEachM_elem (topo_step nodes G')
                        (topo_step_refl nodes G')
                        (topo_step_trans nodes G') _ _ c Hstep Hc _ _ Hch)
              as (s1 & s2 & [_ Hs1] & Hv & [[new2 Hnew2] _]).
            destruct (IH c G' s1 s2 Hv (HG' c Hc)) as [_ Hfin].
            specialize (Hfin (Hs1 Hok1) Hck).
            rewrite Hnew2, finished_app. apply elem_of_union. by right.
          * injection Hsplit as _ Hsplit. by apply (Hord2 l1 m l2). }
    intros _ _. simpl.
    change (Some n :: sequence st2) with ([Some n] ++ sequence st2).
    rewrite finished_app. apply elem_of_union. left.
    unfold finished. simpl. rewrite Hid. set_solver.
  - injection H as <-. simpl.
    assert (k ∉ (n_id <$> nodes)) as Hk.
    { intros Hk. apply nodeMap_get_elem in Hk as [n Hn']. congruence. }
    split; [|done]. split.
    + by exists [None].
    + intros [Hm Hord]. split.
      * intros x Hx Hxk. simpl in *.
        apply elem_of_union in Hx as [->%elem_of_singleton|Hx]; [done|].
        change (None :: sequence st) with ([None] ++ sequence st).
        rewrite finished_app.
        destruct (Hm x Hx Hxk) as [?|?]; [by left|].
        right. apply elem_of_union. by right.
      * intros l1 m l2 Hsplit c Hc Hck. simpl in Hsplit.
        destruct l1 as [|x l1]; simpl in Hsplit; [done|].
        injection Hsplit as _ Hsplit. by apply (Hord l1 m l2).
Qed.

Lemma visit_topo_top fuel k st st' :
  visit fuel nodes k st = Some st' → topo_step nodes ∅ st st'.
Proof using Hrank.
  intros H. apply (visit_topo fuel k ∅ st st' H).
  intros _ g Hg. by apply elem_of_empty in Hg.
Qed.

End TopologicalOrder.

Lemma visit_all_topo fuel p rank st :
  children_ranked rank (g_nodes (graph p)) →
  visit_all fuel p = Some (Ok st) →
  children_follow (g_nodes (graph p)) (sequence st).
Proof.
  intros Hrank. unfold visit_all. intros H.
  destruct (visit_start_refs fuel p _) as [[st1|e1]|] eqn:H1; [|done|done].
  destruct (visit_roots fuel p st1) as [st2|] eqn:H2; [|done].
  apply fmap_Ok_Some in H.
  set (nodes := g_nodes (graph p)) in *.
  assert (topo_step nodes ∅ (mkVisit ∅ []) st1) as Hs1.
  { revert H1. unfold visit_start_refs. destruct (attackFlow p) as [flow|].
    - apply forEachRefs_rel;
        eauto using topo_step_refl, topo_step_trans.
      intros a s s' Ha. destruct (objects p !! a) as [o|].
      + destruct (has_type "attack-action" o);
          [apply fmap_Ok_Some in Ha; by eapply visit_topo_top|].
        injection Ha as <-. apply topo_step_refl.
      + injection Ha as <-. apply topo_step_refl.
    - intros [= <-]. apply topo_step_refl. }
  assert (topo_step nodes ∅ st1 st2) as Hs2.
  { revert H2. unfold visit_roots. destruct (_ || _).
    - apply forEachM_rel; eauto using topo_step_refl, topo_step_trans.
      intros a s s' _ Ha. by eapply visit_topo_top.
    - intros [= <-]. apply topo_step_refl. }
  assert (topo_step nodes ∅ st2 st) as Hs3.
  { revert H. unfold visit_remaining.
    apply forEachM_rel; eauto using topo_step_refl, topo_step_trans.
    intros a s s' _ Ha. case_bool_decide.
    - injection Ha as <-. apply topo_step_refl.
    - by eapply visit_topo_top. }
  destruct (topo_step_trans _ _ _ _ _
              (topo_step_trans _ _ _ _ _ Hs1 Hs2) Hs3) as [_ Hok].
  apply Hok. split.
  - intros k Hk. by apply elem_of_empty in Hk.
  - intros l1 n l2 Hsplit. simpl in Hsplit. by destruct l1.
Qed.

Lemma omap_id_split {A} (l : list (option A)) (o1 o2 : list A) (x : A) :
  omap id l = o1 ++ x :: o2 →
  ∃ l1 l2, l = l1 ++ Some x :: l2 ∧ omap id l1 = o1 ∧ omap id l2 = o2.
Proof.
  revert o1. induction l as [|[y|] l IH]; intros o1 H; csimpl in H.
  - by destruct o1.
  - destruct o1 as [|z o1]; simpl in H.
    + injection H as -> <-. by exists [], l.
    + injection H as -> H. destruct (IH _ H) as (l1 & l2 & -> & <- & <-).
      by exists (Some z :: l1), l2.
  - destruct (IH _ H) as (l1 & l2 & -> & <- & <-).
    by exists (None :: l1), l2.
Qed.

Lemma getActionSequence_order fuel p (rank : key → nat) (out : list Node) :
  children_ranked rank (g_nodes (graph p)) →
  getActionSequence fuel p = Some (Ok out) →
  ∀ i j n m, out !! i = Some n → out !! j = Some m →
             n_id m ∈ n_children n → i < j.
Proof.
  intros Hrank Hrun i j n m Hi Hj Hc. unfold getActionSequence in Hrun.
  destruct (visit_all fuel p) as [[st|e]|] eqn:Hst; [|done|done].
  injection Hrun as <-.
  pose proof (visit_all_topo _ _ _ _ Hrank Hst) as Hord.
  destruct (visit_all_spec _ _ _ Hst) as (L & HndL & Hseq & _).
  set (nodes := g_nodes (graph p)) in *.
  assert (NoDup (n_id <$> omap id (sequence st))) as Hnd.
  { rewrite Hseq, omap_nodeMap_get_ids. by apply NoDup_filter. }
  assert (n_id m ∈ (n_id <$> nodes)) as Hm.
  { apply list_elem_of_fmap_2.
    apply list_elem_of_lookup_2 in Hj.
    apply list_elem_of_omap in Hj as (x & Hx & Hxm).
    destruct x as [m'|]; [|done]. injection Hxm as ->.
    rewrite Hseq in Hx. apply list_elem_of_fmap in Hx as (k & Hk & _).
    symmetry in Hk. by apply nodeMap_get_Some in Hk as [? _]. }
  pose proof (take_drop_middle _ _ _ Hi) as Hsplit. symmetry in Hsplit.
  apply omap_id_split in Hsplit as (l1 & l2 & Hl & Hl1 & Hl2).
  specialize (Hord l1 n l2 Hl _ Hc Hm).
  unfold finished in Hord. rewrite Hl2 in Hord.
  apply elem_of_list_to_set, list_elem_of_lookup_1 in Hord as [j' Hj'].
  rewrite list_lookup_fmap, lookup_drop in Hj'.
  assert ((n_id <$> omap id (sequence st)) !! j = Some (n_id m)) as H1
    by (by rewrite list_lookup_fmap, Hj).
  assert ((n_id <$> omap id (sequence st)) !! (S i + j') = Some (n_id m))
    as H2 by (by rewrite list_lookup_fmap).
  pose proof (NoDup_lookup _ _ _ _ Hnd H1 H2). lia.
Qed.

(** The result of [getActionSequence] from the result of the traversals. *)
Lemma getActionSequence_runs p r :
  (∀ fuel, sequence_fuel p ≤ fuel → visit_all fuel p = Some r) →
  ∀ fuel, sequence_fuel p ≤ fuel →
          getActionSequence fuel p
          = Some match r with
                 | Ok st => Ok (omap id (sequence st))
                 | Err e => Err e
                 end.
Proof.
  intros H fuel Hle. unfold getActionSequence. rewrite (H fuel Hle).
  by destruct r.
Qed.

(** X13.  [getActionSequence] sorts an acyclic graph topologically.  When no
    path along children returns to its start (a rank decreases from every
    node to its children), the traversal returns a sequence in which every
    node comes before each node that is one of its children; it throws
    instead when the start references of the flow object are no array. *)
Theorem getActionSequence_parents_before_children p (rank : key → nat) :
  children_ranked rank (g_nodes (graph p)) →
  ∃ r : result (list Node),
    (∀ fuel, sequence_fuel p ≤ fuel → getActionSequence fuel p = Some r) ∧
    match r with
    | Err e => starts_not_array p
    | Ok out =>
        ¬ starts_not_array p ∧
        ∀ i j n m, out !! i = Some n → out !! j = Some m →
                   n_id m ∈ n_children n → i < j
    end.
Proof.
  intros Hrank.
  destruct (getActionSequence_result p) as (r & Hruns & _ & Hwhich).
  pose proof (getActionSequence_runs p r Hruns) as Hget.
  destruct r as [st|e].
  - exists (Ok (omap id (sequence st))). split; [exact Hget|].
    split; [done|].
    apply (getActionSequence_order (sequence_fuel p) p rank); [done|].
    by apply Hget.
  - exists (Err e). split; [exact Hget|]. by destruct Hwhich.
Qed.

(** ** Tactic names from kill-chain phases *)










Lemma length_append (a b : string) :
  String.length (a ++ b) = String.length a + String.length b.
Proof. induction a as [|c a IH]; simpl; [done|]. by rewrite IH. Qed.







(** ** The flow object behind the metadata *)

(** X15.  Which object [getFlowMetadata] describes.  For a bundle it is the
    last [attack-flow] object of the document (a later one replaces an
    earlier one); for a builder document it is the first object tagged
    [flow], read through [getProperty]. *)
Theorem getFlowMetadata_source (fuel : nat) (d : RawData) (p : Parser)
    (objs : list Obj) :
  parse fuel d = Some (Ok p) →
  d_objects d = array objs →
  match format p with
  | AttackFlowFormat =>
      attackFlow p = last (filter (is_type "attack-flow") objs) ∧
      (m_name <$> getFlowMetadata p)
      = (o_name <$> last (filter (is_type "attack-flow") objs))
  | AfbFormat =>
      attackFlow p = afb_flow <$> find (has_tag "flow") objs ∧
      (m_name <$> getFlowMetadata p)
      = ((λ o, getProperty (o_properties o) "name")
           <$> find (has_tag "flow") objs)
  end.
Proof.
  intros Hp Hobjs.
  apply parse_Ok in Hp as (f & objs' & Hd & Hobjs' & Hb).
  assert (objs' = objs) as -> by (apply array_inj; congruence).
  apply buildGraph_graph in Hb as (_ & Hfmt & _ & Hflow & _).
  unfold getFlowMetadata. rewrite Hfmt, Hflow.
  destruct f; simpl.
  - destruct (parseAttackFlow_spec objs (init_parser AttackFlowFormat))
      as (-> & _ & _ & _ & ->). simpl.
    by destruct (last (filter (is_type "attack-flow") objs)).
  - destruct (parseAFB_spec objs (init_parser AfbFormat))
      as (-> & _ & _ & _ & ->). simpl.
    by destruct (find (has_tag "flow") objs).
Qed.

(** ** Nodes of a builder document *)




(** ** Direct effects *)

Lemma buildAttackFlowEdges_action fuel p g g' S refs t T :
  buildAttackFlowEdges fuel p g = Some (Ok g') →
  S ∈ actions p → o_effect_refs S = Refs refs → t ∈ refs →
  objects p !! t = Some T → is_type "attack-action" T →
  o_id S ∈ node_ids g → o_id T ∈ node_ids g →
  mkEdge (o_id S) (o_id T) ∈ g_edges g'.
Proof.
  unfold buildAttackFlowEdges.
  intros H HS Hrefs Ht HT HtyT Hs Hid.
  destruct (forEachE _ (actions p) g) as [[g1|e1]|] eqn:H1; [|done|done].
  injection H as <-.
  apply (grows_edge g1).
  { apply fold_left_step_ok. intros. apply link_relationship_ok. }
  destruct (forEachE_elem step_ok step_ok_refl step_ok_trans _ (actions p) S
              (λ a s s' _, action_effects_ok fuel (objects p) a s s')
              HS g g1 H1) as (u & u' & Hgu & Hrun & Hu').
  apply (grows_edge u' g1); [apply Hu'|].
  destruct (forEachRefs_elem step_ok _ _ refs t step_ok_refl step_ok_trans
              (λ r s s', follow_effect_ref_ok fuel (objects p) (o_id S) r s s')
              Hrefs Ht u u' Hrun) as (v & v' & Huv & Hrun' & Hv').
  apply (grows_edge v' u'); [apply Hv'|].
  unfold follow_effect_ref in Hrun'. rewrite HT in Hrun'.
  assert (grows g v) as Hgv by apply (step_ok_trans g u v Hgu Huv).
  eapply followEffectChain_action; eauto; by rewrite (grows_ids _ _ Hgv).
Qed.

(** X17.  A direct effect.  In a STIX document whose objects carry pairwise
    distinct non-empty identifiers, an action S whose [effect_refs] name the
    action T gives the edge (S, T), and T is a child of the node of S. *)
Theorem effect_ref_yields_edge_and_child (fuel : nat) (d : RawData)
    (objs : list Obj) (p : Parser) (S T : Obj) (effectRefs : list string)
    (s t : string) :
  d_type d = Some "bundle" →
  d_objects d = array objs →
  wf_ids objs →
  parse fuel d = Some (Ok p) →
  S ∈ objs → is_type "attack-action" S → o_id S = Some s →
  o_effect_refs S = Refs effectRefs → t ∈ effectRefs →
  T ∈ objs → is_type "attack-action" T → o_id T = Some t →
  mkEdge (Some s) (Some t) ∈ g_edges (graph p) ∧
  ∃ n, n ∈ g_nodes (graph p) ∧ n_id n = Some s ∧ Some t ∈ n_children n.
Proof.
  intros Hty Hobjs Hwf Hp HS HtyS HidS Heff Ht HT HtyT HidT.
  apply parse_Ok in Hp as (f & objs' & Hd & Hobjs' & Hbuild).
  assert (objs' = objs) as -> by (apply array_inj; congruence).
  destruct f; [|by destruct (detectFormat_Ok _ _ Hd) as (_ & ? & _)].
  pose proof (buildGraph_children _ _ _ Hbuild) as [_ Hch].
  set (q := extract_pass AttackFlowFormat objs) in *.
  destruct (parseAttackFlow_spec objs (init_parser AttackFlowFormat))
    as (Hfmt & _ & Hacts & _).
  fold (extract_pass AttackFlowFormat objs) in Hfmt, Hacts.
  fold q in Hfmt, Hacts. simpl in Hacts.
  assert (Hact : ∀ o, o ∈ objs → is_type "attack-action" o →
                      o_id o ∈ node_key <$> actions q).
  { intros o Ho Hto.
    assert (node_key o = o_id o) as <-
      by (unfold node_key, key_or; by rewrite (proj1 Hwf o Ho)).
    apply list_elem_of_fmap_2. rewrite Hacts.
    by apply list_elem_of_filter. }
  assert (objects q !! t = Some T) as HtT.
  { pose proof (parseAttackFlow_objects_NoDup objs
                  (init_parser AttackFlowFormat) T (wf_ids_keys _ Hwf) HT)
      as H.
    by rewrite HidT in H. }
  assert (mkEdge (Some s) (Some t) ∈ g_edges (graph p)) as Hedge.
  { apply buildGraph_Ok in Hbuild as [_ Hbuild]. rewrite Hfmt in Hbuild.
    destruct Hbuild as (g' & Hg & ->). simpl. rewrite <- HidS, <- HidT.
    eapply (buildAttackFlowEdges_action fuel q _ g' S effectRefs t T); eauto.
    - rewrite Hacts. by apply list_elem_of_filter.
    - rewrite initial_node_ids. by apply Hact.
    - rewrite initial_node_ids. by apply Hact. }
  split; [done|].
  destruct (Hch _ Hedge) as (n & Hn & Hc). simpl in Hn, Hc.
  apply nodeMap_get_Some in Hn as [Hn Hid]. by exists n.
Qed.

(** ** What the timeline shows *)

Lemma getActionSequence_permutation fuel p out :
  getActionSequence fuel p = Some (Ok out) →
  NoDup (n_id <$> g_nodes (graph p)) →
  out ≡ₚ g_nodes (graph p).
Proof.
  intros Hrun Hnd. unfold getActionSequence in Hrun.
  destruct (visit_all fuel p) as [[st|e]|] eqn:Hst; [|done|done].
  injection Hrun as <-.
  destruct (visit_all_spec _ _ _ Hst) as (L & HndL & Hseq & Hall).
  set (nodes := g_nodes (graph p)) in *.
  assert (Hout : ∀ n, n ∈ omap id (sequence st) ↔
                      ∃ k, k ∈ L ∧ nodeMap_get k nodes = Some n).
  { intros n. rewrite Hseq, list_elem_of_omap. split.
    - intros (x & Hx & Hxn). apply list_elem_of_fmap in Hx as (k & -> & Hk).
      exists k. by split.
    - intros (k & Hk & Hn). exists (Some n). split; [|done].
      apply list_elem_of_fmap. exists k. by split. }
  apply NoDup_Permutation.
  - apply (NoDup_fmap_1 n_id). rewrite Hseq, omap_nodeMap_get_ids.
    by apply NoDup_filter.
  - by apply (NoDup_fmap_1 n_id).
  - intros n. split.
    + intros Hn. apply Hout in Hn as (k & _ & Hk).
      by apply nodeMap_get_Some in Hk as [? _].
    + intros Hn. apply Hout. exists (n_id n). split; [by apply Hall|].
      destruct (nodeMap_get_elem (n_id n) nodes) as [n' Hn'];
        [by apply list_elem_of_fmap_2|].
      rewrite Hn'. f_equal.
      apply nodeMap_get_Some in Hn' as [Hin Hid].
      by apply (NoDup_fmap_elem_eq n_id nodes).
Qed.

(** X18.  The timeline shows exactly the actions that have a start.  For a
    graph with pairwise distinct node identifiers, on the sequence that
    [getActionSequence] returns: [render] reports no action only when the
    graph has no node; it shows no timeline only when no node has a start,
    and then reports the number of nodes; otherwise the timeline holds, up
    to order, the nodes with a start, and the warning is shown exactly when
    some node has none, with the number of those nodes and the number of all
    nodes.  [getActionSequence] throws instead, and [render] with it, when
    the start references of the flow object are no array. *)
Theorem timeline_shows_timed_actions (p : Parser) :
  NoDup (n_id <$> g_nodes (graph p)) →
  ∃ r : result (list Node),
    (∀ fuel, sequence_fuel p ≤ fuel → getActionSequence fuel p = Some r) ∧
    match r with
    | Err e => starts_not_array p
    | Ok out =>
        ¬ starts_not_array p ∧
        match timeline_render out with
        | NoActions => g_nodes (graph p) = []
        | NoTimeline total =>
            total = length (g_nodes (graph p)) ∧ 0 < total ∧
            filter timed (g_nodes (graph p)) = []
        | Timeline warning shown =>
            shown ≡ₚ filter timed (g_nodes (graph p)) ∧ shown ≠ [] ∧
            warning
            = match length (filter (λ n, ¬ timed n) (g_nodes (graph p))) with
              | 0 => None
              | missing => Some (missing, length (g_nodes (graph p)))
              end
        end
    end.
Proof.
  intros Hnd.
  destruct (getActionSequence_result p) as (r & Hvisits & _ & Hwhich).
  pose proof (getActionSequence_runs p r Hvisits) as Hruns.
  destruct r as [st|e];
    [|exists (Err e); split; [exact Hruns|by destruct Hwhich]].
  exists (Ok (omap id (sequence st))).
  split; [exact Hruns|]. split; [done|].
  pose proof (getActionSequence_permutation _ _ _
                (Hruns _ (Nat.le_refl _)) Hnd) as Hperm.
  set (out := omap id (sequence st)) in *.
  set (nodes := g_nodes (graph p)) in *.
  assert (length out = length nodes) as Hlen by by rewrite Hperm.
  assert (filter timed out ≡ₚ filter timed nodes) as Hf by by rewrite Hperm.
  assert (length (filter timed out) = length (filter timed nodes)) as Hflen
    by by rewrite Hf.
  assert (length (filter timed nodes)
          + length (filter (λ n, ¬ timed n) nodes) = length nodes) as Hsplit.
  { clear. induction nodes as [|n nodes IH]; [done|].
    rewrite !filter_cons. destruct (decide (timed n)).
    - rewrite decide_False by tauto. simpl. lia.
    - rewrite decide_True by done. simpl. lia. }
  unfold timeline_render.
  destruct (Nat.eqb_spec (length out) 0) as [H0|H0].
  { rewrite Hlen in H0. by destruct nodes. }
  destruct (Nat.eqb_spec (length (filter timed out)) 0) as [H1|H1].
  { split; [done|]. split; [lia|].
    rewrite Hflen in H1. by destruct (filter timed nodes). }
  split; [done|]. split; [by destruct (filter timed out)|].
  destruct (Nat.ltb_spec (length (filter timed out)) (length out)) as [H2|H2].
  - destruct (length (filter (λ n, ¬ timed n) nodes)) as [|m] eqn:Hm; [lia|].
    do 2 f_equal; lia.
  - destruct (length (filter (λ n, ¬ timed n) nodes)) as [|m] eqn:Hm;
      [done|lia].
Qed.

(** ** exportCSV ([TacticTableVisualization]) *)

Lemma append_assoc (a b c : string) : ((a ++ b) ++ c = a ++ (b ++ c))%string.
Proof.
  induction a as [|x a IH]; [done|].
  change (String x ((a ++ b) ++ c) = String x (a ++ (b ++ c)))%string.
  by rewrite IH.
Qed.

Lemma append_nil_r (a : string) : (a ++ "")%string = a.
Proof.
  induction a as [|x a IH]; [done|].
  change (String x (a ++ "") = String x a)%string. by rewrite IH.
Qed.

Lemma unquote_replace_quotes (d rest : string) :
  (∀ r, rest ≠ String quote_char r) →
  unquote_field (replace_quotes d ++ String quote_char rest)%string
  = Some (d, rest).
Proof.
  intros Hrest. induction d as [|c d IH].
  - change (unquote_field (String quote_char rest) = Some ("", rest)).
    simpl. destruct rest as [|c' r]; [done|].
    destruct (Ascii.eqb_spec c' quote_char) as [->|_]; [|done].
    by destruct (Hrest r).
  - simpl. destruct (Ascii.eqb_spec c quote_char) as [->|Hc].
    + change (unquote_field
                (String quote_char
                   (String quote_char
                      (replace_quotes d ++ String quote_char rest)%string))
              = Some (String quote_char d, rest)).
      simpl. by rewrite IH.
    + change (unquote_field
                (String c (replace_quotes d ++ String quote_char rest)%string)
              = Some (String c d, rest)).
      simpl. destruct (Ascii.eqb_spec c quote_char); [done|]. by rewrite IH.
Qed.

Lemma csv_cell_append (cell rest : string) :
  (csv_cell cell ++ rest)%string
  = String quote_char (cell ++ String quote_char rest)%string.
Proof.
  unfold csv_cell.
  change (String quote_char ((cell ++ String quote_char "") ++ rest)
          = String quote_char (cell ++ String quote_char rest))%string.
  by rewrite append_assoc.
Qed.

Lemma concat_lines_app (l1 l2 : list string) :
  foldr String.append "" (l1 ++ l2)
  = (foldr String.append "" l1 ++ foldr String.append "" l2)%string.
Proof.
  induction l1 as [|x l1 IH]; [done|].
  change (x ++ foldr String.append "" (l1 ++ l2)
          = (x ++ foldr String.append "" l1)
            ++ foldr String.append "" l2)%string.
  by rewrite IH, append_assoc.
Qed.

Lemma exportCSV_rows_spec native tactic techniques :
  ∀ csv csv',
    exportCSV_rows native tactic techniques csv = Ok csv' →
    ∃ lines,
      Forall2 (λ n line, exportCSV_row native tactic n = Ok line)
              techniques lines ∧
      csv' = (csv ++ foldr String.append "" lines)%string.
Proof.
  induction techniques as [|n techniques IH]; intros csv csv' H; simpl in H.
  - injection H as <-. exists []. split; [constructor|].
    simpl. by rewrite append_nil_r.
  - destruct (exportCSV_row native tactic n) as [line|e] eqn:Hrow; [|done].
    destruct (IH _ _ H) as (lines & Hl & ->).
    exists (line :: lines). split; [by constructor|].
    simpl. by rewrite append_assoc.
Qed.

Lemma exportCSV_groups_spec native tactics :
  ∀ csv csv',
    exportCSV_groups native tactics csv = Ok csv' →
    ∃ lines,
      Forall2 (λ r line, exportCSV_row native (fst r) (snd r) = Ok line)
              (table_rows tactics) lines ∧
      csv' = (csv ++ foldr String.append "" lines)%string.
Proof.
  induction tactics as [|[k l] tactics IH]; intros csv csv' H; simpl in H.
  - injection H as <-. exists []. split; [constructor|].
    simpl. by rewrite append_nil_r.
  - destruct (exportCSV_rows native k l csv) as [csv1|e] eqn:Hrows; [|done].
    destruct (exportCSV_rows_spec _ _ _ _ _ Hrows) as (lines1 & Hl1 & ->).
    destruct (IH _ _ H) as (lines2 & Hl2 & ->).
    exists (lines1 ++ lines2). split.
    + unfold table_rows. csimpl. apply Forall2_app; [|done].
      by apply Forall2_fmap_l.
    + by rewrite concat_lines_app, append_assoc.
Qed.

Lemma replace_quotes_free (s : string) :
  quote_free s = true → replace_quotes s = s.
Proof.
  induction s as [|c s IH]; simpl; [done|].
  destruct (Ascii.eqb c quote_char); simpl; [done|].
  intros H. by rewrite IH.
Qed.

(** Reading a cell in front of a comma, and in front of the line break. *)
Lemma read_fields_comma fuel (cell rest : string) :
  read_fields (S fuel)
    (csv_cell (replace_quotes cell) ++ String ","%char rest)%string
  = cons cell <$> read_fields fuel rest.
Proof.
  rewrite csv_cell_append.
  change (read_fields (S fuel) (String quote_char ?s))
    with (match unquote_field s with
          | Some (field, String c rest) =>
              if Ascii.eqb c ","%char
              then cons field <$> read_fields fuel rest
              else if String.eqb (String c rest) newline then Some [field]
              else None
          | _ => None
          end).
  by rewrite unquote_replace_quotes.
Qed.

Lemma read_fields_last fuel (cell : string) :
  read_fields (S fuel) (csv_cell (replace_quotes cell) ++ newline)%string
  = Some [cell].
Proof.
  rewrite csv_cell_append.
  change (read_fields (S fuel) (String quote_char ?s))
    with (match unquote_field s with
          | Some (field, String c rest) =>
              if Ascii.eqb c ","%char
              then cons field <$> read_fields fuel rest
              else if String.eqb (String c rest) newline then Some [field]
              else None
          | _ => None
          end).
  by rewrite unquote_replace_quotes.
Qed.

(** A line of four cells reads back when its first three cells hold no
    quote character. *)
Lemma read_row_line (c1 c2 c3 d : string) :
  quote_free c1 = true → quote_free c2 = true → quote_free c3 = true →
  read_row (join "," (map csv_cell [c1; c2; c3; replace_quotes d])
            ++ newline)%string
  = Some [c1; c2; c3; d].
Proof.
  intros H1 H2 H3. unfold read_row.
  rewrite <- (replace_quotes_free c1 H1) at 1 2.
  rewrite <- (replace_quotes_free c2 H2) at 1 2.
  rewrite <- (replace_quotes_free c3 H3) at 1 2.
  cbn [join map].
  set (line := (_ ++ newline)%string).
  assert (∃ fuel, String.length line = S (S (S (S fuel)))) as [fuel ->].
  { unfold line, csv_cell. rewrite !length_append. simpl.
    rewrite !length_append. simpl.
    match goal with |- ∃ fuel, ?n = _ => exists (n - 4); lia end. }
  unfold line. rewrite !append_assoc.
  repeat match goal with
         | |- context [("," ++ ?x)%string] =>
             change ("," ++ x)%string with (String ","%char x)
         end.
  rewrite !read_fields_comma, read_fields_last. reflexivity.
Qed.

(** X19.  The CSV export.  When [exportCSV] returns, the text is the header
    line followed by one line per node of the groups of [getTactics], group
    after group, as many as there are nodes with a technique identifier.  A
    line holds four cells between quote characters, with commas between
    them and a line break at the end: the tactic, the technique identifier,
    the name, and the description with its quote characters doubled.  Only
    the description is escaped: a reader of quoted fields recovers the four
    cells when tactic, technique identifier and name hold no quote
    character. *)
Theorem exportCSV_rows_and_description (native : string → string)
    (p : Parser) (csv : string) :
  exportCSV native (Some p) = Ok csv →
  ∃ tactics lines,
    getTactics p = Ok tactics ∧
    csv = (csv_header ++ foldr String.append "" lines)%string ∧
    length lines = length (filter with_technique (g_nodes (graph p))) ∧
    Forall2 (λ r line,
               ∃ d,
                 value_or (n_description (snd r)) (VText "") = VText d ∧
                 line = (join "," (map csv_cell
                                     (row_head native (fst r) (snd r)
                                      ++ [replace_quotes d]))
                         ++ newline)%string ∧
                 (forallb quote_free (row_head native (fst r) (snd r)) = true →
                  read_row line
                  = Some (row_head native (fst r) (snd r) ++ [d])))
            (table_rows tactics) lines.
Proof.
  intros H. simpl in H.
  destruct (getTactics p) as [tactics|e] eqn:Ht; [|done].
  destruct (exportCSV_groups_spec _ _ _ _ H) as (lines & Hl & ->).
  exists tactics, lines. split; [done|]. split; [done|]. split.
  - apply Forall2_length in Hl. rewrite <- Hl.
    unfold getTactics in Ht.
    destruct (getTactics_loop_groups _ _ _ Ht) as [Hperm _]. simpl in Hperm.
    rewrite <- Hperm. unfold table_rows. clear.
    induction tactics as [|[k l] tactics IH]; csimpl; [done|].
    by rewrite !length_app, length_fmap, IH.
  - eapply Forall2_impl; [exact Hl|].
    intros [k n] line Hrow. simpl in *.
    unfold exportCSV_row in Hrow.
    destruct (value_or (n_description n) (VText "")) as [| |d| |]; try done.
    injection Hrow as <-. exists d. split; [reflexivity|].
    split; [reflexivity|].
    unfold row_head. cbn [forallb app]. intros Hfree.
    apply andb_true_iff in Hfree as [H1 Hfree].
    apply andb_true_iff in Hfree as [H2 Hfree].
    apply andb_true_iff in Hfree as [H3 _].
    by apply read_row_line.
Qed.

(** A quote character in the name is written as it is, and the reader does
    not find the four cells. *)
Example quoted_name_does_not_read_back :
  csv_of (built 0 quoted_name_doc)
  = (csv_header
     ++ join "," (map csv_cell
                    [ "Initial Access"; "T1566";
                      ("a" ++ String quote_char ","); "d" ])
     ++ newline)%string ∧
  read_row (join "," (map csv_cell
                        [ "Initial Access"; "T1566";
                          ("a" ++ String quote_char ","); "d" ])
            ++ newline)%string
  = None.
Proof. split; vm_compute; reflexivity. Qed.

(** ** createMatrix ([MatrixVisualization]) *)








(** ** Sample runs of the statistics and the views *)

Example calculateDuration_samples :
  calculateDuration (Some 7199999%Z) = "1 hour" ∧
  calculateDuration (Some 172800000%Z) = "2 days" ∧
  calculateDuration (Some 59999%Z) = "59 seconds" ∧
  calculateDuration (Some 1000%Z) = "1 second" ∧
  calculateDuration (Some (-1500)%Z) = "-2 second".
Proof. repeat split; vm_compute; reflexivity. Qed.

(** The first and the third action start together: two branches, the second
    250 to the right of the first. *)
Example timed_doc_branches :
  ((λ g : list Node, n_id <$> g) <$> groupByTimestamp timed_nodes)
  = [[Some "a1"; Some "a3"]; [Some "a2"]] ∧
  calculateNonLinearSpacing 80 (groupByTimestamp timed_nodes) = [180; 430].
Proof. split; vm_compute; reflexivity. Qed.

(** T1595 is used twice: one entry, counted 2, and one unique technique
    less than there are actions. *)
Example timed_doc_statistics :
  getTechniqueCounts (built 0 timed_doc)
  = [(VText "T1595", 2); (VText "T1190", 1)] ∧
  uniqueTechniques (getDetailedStats (built 0 timed_doc)) = 2 ∧
  totalActions (getDetailedStats (built 0 timed_doc)) = 3.
Proof. repeat split; vm_compute; reflexivity. Qed.

(** The phase is recognised as TA0011, and the name keeps the capital of
    [And]. *)
Example c2_action_tactic :
  resolve_tactic c2_action
  = Ok (TName "Command And Control", VText "TA0011").
Proof. vm_compute. reflexivity. Qed.

(** A tactic identifier that names a member of [Object.prototype] finds that
    member in the table: the tactic name of the node is no string, and the
    node is grouped under it. *)
Example inherited_tactic_name :
  (n_tactic_name <$> g_nodes (graph (built 0 inherited_doc)))
  = [TMember "constructor"] ∧
  (fst <$> tactics_of (built 0 inherited_doc)) = [TMember "constructor"] ∧
  uniqueTactics (getDetailedStats (built 0 inherited_doc)) = 1.
Proof. repeat split; vm_compute; reflexivity. Qed.

(** [null] and [undefined] are two keys of the [Map] of [groupByTimestamp]:
    the start of a builder action whose property list gives none is [null],
    the start of a bundle action without [execution_start] member is
    [undefined]. *)
Example null_and_undefined_starts :
  groupByTimestamp [ untimed_node 0 VNull; untimed_node 1 VUndef;
                     untimed_node 2 VNull ]
  = [ [ untimed_node 0 VNull; untimed_node 2 VNull ];
      [ untimed_node 1 VUndef ] ].
Proof. vm_compute. reflexivity. Qed.

(** ** The further properties on sample inputs *)



Lemma children_are_edge_targets_witness :
  parse 2 branch_doc = Some (Ok (built 2 branch_doc)) ∧
  (∀ n, n ∈ g_nodes (graph (built 2 branch_doc)) →
        NoDup (n_children n) ∧
        ∀ c, c ∈ n_children n →
             c ∈ node_ids (graph (built 2 branch_doc)) ∧
             mkEdge (n_id n) c ∈ g_edges (graph (built 2 branch_doc))) ∧
  (∀ e, e ∈ g_edges (graph (built 2 branch_doc)) →
        ∃ n, nodeMap_get (e_source e) (g_nodes (graph (built 2 branch_doc)))
             = Some n ∧
             e_target e ∈ n_children n) ∧
  (NoDup (node_ids (graph (built 2 branch_doc))) →
   ∀ n c, n ∈ g_nodes (graph (built 2 branch_doc)) →
          (c ∈ n_children n
           ↔ mkEdge (n_id n) c ∈ g_edges (graph (built 2 branch_doc)))).
Proof.
  assert (parse 2 branch_doc = Some (Ok (built 2 branch_doc))) as Hp
    by (vm_compute; reflexivity).
  split; [exact Hp|].
  exact (children_are_edge_targets 2 branch_doc (built 2 branch_doc) Hp).
Defined.

Lemma nodes_are_actions_in_order_witness :
  parse 1 chain_doc = Some (Ok (built 1 chain_doc)) ∧
  length (g_nodes (graph (built 1 chain_doc)))
  = length (actions (built 1 chain_doc)) ∧
  ∀ i n, g_nodes (graph (built 1 chain_doc)) !! i = Some n →
         ∃ a, actions (built 1 chain_doc) !! i = Some a ∧
              make_node i a = Ok (strip n) ∧
              n_id n = node_key a ∧
              n_sequence n = i ∧
              n_type n = "attack-action" ∧
              n_technique_id n = o_technique_id a ∧
              n_name n = o_name a ∧
              n_confidence n = value_or (o_confidence a) (VText "certain") ∧
              resolve_tactic a = Ok (n_tactic_name n, n_tactic_id n).
Proof.
  assert (parse 1 chain_doc = Some (Ok (built 1 chain_doc))) as Hp
    by (vm_compute; reflexivity).
  split; [exact Hp|].
  exact (nodes_are_actions_in_order 1 chain_doc (built 1 chain_doc) Hp).
Defined.

Lemma getProperty_nested_last_pair_wins_witness :
  ("author" ∉ (fst <$> [("name", PText "demo")])) ∧
  [("name", "ann"); ("__proto__", "x"); ("name", "bob")] ≠ [] ∧
  ∃ obj,
    getProperty
      (Some ([("name", PText "demo")]
             ++ ("author",
                 PNested [("name", "ann"); ("__proto__", "x");
                          ("name", "bob")]) :: []))
      "author" = VObj obj ∧
    NoDup (fst <$> obj) ∧
    ∀ name, assoc name obj
            = if String.eqb name "__proto__" then None
              else assoc name
                     (reverse [("name", "ann"); ("__proto__", "x");
                               ("name", "bob")]).
Proof.
  assert ("author" ∉ (fst <$> [("name", PText "demo")])) as H1.
  { apply (bool_decide_unpack _). vm_compute. exact I. }
  assert ([("name", "ann"); ("__proto__", "x"); ("name", "bob")]
          ≠ @nil (string * string)) as H2
    by discriminate.
  split; [exact H1|]. split; [exact H2|].
  exact (getProperty_nested_last_pair_wins [("name", PText "demo")] []
           "author" [("name", "ann"); ("__proto__", "x"); ("name", "bob")]
           H1 H2).
Defined.

Lemma groupByTimestamp_partitions_by_start_witness :
  Forall (λ a, by_content (n_execution_start a)) timed_nodes ∧
  concat (groupByTimestamp timed_nodes) ≡ₚ timed_nodes ∧
  (∀ g, g ∈ groupByTimestamp timed_nodes →
        g ≠ [] ∧
        ∃ a, a ∈ timed_nodes ∧
             g = filter (started_at (n_execution_start a)) timed_nodes) ∧
  (∀ a, a ∈ timed_nodes →
        filter (started_at (n_execution_start a)) timed_nodes
        ∈ groupByTimestamp timed_nodes).
Proof.
  assert (Forall (λ a, by_content (n_execution_start a)) timed_nodes) as H.
  { apply (bool_decide_unpack _). vm_compute. exact I. }
  split; [exact H|].
  exact (groupByTimestamp_partitions_by_start timed_nodes H).
Defined.

Lemma treemap_has_a_leaf_per_node_witness :
  getTactics (built 0 timed_doc) = Ok (tactics_of (built 0 timed_doc)) ∧
  tg_name <$> t_children (prepareTreemapData (tactics_of (built 0 timed_doc))
                            (getTechniqueCounts (built 0 timed_doc)))
  = fst <$> tactics_of (built 0 timed_doc) ∧
  Forall (λ g, tg_children g ≠ [])
         (t_children (prepareTreemapData (tactics_of (built 0 timed_doc))
                        (getTechniqueCounts (built 0 timed_doc)))) ∧
  l_name <$> treemap_leaves
               (prepareTreemapData (tactics_of (built 0 timed_doc))
                  (getTechniqueCounts (built 0 timed_doc)))
  ≡ₚ n_technique_id <$> filter with_technique
                          (g_nodes (graph (built 0 timed_doc))) ∧
  ∀ leaf,
    leaf ∈ treemap_leaves
             (prepareTreemapData (tactics_of (built 0 timed_doc))
                (getTechniqueCounts (built 0 timed_doc))) →
    1 ≤ l_value leaf ∧
    ∀ s, l_name leaf = VText s →
         l_value leaf
         = length (filter (has_technique s)
                          (g_nodes (graph (built 0 timed_doc)))).
Proof.
  assert (getTactics (built 0 timed_doc) = Ok (tactics_of (built 0 timed_doc)))
    as H by (vm_compute; reflexivity).
  split; [exact H|].
  exact (treemap_has_a_leaf_per_node (built 0 timed_doc)
           (tactics_of (built 0 timed_doc)) H).
Defined.

Lemma matrix_shows_each_technique_once_witness :
  groupTechniquesByTactic (Some (built 0 timed_doc))
  = Ok (matrix_of (built 0 timed_doc)) ∧
  NoDup (fst <$> matrix_of (built 0 timed_doc)) ∧
  (∀ k l, (k, l) ∈ matrix_of (built 0 timed_doc) →
          l ≠ [] ∧
          ∀ n, n ∈ l → n ∈ g_nodes (graph (built 0 timed_doc)) ∧
                       inferTactic (n_technique_id n) = Ok k) ∧
  NoDup (matrix_techniques (matrix_of (built 0 timed_doc))) ∧
  matrix_techniques (matrix_of (built 0 timed_doc))
  ≡ₚ fst <$> getTechniqueCounts (built 0 timed_doc).
Proof.
  assert (groupTechniquesByTactic (Some (built 0 timed_doc))
          = Ok (matrix_of (built 0 timed_doc))) as H
    by (vm_compute; reflexivity).
  split; [exact H|].
  exact (matrix_shows_each_technique_once (built 0 timed_doc)
           (matrix_of (built 0 timed_doc)) H).
Defined.

Lemma getActionSequence_parents_before_children_witness :
  children_ranked chain_rank (g_nodes (graph (built 1 chain_doc))) ∧
  ∃ r : result (list Node),
    (∀ fuel, sequence_fuel (built 1 chain_doc) ≤ fuel →
             getActionSequence fuel (built 1 chain_doc) = Some r) ∧
    match r with
    | Err e => starts_not_array (built 1 chain_doc)
    | Ok out =>
        ¬ starts_not_array (built 1 chain_doc) ∧
        ∀ i j n m, out !! i = Some n → out !! j = Some m →
                   n_id m ∈ n_children n → i < j
    end.
Proof.
  assert (children_ranked chain_rank (g_nodes (graph (built 1 chain_doc))))
    as H.
  { apply (bool_decide_unpack _). vm_compute. exact I. }
  split; [exact H|].
  exact (getActionSequence_parents_before_children (built 1 chain_doc)
           chain_rank H).
Defined.


Lemma getFlowMetadata_source_witness :
  parse 0 afb_doc = Some (Ok (built 0 afb_doc)) ∧
  d_objects afb_doc = array afb_objs ∧
  match format (built 0 afb_doc) with
  | AttackFlowFormat =>
      attackFlow (built 0 afb_doc)
      = last (filter (is_type "attack-flow") afb_objs) ∧
      (m_name <$> getFlowMetadata (built 0 afb_doc))
      = (o_name <$> last (filter (is_type "attack-flow") afb_objs))
  | AfbFormat =>
      attackFlow (built 0 afb_doc)
      = afb_flow <$> find (has_tag "flow") afb_objs ∧
      (m_name <$> getFlowMetadata (built 0 afb_doc))
      = ((λ o, getProperty (o_properties o) "name")
           <$> find (has_tag "flow") afb_objs)
  end.
Proof.
  assert (parse 0 afb_doc = Some (Ok (built 0 afb_doc))) as Hp
    by (vm_compute; reflexivity).
  split; [exact Hp|]. split; [reflexivity|].
  exact (getFlowMetadata_source 0 afb_doc (built 0 afb_doc) afb_objs Hp
           eq_refl).
Defined.


Lemma effect_ref_yields_edge_and_child_witness :
  wf_ids chain_objs ∧
  parse 1 chain_doc = Some (Ok (built 1 chain_doc)) ∧
  mkEdge (Some "A") (Some "B") ∈ g_edges (graph (built 1 chain_doc)) ∧
  ∃ n, n ∈ g_nodes (graph (built 1 chain_doc)) ∧ n_id n = Some "A" ∧
       Some "B" ∈ n_children n.
Proof.
  assert (wf_ids chain_objs) as Hwf.
  { split.
    - intros o Ho. unfold chain_objs in Ho. elem_cases Ho; reflexivity.
    - apply (bool_decide_unpack _). vm_compute. exact I. }
  assert (parse 1 chain_doc = Some (Ok (built 1 chain_doc))) as Hp
    by (vm_compute; reflexivity).
  split; [exact Hwf|]. split; [exact Hp|].
  apply (effect_ref_yields_edge_and_child 1 chain_doc chain_objs
           (built 1 chain_doc)
           (stix_action_full "A" (VText "T1190") VUndef
              (Some [Some "initial-access"]) (Refs ["B"]))
           (stix_action_full "B" (VText "T1059") VUndef
              (Some [Some "execution"]) (Refs ["C"]))
           ["B"] "A" "B");
    [reflexivity|reflexivity|exact Hwf|exact Hp
    |in_list|reflexivity|reflexivity|reflexivity|in_list
    |in_list|reflexivity|reflexivity].
Defined.

Lemma timeline_shows_timed_actions_witness :
  NoDup (n_id <$> g_nodes (graph (built 0 timed_doc))) ∧
  ∃ r : result (list Node),
    (∀ fuel, sequence_fuel (built 0 timed_doc) ≤ fuel →
             getActionSequence fuel (built 0 timed_doc) = Some r) ∧
    match r with
    | Err e => starts_not_array (built 0 timed_doc)
    | Ok out =>
        ¬ starts_not_array (built 0 timed_doc) ∧
        match timeline_render out with
        | NoActions => g_nodes (graph (built 0 timed_doc)) = []
        | NoTimeline total =>
            total = length (g_nodes (graph (built 0 timed_doc))) ∧ 0 < total ∧
            filter timed (g_nodes (graph (built 0 timed_doc))) = []
        | Timeline warning shown =>
            shown ≡ₚ filter timed (g_nodes (graph (built 0 timed_doc))) ∧
            shown ≠ [] ∧
            warning
            = match length (filter (λ n, ¬ timed n)
                                   (g_nodes (graph (built 0 timed_doc)))) with
              | 0 => None
              | missing =>
                  Some (missing, length (g_nodes (graph (built 0 timed_doc))))
              end
        end
    end.
Proof.
  assert (NoDup (n_id <$> g_nodes (graph (built 0 timed_doc)))) as H.
  { apply (bool_decide_unpack _). vm_compute. exact I. }
  split; [exact H|].
  exact (timeline_shows_timed_actions (built 0 timed_doc) H).
Defined.

Lemma exportCSV_rows_and_description_witness :
  exportCSV (λ _, "") (Some (built 0 quoted_doc))
  = Ok (csv_of (built 0 quoted_doc)) ∧
  ∃ tactics lines,
    getTactics (built 0 quoted_doc) = Ok tactics ∧
    csv_of (built 0 quoted_doc)
    = (csv_header ++ foldr String.append "" lines)%string ∧
    length lines
    = length (filter with_technique (g_nodes (graph (built 0 quoted_doc)))) ∧
    Forall2 (λ r line,
               ∃ d,
                 value_or (n_description (snd r)) (VText "") = VText d ∧
                 line = (join "," (map csv_cell
                                     (row_head (λ _, "") (fst r) (snd r)
                                      ++ [replace_quotes d]))
                         ++ newline)%string ∧
                 (forallb quote_free (row_head (λ _, "") (fst r) (snd r))
                  = true →
                  read_row line
                  = Some (row_head (λ _, "") (fst r) (snd r) ++ [d])))
            (table_rows tactics) lines.
Proof.
  assert (exportCSV (λ _, "") (Some (built 0 quoted_doc))
          = Ok (csv_of (built 0 quoted_doc))) as H
    by (vm_compute; reflexivity).
  split; [exact H|].
  exact (exportCSV_rows_and_description (λ _, "") (built 0 quoted_doc)
           (csv_of (built 0 quoted_doc)) H).
Defined.

